(** * Password strength analysis under classical and quantum adversaries

    A shallow embedding of the two analysis scripts of the repository,
    [q-password.py] (class [QuantumPasswordAnalyzer], called variant A
    below) and [q-passwordv3.py] (class [QuantumAuthTool], variant B),
    together with the properties their specification states about them.

    Conventions of the embedding:
    - a Python [int] is a [Z]; a Python [float] is an IEEE 754 binary64
      value, represented by the standard library's [spec_float] and
      computed with its operations at precision 53 and exponent bound 1024;
    - a Python [str] is the list of its Unicode code points; [bytes] is a
      list of numbers below 256;
    - a Python exception is the [Raise] case of the [result] type;
    - what the scripts obtain from outside (the C library's [log2] and
      [pow], the float formatter, the circuit simulator, the random source,
      the string hash) is a [Variable] of the enclosing section;
    - console output is not modelled, but an expression formatted for
      output is still evaluated where it can raise. *)

From Stdlib Require Import ZArith NArith List Bool Lia String Ascii.
From Stdlib Require Import SpecFloat.
Import ListNotations.

Local Open Scope Z_scope.

(** ** Exceptions and the error monad *)

Inductive exn : Type :=
| OverflowError
| ValueError
| ZeroDivisionError
| UnicodeEncodeError
| BinasciiError
| CircuitError.

Inductive result (A : Type) : Type :=
| Ok (a : A)
| Raise (e : exn).

Arguments Ok {A} a.
Arguments Raise {A} e.

Definition bind {A B : Type} (r : result A) (k : A -> result B) : result B :=
  match r with
  | Ok a => k a
  | Raise e => Raise e
  end.

Notation "x <- r ;; k" := (bind r (fun x => k))
  (at level 61, r at next level, right associativity).
Notation "' p <- r ;; k" := (bind r (fun x => let p := x in k))
  (at level 61, p pattern, r at next level, right associativity).

Definition is_ok {A : Type} (r : result A) : bool :=
  match r with Ok _ => true | Raise _ => false end.

(** ** Strings *)

(** A [str] is a list of code points. *)
Definition str : Type := list N.

Definition lit (s : string) : str :=
  map N_of_ascii (list_ascii_of_string s).

Definition char_in (c : N) (s : str) : bool := existsb (N.eqb c) s.

(** [any(p(c) for c in s)] *)
Definition any {A : Type} (p : A -> bool) (l : list A) : bool := existsb p l.

Fixpoint starts_with (p s : str) : bool :=
  match p, s with
  | [], _ => true
  | _ :: _, [] => false
  | a :: p', b :: s' => N.eqb a b && starts_with p' s'
  end.

(** [p in s] for strings: [p] occurs as a contiguous run of [s]. *)
Fixpoint contains (s p : str) : bool :=
  starts_with p s ||
  match s with
  | [] => false
  | _ :: s' => contains s' p
  end.

Fixpoint Nrange (lo : N) (len : nat) : list N :=
  match len with
  | O => []
  | S n => lo :: Nrange (N.succ lo) n
  end.

(** The constants of Python's [string] module. *)
Definition ascii_lowercase : str := Nrange 97 26.
Definition ascii_uppercase : str := Nrange 65 26.
Definition ascii_letters : str := ascii_lowercase ++ ascii_uppercase.
Definition digits : str := Nrange 48 10.
Definition punctuation : str :=
  Nrange 33 15 ++ Nrange 58 7 ++ Nrange 91 6 ++ Nrange 123 4.
Definition whitespace : str := [32; 9; 10; 13; 11; 12]%N.

(** ** Floats: IEEE 754 binary64 *)

Definition prec : Z := 53.
Definition emax : Z := 1024.

Definition float : Type := spec_float.

Definition fdiv : float -> float -> float := SFdiv prec emax.
Definition fmul : float -> float -> float := SFmul prec emax.
Definition fadd : float -> float -> float := SFadd prec emax.
Definition fsqrt : float -> float := SFsqrt prec emax.

Definition is_finite (x : float) : bool :=
  match x with
  | S754_zero _ | S754_finite _ _ _ => true
  | S754_infinity _ | S754_nan => false
  end.

Definition is_nan (x : float) : bool :=
  match x with S754_nan => true | _ => false end.

(** The integer [z] rounded to the nearest float, ties to even; an
    infinity when [z] is beyond the range. *)
Definition round_Z (z : Z) : float := binary_normalize prec emax z 0 false.

(** An integer as an exact operand of a float operation (the mantissa is
    not normalised; the operations of [SpecFloat] normalise their result). *)
Definition exact_Z (z : Z) : float :=
  match z with
  | Z0 => S754_zero false
  | Zpos p => S754_finite false p 0
  | Zneg p => S754_finite true p 0
  end.

(** *** The value of a float *)

(** Either not a number, an infinity, or the dyadic rational [m * 2^e]. *)
Inductive xdyadic : Type :=
| XNaN
| XNegInf
| XPosInf
| XFin (m e : Z).

Definition float_val (x : float) : xdyadic :=
  match x with
  | S754_nan => XNaN
  | S754_infinity true => XNegInf
  | S754_infinity false => XPosInf
  | S754_zero _ => XFin 0 0
  | S754_finite s m e => XFin (cond_Zopp s (Zpos m)) e
  end.

(** Exact comparison of [m1 * 2^e1] with [m2 * 2^e2]. *)
Definition dyadic_compare (m1 e1 m2 e2 : Z) : comparison :=
  let e := Z.min e1 e2 in
  (m1 * 2 ^ (e1 - e) ?= m2 * 2 ^ (e2 - e)).

Definition xcompare (a b : xdyadic) : option comparison :=
  match a, b with
  | XNaN, _ | _, XNaN => None
  | XNegInf, XNegInf => Some Eq
  | XNegInf, _ => Some Lt
  | _, XNegInf => Some Gt
  | XPosInf, XPosInf => Some Eq
  | XPosInf, _ => Some Gt
  | _, XPosInf => Some Lt
  | XFin m1 e1, XFin m2 e2 => Some (dyadic_compare m1 e1 m2 e2)
  end.

(** ** Numbers: [int] or [float] *)

Inductive number : Type :=
| PyInt (z : Z)
| PyFloat (x : float).

Definition num_val (a : number) : xdyadic :=
  match a with
  | PyInt z => XFin z 0
  | PyFloat x => float_val x
  end.

(** Python compares numbers of either type by their exact value; every
    comparison with a NaN is false. *)
Definition lt (a b : number) : bool :=
  match xcompare (num_val a) (num_val b) with Some Lt => true | _ => false end.
Definition le (a b : number) : bool :=
  match xcompare (num_val a) (num_val b) with
  | Some Lt | Some Eq => true
  | _ => false
  end.
Definition gt (a b : number) : bool := lt b a.
Definition ge (a b : number) : bool := le b a.

(** [float(z)]: raises when [z] rounds beyond the largest float. *)
Definition int_to_float (z : Z) : result float :=
  let x := round_Z z in
  if is_finite x then Ok x else Raise OverflowError.

Definition to_float (a : number) : result float :=
  match a with
  | PyInt z => int_to_float z
  | PyFloat x => Ok x
  end.

Definition is_zero (x : float) : bool :=
  match x with S754_zero _ => true | _ => false end.

(** [a / b]. Two integers are divided exactly and the quotient is rounded
    once; otherwise both operands are converted and divided as floats. *)
Definition truediv (a b : number) : result number :=
  match a, b with
  | PyInt x, PyInt y =>
      if y =? 0 then Raise ZeroDivisionError
      else
        let q := fdiv (exact_Z x) (exact_Z y) in
        if is_finite q then Ok (PyFloat q) else Raise OverflowError
  | _, _ =>
      x <- to_float a ;;
      y <- to_float b ;;
      if is_zero y then Raise ZeroDivisionError
      else Ok (PyFloat (fdiv x y))
  end.

(** [a * b] *)
Definition mul (a b : number) : result number :=
  match a, b with
  | PyInt x, PyInt y => Ok (PyInt (x * y))
  | _, _ =>
      x <- to_float a ;;
      y <- to_float b ;;
      Ok (PyFloat (fmul x y))
  end.

(** [math.sqrt(a)] *)
Definition math_sqrt (a : number) : result float :=
  x <- to_float a ;;
  if lt (PyFloat x) (PyInt 0) then Raise ValueError
  else Ok (fsqrt x).

(** [math.log2(a)] over the C library's [log2]. An integer that is too
    large for a float is split into a mantissa in [[0.5, 1)] and an
    exponent first. *)
Definition float_one : float := S754_finite false 4503599627370496 (-52).
Definition float_half : float := S754_finite false 4503599627370496 (-53).
Definition float_two : float := S754_finite false 4503599627370496 (-51).

Definition long_frexp (z : Z) : float * Z :=
  let d := Z.log2 z + 1 in
  let x := fdiv (exact_Z z) (exact_Z (2 ^ d)) in
  match xcompare (float_val x) (float_val float_one) with
  | Some Eq => (float_half, d + 1)
  | _ => (x, d)
  end.

Definition math_log2 (libm_log2 : float -> float) (a : number) : result float :=
  match a with
  | PyInt z =>
      if z <=? 0 then Raise ValueError
      else
        match int_to_float z with
        | Ok x => Ok (libm_log2 x)
        | Raise _ =>
            let '(x, e) := long_frexp z in
            Ok (fadd (libm_log2 x) (fmul (libm_log2 float_two) (round_Z e)))
        end
  | PyFloat x =>
      if is_nan x then Ok x
      else if gt (PyFloat x) (PyInt 0) then
        let r := libm_log2 x in
        if is_nan r then Raise ValueError
        else if negb (is_finite r) && is_finite x then Raise ValueError
        else Ok r
      else Raise ValueError
  end.

(** [a ** b] on integers: exact for a non-negative exponent, a float power
    otherwise ([float_pow] stands for [float.__pow__]). *)
Definition pow (float_pow : float -> float -> result float) (a b : Z)
  : result number :=
  if 0 <=? b then Ok (PyInt (a ^ b))
  else
    x <- int_to_float a ;;
    y <- int_to_float b ;;
    r <- float_pow x y ;;
    Ok (PyFloat r).

(** [format(a, spec)] for a float presentation type: an integer is
    converted first. *)
Definition format_num (fmt : float -> str) (a : number) : result str :=
  x <- to_float a ;;
  Ok (fmt x).

(** Decimal digits of a natural number, most significant first. *)
Fixpoint dec_digits (fuel : nat) (n : N) (acc : str) : str :=
  match fuel with
  | O => acc
  | S f =>
      let acc' := (48 + n mod 10)%N :: acc in
      if (n <? 10)%N then acc' else dec_digits f (n / 10)%N acc'
  end.

Definition str_of_N (n : N) : str := dec_digits (S (N.to_nat (N.log2 n))) n [].

(** [str(z)] *)
Definition str_of_Z (z : Z) : str :=
  match z with
  | Z0 => str_of_N 0
  | Zpos p => str_of_N (Npos p)
  | Zneg p => 45%N :: str_of_N (Npos p)
  end.

(** [format(z, '04d')] for [0 <= z]: at least four digits, zero padded. *)
Definition format_04d (z : Z) : str :=
  let s := str_of_Z z in
  repeat 48%N (4 - List.length s) ++ s.

(** [format(z, '02d')] for [0 <= z]. *)
Definition format_02d (z : Z) : str :=
  let s := str_of_Z z in
  repeat 48%N (2 - List.length s) ++ s.

(** [int(a)]: a float is truncated toward zero. *)
Definition float_to_int (x : float) : result Z :=
  match x with
  | S754_nan => Raise ValueError
  | S754_infinity _ => Raise OverflowError
  | S754_zero _ => Ok 0
  | S754_finite s m e =>
      Ok (cond_Zopp s (if 0 <=? e then Zpos m * 2 ^ e
                       else Zpos m / 2 ^ (- e)))
  end.

Definition to_int (a : number) : result Z :=
  match a with
  | PyInt z => Ok z
  | PyFloat x => float_to_int x
  end.

(** [timedelta(seconds=s)] for an integer [s]: the days and the seconds of
    the last day; the days are limited to 999999999 in magnitude. *)
Definition timedelta (s : Z) : result (Z * Z) :=
  let days := s / 86400 in
  let seconds := s mod 86400 in
  if Z.abs days >? 999999999 then Raise OverflowError
  else Ok (days, seconds).

(** [str(td)] for a [timedelta] without microseconds. *)
Definition timedelta_str (td : Z * Z) : str :=
  let '(days, seconds) := td in
  let mm := seconds / 60 in
  let ss := seconds mod 60 in
  let hh := mm / 60 in
  let mm := mm mod 60 in
  let s := str_of_Z hh ++ lit ":" ++ format_02d mm ++ lit ":" ++ format_02d ss in
  if days =? 0 then s
  else str_of_Z days ++ lit " day" ++ (if Z.abs days =? 1 then [] else lit "s")
         ++ lit ", " ++ s.

(** [round(x, 2)]: the decimal with two fractional digits nearest to [x]
    (ties to the even one), then the float nearest to that decimal. *)
Definition round_half_even (num den : Z) : Z :=
  let q := num / den in
  match 2 * (num mod den) ?= den with
  | Lt => q
  | Eq => if Z.even q then q else q + 1
  | Gt => q + 1
  end.

Definition round2 (x : float) : float :=
  match x with
  | S754_finite s m e =>
      let d :=
        if 0 <=? e then Zpos m * 2 ^ e * 100
        else round_half_even (Zpos m * 100) (2 ^ (- e)) in
      if d =? 0 then S754_zero s
      else fdiv (exact_Z (cond_Zopp s d)) (exact_Z 100)
  | _ => x
  end.

(** ** Bytes, UTF-8, base64, hexadecimal *)

(** [bytes(l)]: every element must be in [range(256)]. *)
Definition bytes (l : list N) : result (list N) :=
  if forallb (fun b => (b <? 256)%N) l then Ok l else Raise ValueError.

Definition utf8_encode_char (c : N) : result (list N) :=
  (if c <? 0x80 then Ok [c]
   else if c <? 0x800 then Ok [0xC0 + c / 64; 0x80 + c mod 64]
   else if c <? 0x10000 then
     if (0xD800 <=? c) && (c <? 0xE000) then Raise UnicodeEncodeError
     else Ok [0xE0 + c / 4096; 0x80 + (c / 64) mod 64; 0x80 + c mod 64]
   else Ok [0xF0 + c / 262144; 0x80 + (c / 4096) mod 64;
            0x80 + (c / 64) mod 64; 0x80 + c mod 64])%N.

(** [s.encode()] *)
Fixpoint encode (s : str) : result (list N) :=
  match s with
  | [] => Ok []
  | c :: s' =>
      b <- utf8_encode_char c ;;
      bs <- encode s' ;;
      Ok (b ++ bs)
  end.

(** The base64 character of a six-bit value. *)
Definition b64_char (v : N) : N :=
  (if v <? 26 then 65 + v
   else if v <? 52 then 97 + (v - 26)
   else if v <? 62 then 48 + (v - 52)
   else if v =? 62 then 43
   else 47)%N.

Definition b64_pad : N := 61%N.

(** [base64.b64encode(bs).decode()] *)
Fixpoint b64encode (bs : list N) : str :=
  match bs with
  | [] => []
  | [a] => [b64_char (a / 4); b64_char (a mod 4 * 16); b64_pad; b64_pad]%N
  | [a; b] =>
      [b64_char (a / 4); b64_char (a mod 4 * 16 + b / 16);
       b64_char (b mod 16 * 4); b64_pad]%N
  | a :: b :: c :: rest =>
      ([b64_char (a / 4); b64_char (a mod 4 * 16 + b / 16);
        b64_char (b mod 16 * 4 + c / 64); b64_char (c mod 64)]
       ++ b64encode rest)%N
  end.

(** The six-bit value of a base64 character. *)
Definition b64_value (c : N) : option N :=
  (if (65 <=? c) && (c <? 91) then Some (c - 65)
   else if (97 <=? c) && (c <? 123) then Some (c - 97 + 26)
   else if (48 <=? c) && (c <? 58) then Some (c - 48 + 52)
   else if c =? 43 then Some 62
   else if c =? 47 then Some 63
   else None)%N.

(** [base64.b64decode(s, validate=True)]: groups of four characters, the
    last one padded with one or two [=]. *)
Fixpoint b64decode (s : str) : result (list N) :=
  match s with
  | [] => Ok []
  | c1 :: c2 :: c3 :: c4 :: rest =>
      match b64_value c1, b64_value c2 with
      | Some v1, Some v2 =>
          match b64_value c3, b64_value c4, rest with
          | Some v3, Some v4, _ =>
              bs <- b64decode rest ;;
              Ok ([v1 * 4 + v2 / 16; v2 mod 16 * 16 + v3 / 4;
                   v3 mod 4 * 64 + v4]%N ++ bs)
          | Some v3, None, [] =>
              if (c4 =? b64_pad)%N
              then Ok [v1 * 4 + v2 / 16; v2 mod 16 * 16 + v3 / 4]%N
              else Raise BinasciiError
          | None, None, [] =>
              if (c3 =? b64_pad)%N && (c4 =? b64_pad)%N
              then Ok [v1 * 4 + v2 / 16]%N
              else Raise BinasciiError
          | _, _, _ => Raise BinasciiError
          end
      | _, _ => Raise BinasciiError
      end
  | _ => Raise BinasciiError
  end.

(** Hexadecimal digits, lower case. *)
Definition hex_char (v : N) : N :=
  (if v <? 10 then 48 + v else 97 + (v - 10))%N.

Fixpoint hex_digits (fuel : nat) (n : N) (acc : str) : str :=
  match fuel with
  | O => acc
  | S f =>
      let acc' := hex_char (n mod 16) :: acc in
      if (n <? 16)%N then acc' else hex_digits f (n / 16)%N acc'
  end.

(** [hex(z)] *)
Definition hex (z : Z) : str :=
  let n := Z.abs_N z in
  (if z <? 0 then [45%N] else [])
    ++ lit "0x" ++ hex_digits (S (N.to_nat (N.log2 n))) n [].

Definition hex_value (c : N) : option N :=
  (if (48 <=? c) && (c <? 58) then Some (c - 48)
   else if (97 <=? c) && (c <? 103) then Some (c - 97 + 10)
   else if (65 <=? c) && (c <? 71) then Some (c - 65 + 10)
   else None)%N.

Fixpoint parse_digits (value : N -> option N) (base : N) (s : str) (acc : N)
  : result N :=
  match s with
  | [] => Ok acc
  | c :: s' =>
      match value c with
      | Some v => parse_digits value base s' (acc * base + v)%N
      | None => Raise ValueError
      end
  end.

(** [int(s, 16)] on a literal made of an optional sign, the prefix [0x]
    and at least one digit, which is the form [hex] writes; the other
    forms [int] accepts (surrounding blanks, underscores, no prefix) are
    rejected here. *)
Definition int_16 (s : str) : result Z :=
  let '(neg, s) :=
    match s with
    | 45%N :: s' => (true, s')
    | _ => (false, s)
    end in
  match s with
  | 48%N :: 120%N :: c :: ds =>
      n <- parse_digits hex_value 16 (c :: ds) 0 ;;
      Ok (cond_Zopp neg (Z.of_N n))
  | _ => Raise ValueError
  end.

Definition bit_value (c : N) : option N :=
  (if c =? 48 then Some 0 else if c =? 49 then Some 1 else None)%N.

(** [int(s, 2)] on a non-empty string of binary digits, which is the form
    of a measured key; the other forms [int] accepts are rejected here. *)
Definition int_2 (s : str) : result Z :=
  match s with
  | [] => Raise ValueError
  | _ :: _ =>
      n <- parse_digits bit_value 2 s 0 ;;
      Ok (Z.of_N n)
  end.

(** * Variant A: [q-password.py] *)

Module QuantumPasswordAnalyzer.

Record char_set_sizes : Type := {
  lowercase : Z;
  uppercase : Z;
  digits : Z;
  symbols : Z
}.

Record report : Type := {
  length : Z;
  charset_size : Z;
  classical_combinations : number;
  entropy : number;
  classical_time : str;
  quantum_attempts : float;
  quantum_time : str;
  classical_strength : str;
  quantum_vulnerability : str;
  quantum_hash : str;
  quantum_key : str
}.

(** [__init__] *)
Definition char_sets : char_set_sizes :=
  {| lowercase := 26; uppercase := 26; digits := 10; symbols := 8 |}.
Definition classical_speed : Z := 10 ^ 8.
Definition quantum_speed : Z := 10 ^ 12.

Section Analyzer.

  (** The C library's [log2]. *)
Variable libm_log2 : float -> float.
  (** [float.__pow__] *)
Variable float_pow : float -> float -> result float.
  (** [format(x, '.2e')] and [format(x, '.2f')] on floats. *)
Variable format_2e : float -> str.
Variable format_2f : float -> str.
  (** The simulator: the key measured on a register of the given size. *)
Variable run_circuit : Z -> result str.
  (** The built-in [hash] on strings. *)
Variable hash : str -> Z.

Definition calculate_charset_size
      (use_lowercase use_uppercase use_digits use_symbols : bool)
    : Z * list str :=
    let k := 0 in
    let details := [] in
    let '(k, details) :=
      if use_lowercase
      then (k + lowercase char_sets,
            details ++ [lit "Lowercase: +" ++ str_of_Z (lowercase char_sets)])
      else (k, details) in
    let '(k, details) :=
      if use_uppercase
      then (k + uppercase char_sets,
            details ++ [lit "Uppercase: +" ++ str_of_Z (uppercase char_sets)])
      else (k, details) in
    let '(k, details) :=
      if use_digits
      then (k + digits char_sets,
            details ++ [lit "Digits: +" ++ str_of_Z (digits char_sets)])
      else (k, details) in
    let '(k, details) :=
      if use_symbols
      then (k + symbols char_sets,
            details ++ [lit "Symbols: +" ++ str_of_Z (symbols char_sets)])
      else (k, details) in
    (k, details).

Definition calculate_classical_combinations (k n : Z) : result number :=
    pow float_pow k n.

Definition calculate_entropy (k n : Z) : result number :=
    if k <=? 0 then Ok (PyInt 0)
    else
      l <- math_log2 libm_log2 (PyInt k) ;;
      mul (PyInt n) (PyFloat l).

Definition format_time (seconds : number) : result str :=
    if lt seconds (PyInt 60) then
      s <- format_num format_2e seconds ;;
      Ok (s ++ lit " seconds")
    else if lt seconds (PyInt 3600) then
      q <- truediv seconds (PyInt 60) ;;
      s <- format_num format_2f q ;;
      Ok (s ++ lit " minutes")
    else if lt seconds (PyInt 86400) then
      q <- truediv seconds (PyInt 3600) ;;
      s <- format_num format_2f q ;;
      Ok (s ++ lit " hours")
    else if lt seconds (PyInt 31536000) then
      q <- truediv seconds (PyInt 86400) ;;
      s <- format_num format_2f q ;;
      Ok (s ++ lit " days")
    else
      q <- truediv seconds (PyInt 31536000) ;;
      s <- format_num format_2e q ;;
      Ok (s ++ lit " years").

Definition calculate_classical_crack_time (combinations : number)
    : result str :=
    time_seconds <- truediv combinations (PyInt classical_speed) ;;
    format_time time_seconds.

Definition classify_strength (entropy : number) : str * str :=
    if lt entropy (PyInt 40) then (lit "WEAK", [0x1F534]%N)
    else if lt entropy (PyInt 60) then (lit "MEDIUM", [0x1F7E1]%N)
    else if lt entropy (PyInt 80) then (lit "STRONG", [0x1F7E2]%N)
    else (lit "VERY STRONG", [0x1F7E2; 0x1F7E2]%N).

Definition apply_grovers_speedup (combinations : number)
    : result (float * number) :=
    quantum_attempts <- math_sqrt combinations ;;
    speedup_factor <-
      (if gt (PyFloat quantum_attempts) (PyInt 0)
       then truediv combinations (PyFloat quantum_attempts)
       else Ok (PyInt 1)) ;;
    Ok (quantum_attempts, speedup_factor).

Definition calculate_quantum_crack_time (quantum_attempts : number)
    : result str :=
    time_seconds <- truediv quantum_attempts (PyInt quantum_speed) ;;
    format_time time_seconds.

Definition assess_quantum_vulnerability
      (classical_time_str quantum_time_str : str) : str :=
    if contains quantum_time_str (lit "second")
       || contains quantum_time_str (lit "minute")
    then lit "CRITICAL"
    else if contains quantum_time_str (lit "hour")
            || contains quantum_time_str (lit "day")
    then lit "HIGH"
    else if contains quantum_time_str (lit "year")
    then lit "MODERATE"
    else lit "LOW".

  (** The circuit is represented by the size of its register. *)
Definition create_quantum_key (length : Z) : result (str * Z) :=
    let num_qubits := Z.min length 8 in
    quantum_key <- run_circuit num_qubits ;;
    Ok (quantum_key, num_qubits).

Definition quantum_encrypt_password (password_length : Z)
    : result (str * str * Z) :=
    '(quantum_key, circuit) <- create_quantum_key password_length ;;
    let quantum_hash :=
      lit "QKD-" ++ quantum_key ++ lit "-"
        ++ format_04d (hash quantum_key mod 10000) in
    Ok (quantum_hash, quantum_key, circuit).

Definition print_summary (length k : Z) (combinations entropy : number)
    : result unit :=
    _ <- format_num format_2e combinations ;;
    _ <- format_num format_2f entropy ;;
    Ok tt.

Definition analyze_password (length : Z)
      (use_lowercase use_uppercase use_digits use_symbols : bool)
      (show_quantum_circuit : bool)
    : result report :=
    (* Module 1 *)
    let '(k, details) :=
      calculate_charset_size use_lowercase use_uppercase
                             use_digits use_symbols in
    combinations <- calculate_classical_combinations k length ;;
    _ <- format_num format_2e combinations ;;
    entropy <- calculate_entropy k length ;;
    _ <- format_num format_2f entropy ;;
    l <- math_log2 libm_log2 (PyInt k) ;;
    classical_time <- calculate_classical_crack_time combinations ;;
    let '(strength, emoji) := classify_strength entropy in
    (* Module 2 *)
    '(quantum_attempts, speedup) <- apply_grovers_speedup combinations ;;
    _ <- format_num format_2e speedup ;;
    quantum_time <- calculate_quantum_crack_time (PyFloat quantum_attempts) ;;
    let vulnerability :=
      assess_quantum_vulnerability classical_time quantum_time in
    (* Module 3 *)
    '(quantum_hash, quantum_key, circuit) <-
      quantum_encrypt_password length ;;
    _ <- print_summary length k combinations entropy ;;
    Ok {| length := length;
          charset_size := k;
          classical_combinations := combinations;
          entropy := entropy;
          classical_time := classical_time;
          quantum_attempts := quantum_attempts;
          quantum_time := quantum_time;
          classical_strength := strength;
          quantum_vulnerability := vulnerability;
          quantum_hash := quantum_hash;
          quantum_key := quantum_key |}.

End Analyzer.

End QuantumPasswordAnalyzer.

(** * Variant B: [q-passwordv3.py] *)

Module QuantumAuthTool.

(** The dictionary returned by [detect_charsets]. *)
Record charsets : Type := {
  has_lowercase : bool;
  has_uppercase : bool;
  has_digits : bool;
  has_symbols : bool;
  has_whitespace : bool
}.

Record classical_report : Type := {
  combinations : Z;
  entropy_bits : number;
  crack_time_seconds : number
}.

Record quantum_report : Type := {
  quantum_crack_time_seconds : number;
  speedup_factor : number
}.

(** The dictionary returned by [simulate_qkd_and_encrypt]. *)
Record encryption : Type := {
  ciphertext : str;
  qkd_key_fingerprint : str
}.

(** The entries of ["password_suggestions"]. *)
Inductive suggestion : Type :=
| passphrase (value : str)
| random (value : str)
| quantum_encrypted (q : encryption).

Record report : Type := {
  input_password : str;
  length : Z;
  charsets_found : charsets;
  alphabet_size : Z;
  classical : classical_report;
  quantum : quantum_report;
  security_classification : str;
  suggestions : list str;
  password_suggestions : list suggestion
}.

(** [__init__] *)
Definition GUESSES_PER_SEC : Z := 10 ^ 8.

Definition detect_charsets (password : str) : charsets * Z :=
  let sets :=
    {| has_lowercase := any (fun c => char_in c ascii_lowercase) password;
       has_uppercase := any (fun c => char_in c ascii_uppercase) password;
       has_digits := any (fun c => char_in c digits) password;
       has_symbols := any (fun c => char_in c punctuation) password;
       has_whitespace := any (fun c => char_in c whitespace) password |} in
  let alphabet_size :=
    (if has_lowercase sets then 26 else 0) +
    (if has_uppercase sets then 26 else 0) +
    (if has_digits sets then 10 else 0) +
    (if has_symbols sets then 32 else 0) +
    (if has_whitespace sets then 1 else 0) in
  (sets, Z.max alphabet_size 1).

Definition classify_security (entropy : number) : str :=
  if lt entropy (PyInt 40) then lit "Very Weak"
  else if lt entropy (PyInt 60) then lit "Weak"
  else if lt entropy (PyInt 80) then lit "Moderate"
  else if lt entropy (PyInt 128) then lit "Strong"
  else lit "Very Strong".

Definition simulate_quantum_threat (N : number) : result (number * number) :=
  quantum_attempts <- math_sqrt N ;;
  q_time <- truediv (PyFloat quantum_attempts) (PyInt GUESSES_PER_SEC) ;;
  speedup <-
    (if gt N (PyInt 0)
     then s <- math_sqrt N ;; Ok (PyFloat s)
     else Ok (PyInt 1)) ;;
  Ok (q_time, speedup).

(** The part of [simulate_qkd_and_encrypt] that follows the measurement. *)
Definition encrypt_with_key (key_int : Z) (suggestion : str)
  : result encryption :=
  plain <- encode suggestion ;;
  encrypted_bytes <-
    bytes (map (fun b => N.lxor b (Z.to_N (key_int mod 256))) plain) ;;
  Ok {| ciphertext := b64encode encrypted_bytes;
        qkd_key_fingerprint := hex key_int |}.

Section Tool.

  (** The C library's [log2]. *)
Variable libm_log2 : float -> float.
  (** [c.isdigit()] beyond ASCII. *)
Variable unicode_isdigit : N -> bool.
  (** The key measured by the simulator on the eight-qubit circuit. *)
Variable key_bits : str.
  (** The index drawn by the [i]-th call of [secrets.choice]. *)
Variable drawn : nat -> nat.

Definition simulate_qkd_and_encrypt (suggestion : str) : result encryption :=
    key_int <- int_2 key_bits ;;
    encrypt_with_key key_int suggestion.

Definition isdigit (c : N) : bool :=
    if (c <? 128)%N then (48 <=? c)%N && (c <=? 57)%N else unicode_isdigit c.

Definition get_improvements (password : str) (entropy : number) : list str :=
    let recs := [] in
    let recs :=
      if Z.of_nat (List.length password) <? 12
      then recs ++ [lit "Increase length to at least 12 characters."]
      else recs in
    let recs :=
      if negb (any isdigit password)
      then recs ++ [lit "Include numbers (0-9)."]
      else recs in
    let recs :=
      if negb (any (fun c => char_in c punctuation) password)
      then recs ++ [lit "Add special symbols (e.g., @, #, $)."]
      else recs in
    let recs :=
      if lt entropy (PyInt 60)
      then recs ++ [lit "Current entropy is low; use a passphrase of 4+ random words."]
      else recs in
    recs.

Definition generate_random_password (length : nat) : str :=
    let alphabet := ascii_letters ++ digits ++ punctuation in
    map (fun i => nth (drawn i) alphabet 0%N) (seq 0 length).

Definition round_number (a : number) : number :=
    match a with
    | PyInt z => PyInt z
    | PyFloat x => PyFloat (round2 x)
    end.

Definition analyze (password : str) : result report :=
    (* 1. Classical analysis *)
    let '(charsets, A) := detect_charsets password in
    let L := Z.of_nat (List.length password) in
    let N := A ^ L in
    l <- math_log2 libm_log2 (PyInt A) ;;
    entropy <- mul (PyInt L) (PyFloat l) ;;
    c_time <- truediv (PyInt N) (PyInt GUESSES_PER_SEC) ;;
    (* 2. Quantum analysis *)
    '(q_time, speedup) <- simulate_quantum_threat (PyInt N) ;;
    (* 3. Security scoring *)
    let rating := classify_security entropy in
    (* 4. Suggestions *)
    let recs := get_improvements password entropy in
    let new_random := generate_random_password 16 in
    q_encryption <- simulate_qkd_and_encrypt new_random ;;
    Ok {| input_password := password;
          length := L;
          charsets_found := charsets;
          alphabet_size := A;
          classical :=
            {| combinations := N;
               entropy_bits := round_number entropy;
               crack_time_seconds := c_time |};
          quantum :=
            {| quantum_crack_time_seconds := q_time;
               speedup_factor := speedup |};
          security_classification := rating;
          suggestions := recs;
          password_suggestions :=
            [passphrase (lit "Correct-Horse-Battery-Staple");
             random new_random;
             quantum_encrypted q_encryption] |}.

End Tool.

Section Summary.

  (** [format(x, '.2e')] on floats. *)
Variable format_2e : float -> str.

(** The [try] block of [format_time]. *)
Definition clock (seconds : number) : result str :=
    n <- to_int seconds ;;
    td <- timedelta n ;;
    Ok (timedelta_str td).

Definition format_time (seconds : number) : result str :=
    if lt seconds (PyInt 1) then Ok (lit "Instantaneous")
    else if gt seconds (PyInt (10 ^ 15))
    then Ok (lit "Indefinite (Ages of the Universe)")
    else
      match clock seconds with
      | Ok s => Ok s
      | Raise _ =>
          s <- format_num format_2e seconds ;;
          Ok (s ++ lit " seconds")
      end.

End Summary.

End QuantumAuthTool.

(** * Reference instances of the external functions

    Used where a statement is evaluated on a concrete input. *)

(** [log2] correctly rounded on a few alphabet sizes, zero elsewhere. *)
Definition sample_log2 (x : float) : float :=
  match x with
  | S754_finite false 4503599627370496 (-51) => float_one        (* 2 *)
  | S754_finite false 4503599627370496 (-50) => float_two        (* 4 *)
  | S754_finite false 5629499534213120 (-49) =>                  (* 10 *)
      S754_finite false 7480317065143153 (-51)
  | S754_finite false 7318349394477056 (-48) =>                  (* 26 *)
      S754_finite false 5292224640774425 (-50)
  | S754_finite false 8725724278030336 (-47) =>                  (* 62 *)
      S754_finite false 6703829071187278 (-50)
  | S754_finite false 4925812092436480 (-46) =>                  (* 70 *)
      S754_finite false 6900959177790415 (-50)
  | _ => S754_zero false
  end.

Definition sample_pow (x y : float) : result float := Ok float_one.
Definition sample_format (x : float) : str := lit "1.00e+00".
Definition sample_circuit (n : Z) : result str :=
  if n <? 0 then Raise CircuitError else Ok (repeat 49%N (Z.to_nat n)).
Definition sample_hash (s : str) : Z := 42.
Definition sample_isdigit (c : N) : bool := false.
Definition sample_key_bits : str := lit "10110010".
Definition sample_drawn (i : nat) : nat := (7 * i + 3) mod 94.

(** * Definitions used by the statements *)

(** The order of values. *)
Definition xle (a b : xdyadic) : Prop :=
  xcompare a b = Some Lt \/ xcompare a b = Some Eq.

Definition xlt (a b : xdyadic) : Prop := xcompare a b = Some Lt.


Fixpoint str_eqb (a b : str) : bool :=
  match a, b with
  | [], [] => true
  | x :: a', y :: b' => N.eqb x y && str_eqb a' b'
  | _, _ => false
  end.

(** The position of a label in an ordered list of tiers. *)
Fixpoint rank (tiers : list str) (label : str) : option nat :=
  match tiers with
  | [] => None
  | t :: ts => if str_eqb t label then Some O else option_map S (rank ts label)
  end.

(** The tiers of the two strength classifiers, weakest first. *)
Definition tiers_A : list str :=
  [lit "WEAK"; lit "MEDIUM"; lit "STRONG"; lit "VERY STRONG"].
Definition tiers_B : list str :=
  [lit "Very Weak"; lit "Weak"; lit "Moderate"; lit "Strong";
   lit "Very Strong"].

(** The tier that a list of increasing breakpoints assigns to an entropy:
    the number of breakpoints that the entropy has reached. *)
Fixpoint tier_of (breakpoints : list Z) (entropy : number) : nat :=
  match breakpoints with
  | [] => O
  | b :: bs => if lt entropy (PyInt b) then O else S (tier_of bs entropy)
  end.

(** A formatted duration names one of the five units. *)
Definition has_unit (s : str) : bool :=
  contains s (lit "second") || contains s (lit "minute")
  || contains s (lit "hour") || contains s (lit "day")
  || contains s (lit "year").

(** Decryption as the specification words it: the key integer is read back
    from the hexadecimal fingerprint, the ciphertext is base64-decoded, and
    every byte is combined by exclusive or with the key integer modulo 256. *)
Definition spec_decrypt (e : QuantumAuthTool.encryption) : result (list N) :=
  key_int <- int_16 (QuantumAuthTool.qkd_key_fingerprint e) ;;
  encrypted <- b64decode (QuantumAuthTool.ciphertext e) ;;
  Ok (map (fun b => N.lxor b (Z.to_N (key_int mod 256))) encrypted).

(** The quantum crack time as the specification words it: the square root
    of the number of combinations, divided by a guess rate. *)
Definition quantum_time_at (rate : Z) (combinations : number) : result number :=
  attempts <- math_sqrt combinations ;;
  truediv (PyFloat attempts) (PyInt rate).

(** The characters of a formatted float: digits, point, exponent mark,
    signs, and the letters of [inf] and [nan]. *)
Definition number_chars : str := lit "0123456789.e+-infa".

Definition is_number (s : str) : bool :=
  forallb (fun c => char_in c number_chars) s.

(** The code points that UTF-8 does not encode. *)
Definition is_surrogate (c : N) : bool := ((0xD800 <=? c) && (c <? 0xE000))%N.

(** The vulnerability levels of variant A, most vulnerable first. *)
Definition vulnerability_levels : list str :=
  [lit "CRITICAL"; lit "HIGH"; lit "MODERATE"; lit "LOW"].

(** The seconds that the quantum crack time of variant A is formatted
    from: the square root of the combinations over the quantum speed. *)
Definition quantum_seconds (N : Z) : float :=
  fdiv (fsqrt (round_Z N)) (round_Z (10 ^ 12)).

(** ** Located values

    The rounding function of [SpecFloat] takes a non-negative value in the
    form of a mantissa, an exponent and a location: the value lies in
    [[m, m + 1)] units of [2^e], and the location says whether it is [m],
    below, at or above [m + 1/2]. These four positions within each unit
    are numbered consecutively, which turns a located mantissa into one
    integer, its cell; cells are ordered as the values they hold. *)

Definition loc_code (l : location) : Z :=
  match l with
  | loc_Exact => 0
  | loc_Inexact Lt => 1
  | loc_Inexact Eq => 2
  | loc_Inexact Gt => 3
  end.

Definition cell (m : Z) (l : location) : Z := 4 * m + loc_code l.

Definition record_cell (r : shr_record) : Z :=
  4 * shr_m r + (if shr_r r then 2 else 0) + (if shr_s r then 1 else 0).

(** The cell of half the value. *)
Definition halve (v : Z) : Z :=
  2 * (v / 4) + (if v mod 4 =? 0 then 0 else 1).

Definition halves (n : nat) (v : Z) : Z := Nat.iter n halve v.

(** Rounding a cell to the nearest mantissa, ties to even. *)
Definition nearest_even (v : Z) : Z :=
  let m := v / 4 in
  let c := v mod 4 in
  if c <? 2 then m
  else if c =? 2 then (if Z.even m then m else m + 1)
  else m + 1.

(** The exponent at which a value of mantissa [m] and exponent [e] is
    rounded, and the condition that [m] is given finely enough. *)
Definition cexp (m e : Z) : Z := fexp prec emax (Zdigits2 m + e).

Definition fine (m e : Z) : Prop := e <= cexp m e.

Definition rounded_mantissa (m e : Z) (l : location) : Z :=
  nearest_even (halves (Z.to_nat (cexp m e - e)) (cell m l)).

(** The cell of a located mantissa at a coarser exponent. *)
Definition cell_at (E m e : Z) (l : location) : Z :=
  halves (Z.to_nat (E - e)) (cell m l).

(** The order of located values. *)
Definition below (m e : Z) (l : location) (m' e' : Z) (l' : location) : Prop :=
  cell_at (Z.max e e') m e l <= cell_at (Z.max e e') m' e' l'.

(** The cell of the fraction [a / b]. *)
Definition ratio_cell (a b : Z) : Z :=
  let r := a mod b in
  4 * (a / b) +
  (if r =? 0 then 0
   else match 2 * r ?= b with Lt => 1 | Eq => 2 | Gt => 3 end).

(** The cell of the square root of the fraction [a / b]. *)
Definition root_cell (a b : Z) : Z :=
  let m := Z.sqrt (a / b) in
  4 * m +
  (if a =? m * m * b then 0
   else match 4 * a ?= (2 * m + 1) * (2 * m + 1) * b with
        | Lt => 1 | Eq => 2 | Gt => 3
        end).

Definition round_aux (m e : Z) (l : location) : float :=
  binary_round_aux prec emax false m e l.

(** A zero or a positive float in canonical form. *)
Definition nonneg_finite (x : float) : bool :=
  match x with
  | S754_zero _ => true
  | S754_finite false m e => canonical_mantissa prec emax m e
  | _ => false
  end.

Definition xzero : xdyadic := XFin 0 0.

(** A zero or a positive finite float, in any form. *)
Definition is_nonneg (x : float) : bool :=
  match x with
  | S754_zero _ | S754_finite false _ _ => true
  | _ => false
  end.
(** * Properties *)

(** ** Order on numbers *)

Lemma dyadic_compare_scale m1 e1 m2 e2 e :
  e <= e1 -> e <= e2 ->
  dyadic_compare m1 e1 m2 e2 = (m1 * 2 ^ (e1 - e) ?= m2 * 2 ^ (e2 - e)).
Proof.
  intros H1 H2. unfold dyadic_compare.
  set (e0 := Z.min e1 e2).
  assert (He0 : e <= e0) by (subst e0; lia).
  assert (e0 <= e1 /\ e0 <= e2) as [Ha Hb] by (subst e0; lia).
  replace (e1 - e) with ((e1 - e0) + (e0 - e)) by lia.
  replace (e2 - e) with ((e2 - e0) + (e0 - e)) by lia.
  rewrite !Z.pow_add_r by lia.
  rewrite !Z.mul_assoc.
  apply Zmult_compare_compat_r, Z.lt_gt, Z.pow_pos_nonneg; lia.
Qed.

Lemma xle_lt_trans a b c : xle a b -> xlt b c -> xlt a c.
Proof.
  unfold xle, xlt.
  destruct a as [| | |m1 e1], b as [| | |m2 e2], c as [| | |m3 e3];
    simpl; intros [H|H] H'; try congruence.
  all: set (e := Z.min e1 (Z.min e2 e3)).
  all: rewrite !(dyadic_compare_scale _ _ _ _ e) in * by (subst e; lia).
  all: injection H as H; injection H' as H'; f_equal.
  all: rewrite ?Z.compare_lt_iff, ?Z.compare_eq_iff in *; lia.
Qed.

Lemma xlt_le_trans a b c : xlt a b -> xle b c -> xlt a c.
Proof.
  unfold xle, xlt.
  destruct a as [| | |m1 e1], b as [| | |m2 e2], c as [| | |m3 e3];
    simpl; intros H [H'|H']; try congruence.
  all: set (e := Z.min e1 (Z.min e2 e3)).
  all: rewrite !(dyadic_compare_scale _ _ _ _ e) in * by (subst e; lia).
  all: injection H as H; injection H' as H'; f_equal.
  all: rewrite ?Z.compare_lt_iff, ?Z.compare_eq_iff in *; lia.
Qed.

Lemma xle_trans a b c : xle a b -> xle b c -> xle a c.
Proof.
  unfold xle.
  destruct a as [| | |m1 e1], b as [| | |m2 e2], c as [| | |m3 e3];
    simpl; intros [H|H] [H'|H']; try congruence; auto.
  all: set (e := Z.min e1 (Z.min e2 e3)).
  all: rewrite !(dyadic_compare_scale _ _ _ _ e) in * by (subst e; lia).
  all: injection H as H; injection H' as H'.
  all: rewrite ?Z.compare_lt_iff, ?Z.compare_eq_iff in *.
  all: first [ left; f_equal; rewrite Z.compare_lt_iff; lia
             | right; f_equal; rewrite Z.compare_eq_iff; lia ].
Qed.

Lemma le_xle a b : le a b = true <-> xle (num_val a) (num_val b).
Proof.
  unfold le, xle. destruct (xcompare _ _) as [[]|]; split; intros;
    try tauto; try discriminate; intuition congruence.
Qed.

Lemma lt_xlt a b : lt a b = true <-> xlt (num_val a) (num_val b).
Proof.
  unfold lt, xlt. destruct (xcompare _ _) as [[]|]; split; intros;
    try tauto; try discriminate; congruence.
Qed.

Lemma le_lt_trans a b c : le a b = true -> lt b c = true -> lt a c = true.
Proof.
  rewrite le_xle, !lt_xlt. apply xle_lt_trans.
Qed.


(** ** Inversion of the error monad *)

Lemma bind_ok {A B : Type} (r : result A) (k : A -> result B) (b : B) :
  bind r k = Ok b -> exists a, r = Ok a /\ k a = Ok b.
Proof.
  destruct r as [a|e]; simpl; intros H; [eauto | discriminate].
Qed.

Ltac inv_bind H :=
  repeat
    (let a := fresh "v" in
     let Ha := fresh "E" in
     apply bind_ok in H as (a & Ha & H);
     try match type of H with
         | (let '(_, _) := ?x in _) = _ => destruct x
         end;
     try match type of H with
         | (let '(_, _) := ?x in _) = _ => destruct x
         end).


Lemma truediv_float_int x z y :
  int_to_float z = Ok y -> is_zero y = false ->
  truediv (PyFloat x) (PyInt z) = Ok (PyFloat (fdiv x y)).
Proof.
  intros Hy Hz. unfold truediv, to_float, bind. now rewrite Hy, Hz.
Qed.


(** ** Rounding in [SpecFloat] *)

Lemma fexp_eq x : fexp prec emax x = Z.max (x - 53) (-1074).
Proof. reflexivity. Qed.

Lemma digits2_size p : digits2_pos p = Pos.size p.
Proof. induction p; simpl; congruence. Qed.

Lemma Zdigits2_log2 m : 0 < m -> Zdigits2 m = Z.log2 m + 1.
Proof.
  destruct m as [|p|p]; try lia. intros _.
  simpl. rewrite digits2_size.
  destruct p; simpl; rewrite ?Pos2Z.inj_succ; lia.
Qed.

Lemma Zdigits2_0 : Zdigits2 0 = 0.
Proof. reflexivity. Qed.

Lemma Zdigits2_bounds m :
  0 < m -> 2 ^ (Zdigits2 m - 1) <= m < 2 ^ Zdigits2 m.
Proof.
  intros Hm. rewrite (Zdigits2_log2 m Hm).
  replace (Z.log2 m + 1 - 1) with (Z.log2 m) by lia.
  apply Z.log2_spec, Hm.
Qed.

Lemma Zdigits2_nonneg m : 0 <= m -> 0 <= Zdigits2 m.
Proof.
  destruct m; simpl; lia.
Qed.

Lemma Zdigits2_pos m : 0 < m -> 0 < Zdigits2 m.
Proof.
  destruct m; simpl; lia.
Qed.

Lemma Zdigits2_mono m m' : 0 <= m <= m' -> Zdigits2 m <= Zdigits2 m'.
Proof.
  intros [H0 Hle].
  destruct (Z.eq_dec m 0) as [->|Hnz].
  - apply Zdigits2_nonneg. lia.
  - rewrite !Zdigits2_log2 by lia.
    apply Z.add_le_mono_r, Z.log2_le_mono, Hle.
Qed.

(** A mantissa below [2^k] has at most [k] digits, and conversely. *)
Lemma Zdigits2_le m k : 0 <= m -> 0 <= k -> m < 2 ^ k -> Zdigits2 m <= k.
Proof.
  intros H0 Hk Hlt.
  destruct (Z.eq_dec m 0) as [->|Hnz]; [simpl; lia|].
  rewrite Zdigits2_log2 by lia.
  assert (Z.log2 m < k) by (apply Z.log2_lt_pow2; lia). lia.
Qed.

Lemma Zdigits2_ge m k : 0 <= k -> 2 ^ k <= m -> k + 1 <= Zdigits2 m.
Proof.
  intros Hk Hle.
  assert (0 < m) by (pose proof (Z.pow_pos_nonneg 2 k); lia).
  rewrite Zdigits2_log2 by lia.
  assert (k <= Z.log2 m) by (apply Z.log2_le_pow2; lia). lia.
Qed.

Ltac lia_euclid := Z.to_euclidean_division_equations; lia.

Lemma halve_mono v v' : v <= v' -> halve v <= halve v'.
Proof.
  unfold halve. intros H.
  destruct (Z.eqb_spec (v mod 4) 0), (Z.eqb_spec (v' mod 4) 0); lia_euclid.
Qed.

Lemma halve_nonneg v : 0 <= v -> 0 <= halve v.
Proof.
  unfold halve. intros H. destruct (Z.eqb_spec (v mod 4) 0); lia_euclid.
Qed.

Lemma halve_div4 v : halve v / 4 = v / 4 / 2.
Proof.
  unfold halve. destruct (Z.eqb_spec (v mod 4) 0); lia_euclid.
Qed.

Lemma halves_S n v : halves (S n) v = halve (halves n v).
Proof. reflexivity. Qed.

Lemma halves_mono n v v' : v <= v' -> halves n v <= halves n v'.
Proof.
  intros H. induction n as [|n IH]; [exact H|].
  rewrite !halves_S. apply halve_mono, IH.
Qed.

Lemma halves_nonneg n v : 0 <= v -> 0 <= halves n v.
Proof.
  intros H. induction n as [|n IH]; [exact H|].
  rewrite halves_S. apply halve_nonneg, IH.
Qed.

Lemma halves_add n k v : halves (n + k) v = halves n (halves k v).
Proof.
  unfold halves. apply Nat.iter_add.
Qed.

Lemma halves_div4 n v : halves n v / 4 = v / 4 / 2 ^ Z.of_nat n.
Proof.
  induction n as [|n IH].
  - simpl. now rewrite Z.div_1_r.
  - rewrite halves_S.
    rewrite halve_div4, IH, Nat2Z.inj_succ, Z.pow_succ_r by lia.
    rewrite Z.div_div by (try apply Z.pow_pos_nonneg; lia).
    f_equal. lia.
Qed.

Lemma nearest_even_mono v v' : v <= v' -> nearest_even v <= nearest_even v'.
Proof.
  unfold nearest_even. intros H.
  assert (Hq : v / 4 < v' / 4 \/ (v / 4 = v' / 4 /\ v mod 4 <= v' mod 4))
    by lia_euclid.
  destruct Hq as [Hq|[Hq Hr]].
  - destruct (v mod 4 <? 2), (v mod 4 =? 2), (Z.even (v / 4)),
      (v' mod 4 <? 2), (v' mod 4 =? 2), (Z.even (v' / 4)); lia.
  - rewrite Hq.
    destruct (Z.ltb_spec (v mod 4) 2), (Z.eqb_spec (v mod 4) 2),
      (Z.ltb_spec (v' mod 4) 2), (Z.eqb_spec (v' mod 4) 2),
      (Z.even (v' / 4)); lia.
Qed.

Lemma nearest_even_bounds v : v / 4 <= nearest_even v <= v / 4 + 1.
Proof.
  unfold nearest_even.
  destruct (v mod 4 <? 2), (v mod 4 =? 2), (Z.even (v / 4)); lia.
Qed.

Lemma nearest_even_exact m : nearest_even (4 * m) = m.
Proof.
  unfold nearest_even.
  replace (4 * m / 4) with m by lia_euclid.
  replace ((4 * m) mod 4) with 0 by lia_euclid. reflexivity.
Qed.

(** *** The shifts of [SpecFloat] on cells *)

Lemma record_cell_of_loc m l : record_cell (shr_record_of_loc m l) = cell m l.
Proof.
  destruct l as [|[]]; unfold record_cell, cell; simpl; lia.
Qed.

Lemma shr_1_cell r :
  0 <= shr_m r ->
  record_cell (shr_1 r) = halve (record_cell r) /\ 0 <= shr_m (shr_1 r).
Proof.
  destruct r as [m rb sb]. cbn [shr_m]. intros Hm.
  unfold record_cell, halve.
  destruct m as [|[p|p|]|p]; try lia;
    destruct rb, sb; cbn [shr_1 shr_m shr_r shr_s orb];
    rewrite ?(Pos2Z.inj_xI p), ?(Pos2Z.inj_xO p);
    (split; [|lia]);
    match goal with
    | |- context [?x mod 4 =? 0] => destruct (Z.eqb_spec (x mod 4) 0)
    end; lia_euclid.
Qed.

Lemma iter_pos_nat {A : Type} (f : A -> A) p x :
  iter_pos f p x = Nat.iter (Pos.to_nat p) f x.
Proof.
  revert x. induction p as [p IH|p IH|]; intros x; cbn [iter_pos].
  - rewrite !IH, Pos2Nat.inj_xI.
    replace (S (2 * Pos.to_nat p)) with (Pos.to_nat p + (Pos.to_nat p + 1))%nat
      by lia.
    rewrite !Nat.iter_add. reflexivity.
  - rewrite !IH, Pos2Nat.inj_xO.
    replace (2 * Pos.to_nat p)%nat with (Pos.to_nat p + Pos.to_nat p)%nat
      by lia.
    rewrite Nat.iter_add. reflexivity.
  - reflexivity.
Qed.

Lemma iter_shr_1_cell n r :
  0 <= shr_m r ->
  record_cell (Nat.iter n shr_1 r) = halves n (record_cell r) /\
  0 <= shr_m (Nat.iter n shr_1 r).
Proof.
  intros Hm. induction n as [|n [IH1 IH2]]; [simpl; auto|].
  rewrite halves_S, Nat.iter_succ.
  destruct (shr_1_cell _ IH2) as [H1 H2]. rewrite H1, IH1. auto.
Qed.

Lemma shr_fexp_cell m e l :
  0 <= m -> fine m e ->
  exists r,
    shr_fexp prec emax m e l = (r, cexp m e) /\
    record_cell r = cell_at (cexp m e) m e l /\
    0 <= shr_m r.
Proof.
  intros Hm Hfine. unfold shr_fexp, shr, cell_at. fold (cexp m e).
  unfold fine in Hfine.
  destruct (cexp m e - e) as [|p|p] eqn:Hn; try lia.
  - exists (shr_record_of_loc m l).
    replace (cexp m e) with e by lia.
    split; [reflexivity|]. split.
    + simpl. apply record_cell_of_loc.
    + destruct l as [|[]]; simpl; lia.
  - exists (iter_pos shr_1 p (shr_record_of_loc m l)).
    split; [f_equal; lia|].
    rewrite iter_pos_nat.
    assert (H0 : 0 <= shr_m (shr_record_of_loc m l))
      by (destruct l as [|[]]; simpl; lia).
    destruct (iter_shr_1_cell (Pos.to_nat p) _ H0) as [H1 H2].
    rewrite H1, record_cell_of_loc. auto.
Qed.

(** *** The two steps of [binary_round_aux] *)

Lemma cexp_eq m e : cexp m e = Z.max (Zdigits2 m + e - 53) (-1074).
Proof. reflexivity. Qed.

Lemma loc_code_range l : 0 <= loc_code l <= 3.
Proof. destruct l as [|[]]; simpl; lia. Qed.

Lemma cell_div4 m l : cell m l / 4 = m.
Proof.
  unfold cell. pose proof (loc_code_range l). lia_euclid.
Qed.

Lemma record_cell_div4 r : record_cell r / 4 = shr_m r.
Proof.
  unfold record_cell. destruct (shr_r r), (shr_s r); lia_euclid.
Qed.

Lemma round_nearest_even_cell r :
  round_nearest_even (shr_m r) (loc_of_shr_record r)
  = nearest_even (record_cell r).
Proof.
  destruct r as [m rb sb]. unfold nearest_even, record_cell.
  cbn [shr_m shr_r shr_s].
  assert (Hq : forall c, 0 <= c <= 3 ->
             (4 * m + c) / 4 = m /\ (4 * m + c) mod 4 = c) by (intros; lia_euclid).
  destruct rb, sb; cbn [loc_of_shr_record round_nearest_even].
  - destruct (Hq 3 ltac:(lia)) as [H1 H2].
    replace (4 * m + 2 + 1) with (4 * m + 3) by lia. rewrite H1, H2. reflexivity.
  - destruct (Hq 2 ltac:(lia)) as [H1 H2].
    replace (4 * m + 2 + 0) with (4 * m + 2) by lia. rewrite H1, H2. reflexivity.
  - destruct (Hq 1 ltac:(lia)) as [H1 H2].
    replace (4 * m + 0 + 1) with (4 * m + 1) by lia. rewrite H1, H2. reflexivity.
  - destruct (Hq 0 ltac:(lia)) as [H1 H2].
    replace (4 * m + 0 + 0) with (4 * m + 0) by lia. rewrite H1, H2. reflexivity.
Qed.

Lemma cell_at_div4 E m e l :
  cell_at E m e l / 4 = m / 2 ^ Z.of_nat (Z.to_nat (E - e)).
Proof.
  unfold cell_at. now rewrite halves_div4, cell_div4.
Qed.

(** The mantissa at the rounding exponent has at most 53 digits ... *)
Lemma shifted_upper m e :
  0 <= m -> fine m e -> m / 2 ^ (cexp m e - e) < 2 ^ 53.
Proof.
  intros Hm Hf. unfold fine in Hf.
  set (n := cexp m e - e) in *.
  assert (Hn : 0 <= n) by lia.
  assert (Hpow : 0 < 2 ^ n) by (apply Z.pow_pos_nonneg; lia).
  apply Z.div_lt_upper_bound; [exact Hpow|].
  rewrite <- Z.pow_add_r by lia.
  destruct (Z.eq_dec m 0) as [->|Hnz]; [apply Z.pow_pos_nonneg; lia|].
  apply Z.lt_le_trans with (2 ^ Zdigits2 m); [apply Zdigits2_bounds; lia|].
  apply Z.pow_le_mono_r; [lia|]. subst n. rewrite cexp_eq. lia.
Qed.

(** ... and exactly 53 above the subnormal range. *)
Lemma shifted_lower m e :
  0 <= m -> fine m e -> -1074 < cexp m e ->
  2 ^ 52 <= m / 2 ^ (cexp m e - e).
Proof.
  intros Hm Hf Hnormal. unfold fine in Hf.
  assert (HE : cexp m e = Zdigits2 m + e - 53) by (rewrite cexp_eq in *; lia).
  assert (Hpos : 0 < m).
  { destruct (Z.eq_dec m 0) as [->|]; [|lia].
    rewrite HE in Hf. simpl in Hf. lia. }
  set (n := cexp m e - e) in *.
  assert (Hn : 0 <= n) by lia.
  apply Z.div_le_lower_bound; [apply Z.pow_pos_nonneg; lia|].
  rewrite <- Z.pow_add_r by lia.
  replace (n + 52) with (Zdigits2 m - 1) by lia.
  apply Zdigits2_bounds, Hpos.
Qed.

Lemma rounded_mantissa_bounds m e l :
  0 <= m -> fine m e ->
  let m2 := rounded_mantissa m e l in
  0 <= m2 <= 2 ^ 53 /\ (-1074 < cexp m e -> 2 ^ 52 <= m2).
Proof.
  intros Hm Hf m2.
  pose proof (nearest_even_bounds (cell_at (cexp m e) m e l)) as Hb.
  change (nearest_even (cell_at (cexp m e) m e l)) with m2 in Hb.
  rewrite cell_at_div4, Z2Nat.id in Hb by (unfold fine in Hf; lia).
  pose proof (shifted_upper m e Hm Hf) as Hu.
  assert (H0 : 0 <= m / 2 ^ (cexp m e - e)).
  { apply Z.div_pos; [lia|]. apply Z.pow_pos_nonneg; unfold fine in Hf; lia. }
  split; [lia|].
  intros Hn. pose proof (shifted_lower m e Hm Hf Hn). lia.
Qed.

Lemma rounded_mantissa_fine m e l :
  0 <= m -> fine m e ->
  let m2 := rounded_mantissa m e l in
  let E := cexp m e in
  fine m2 E /\ cexp m2 E <= E + 1 /\ (cexp m2 E = E + 1 -> m2 = 2 ^ 53).
Proof.
  intros Hm Hf m2 E.
  destruct (rounded_mantissa_bounds m e l Hm Hf) as [[H0 Hu] Hl].
  fold m2 in H0, Hu, Hl. fold E in Hl.
  assert (HEmin : -1074 <= E) by (subst E; rewrite cexp_eq; lia).
  assert (Hd : Zdigits2 m2 <= 54).
  { apply Zdigits2_le; [lia|lia|]. change (2 ^ 54) with (2 * 2 ^ 53). lia. }
  unfold fine. rewrite (cexp_eq m2 E).
  split; [|split].
  - destruct (Z.eq_dec E (-1074)) as [->|Hne]; [lia|].
    assert (Hge : 52 + 1 <= Zdigits2 m2)
      by (apply Zdigits2_ge; [lia | apply Hl; lia]).
    lia.
  - lia.
  - intros Heq.
    assert (Hd54 : Zdigits2 m2 = 54) by lia.
    assert (0 < m2) by (destruct m2; simpl in Hd54; lia).
    pose proof (Zdigits2_bounds m2 ltac:(lia)) as Hb.
    rewrite Hd54 in Hb. change (54 - 1) with 53 in Hb. lia.
Qed.

(** [binary_round_aux] on a non-negative, finely given value: the result is
    zero, or a canonical float whose value is the rounded mantissa at the
    rounding exponent, or an infinity when that exceeds the range. *)
Lemma round_aux_cases m e l :
  0 <= m -> fine m e ->
  let E := cexp m e in
  let m2 := rounded_mantissa m e l in
  (m2 = 0 /\ round_aux m e l = S754_zero false) \/
  (exists (m3 : positive) (E3 : Z),
      Zpos m3 * 2 ^ (E3 - E) = m2 /\ E <= E3 /\ E3 = cexp m2 E /\
      cexp (Zpos m3) E3 = E3 /\
      ((E3 <= 971 /\ round_aux m e l = S754_finite false m3 E3) \/
       (971 < E3 /\ round_aux m e l = S754_infinity false))).
Proof.
  intros Hm Hf E m2.
  destruct (shr_fexp_cell m e l Hm Hf) as (r & Hr & Hcell & Hr0).
  destruct (rounded_mantissa_bounds m e l Hm Hf) as [[H0 Hu] Hl].
  destruct (rounded_mantissa_fine m e l Hm Hf) as (Hf2 & Hn2 & Hcarry).
  fold m2 in H0, Hu, Hl, Hf2, Hn2, Hcarry. fold E in Hr, Hl, Hf2, Hn2, Hcarry.
  assert (Hrne : round_nearest_even (shr_m r) (loc_of_shr_record r) = m2).
  { rewrite round_nearest_even_cell, Hcell. reflexivity. }
  destruct (shr_fexp_cell m2 E loc_Exact H0 Hf2) as (r2 & Hr2 & Hcell2 & Hr20).
  assert (Hround : round_aux m e l =
            match shr_m r2 with
            | 0 => S754_zero false
            | Z.pos m3 =>
                if cexp m2 E <=? emax - prec
                then S754_finite false m3 (cexp m2 E)
                else S754_infinity false
            | Z.neg _ => S754_nan
            end).
  { unfold round_aux, binary_round_aux. rewrite Hr, Hrne, Hr2. reflexivity. }
  assert (Hm3 : shr_m r2 = m2 / 2 ^ (cexp m2 E - E)).
  { rewrite <- record_cell_div4, Hcell2, cell_at_div4, Z2Nat.id;
      [reflexivity | unfold fine in Hf2; lia]. }
  assert (Hval : shr_m r2 * 2 ^ (cexp m2 E - E) = m2).
  { rewrite Hm3. unfold fine in Hf2.
    assert (Hc : cexp m2 E = E \/ cexp m2 E = E + 1) by lia.
    destruct Hc as [Hc|Hc]; rewrite Hc.
    - replace (E - E) with 0 by lia. rewrite Z.pow_0_r, Z.div_1_r. lia.
    - rewrite (Hcarry Hc). replace (E + 1 - E) with 1 by lia. reflexivity. }
  destruct (shr_m r2) as [|m3|m3] eqn:Hs; [left|right|lia].
  - split; [lia | exact Hround].
  - exists m3, (cexp m2 E).
    split; [exact Hval|]. split; [exact Hf2|]. split; [reflexivity|].
    split.
    + unfold cexp at 1. fold (cexp m2 E).
      assert (Hdig : Zdigits2 (Z.pos m3) + cexp m2 E = Zdigits2 m2 + E).
      { unfold fine in Hf2.
        assert (Hc : cexp m2 E = E \/ cexp m2 E = E + 1) by lia.
        destruct Hc as [Hc|Hc].
        - rewrite Hc in Hval |- *. replace (E - E) with 0 in Hval by lia.
          rewrite Z.pow_0_r in Hval. rewrite <- Hval. f_equal. f_equal. lia.
        - pose proof (Hcarry Hc) as Hm2eq. rewrite Hc in Hval |- *.
          replace (E + 1 - E) with 1 in Hval by lia.
          assert (Hm3eq : Z.pos m3 = 2 ^ 52)
            by (rewrite Hm2eq in Hval;
                change (2 ^ 53) with (2 * 2 ^ 52) in Hval; lia).
          rewrite Hm3eq, Hm2eq.
          change (Zdigits2 (2 ^ 52)) with 53.
          change (Zdigits2 (2 ^ 53)) with 54. lia. }
      rewrite Hdig. reflexivity.
    + rewrite Hround. change (emax - prec) with 971.
      destruct (Z.leb_spec (cexp m2 E) 971); [left|right]; auto.
Qed.

(** *** Order of dyadic values *)

Lemma xle_fin a e b e' e0 :
  e0 <= e -> e0 <= e' ->
  xle (XFin a e) (XFin b e') <-> a * 2 ^ (e - e0) <= b * 2 ^ (e' - e0).
Proof.
  intros H1 H2. unfold xle. cbn [xcompare].
  rewrite (dyadic_compare_scale _ _ _ _ e0) by assumption.
  destruct (Z.compare_spec (a * 2 ^ (e - e0)) (b * 2 ^ (e' - e0)));
    split; intros H'; try lia; auto; destruct H'; discriminate.
Qed.

Lemma xlt_fin a e b e' e0 :
  e0 <= e -> e0 <= e' ->
  xlt (XFin a e) (XFin b e') <-> a * 2 ^ (e - e0) < b * 2 ^ (e' - e0).
Proof.
  intros H1 H2. unfold xlt. cbn [xcompare].
  rewrite (dyadic_compare_scale _ _ _ _ e0) by assumption.
  destruct (Z.compare_spec (a * 2 ^ (e - e0)) (b * 2 ^ (e' - e0)));
    split; intros H'; try lia; auto; discriminate.
Qed.

Lemma xle_refl_fin a e : xle (XFin a e) (XFin a e).
Proof.
  apply (xle_fin a e a e e); lia.
Qed.

(** The same value at a lower exponent. *)
Lemma xle_shift a e k :
  0 <= k ->
  xle (XFin a (e + k)) (XFin (a * 2 ^ k) e) /\
  xle (XFin (a * 2 ^ k) e) (XFin a (e + k)).
Proof.
  intros Hk.
  split; apply (xle_fin _ _ _ _ e); try lia;
    replace (e + k - e) with k by lia;
    replace (e - e) with 0 by lia; rewrite Z.pow_0_r; lia.
Qed.

(** A larger positive value has at least the magnitude of a smaller one. *)
Lemma magnitude_mono a e b e' :
  0 < a -> xle (XFin a e) (XFin b e') ->
  Zdigits2 a + e <= Zdigits2 b + e'.
Proof.
  intros Ha Hle.
  set (e0 := Z.min e e').
  apply (xle_fin a e b e' e0) in Hle; try (subst e0; lia).
  assert (Hp : 0 < 2 ^ (e - e0)) by (apply Z.pow_pos_nonneg; subst e0; lia).
  assert (Hp' : 0 < 2 ^ (e' - e0)) by (apply Z.pow_pos_nonneg; subst e0; lia).
  assert (Hb : 0 < b) by nia.
  assert (Hd : Zdigits2 (a * 2 ^ (e - e0)) <= Zdigits2 (b * 2 ^ (e' - e0)))
    by (apply Zdigits2_mono; nia).
  rewrite !Zdigits2_log2, !Z.log2_mul_pow2 in Hd by (subst e0; nia).
  rewrite !Zdigits2_log2 by lia. lia.
Qed.

(** *** Monotonicity of rounding *)

Lemma cell_at_coarser F E0 m e l :
  e <= E0 -> E0 <= F ->
  cell_at F m e l = halves (Z.to_nat (F - E0)) (cell_at E0 m e l).
Proof.
  intros H1 H2. unfold cell_at. rewrite <- halves_add. f_equal. lia.
Qed.

Lemma below_at F m e l m' e' l' :
  below m e l m' e' l' -> Z.max e e' <= F ->
  cell_at F m e l <= cell_at F m' e' l'.
Proof.
  unfold below. intros Hb HF.
  rewrite (cell_at_coarser F (Z.max e e') m e l) by lia.
  rewrite (cell_at_coarser F (Z.max e e') m' e' l') by lia.
  apply halves_mono, Hb.
Qed.

Lemma rounded_value_le m e l m' e' l' :
  0 <= m -> 0 <= m' -> fine m e -> fine m' e' ->
  below m e l m' e' l' ->
  xle (XFin (rounded_mantissa m e l) (cexp m e))
      (XFin (rounded_mantissa m' e' l') (cexp m' e')).
Proof.
  intros Hm Hm' Hf Hf' Hb.
  destruct (rounded_mantissa_bounds m e l Hm Hf) as [[H0 Hu] Hl].
  destruct (rounded_mantissa_bounds m' e' l' Hm' Hf') as [[H0' Hu'] Hl'].
  set (E := cexp m e) in *. set (E' := cexp m' e') in *.
  set (m2 := rounded_mantissa m e l) in *.
  set (m2' := rounded_mantissa m' e' l') in *.
  assert (HEmin : -1074 <= E) by (subst E; rewrite cexp_eq; lia).
  assert (HEmin' : -1074 <= E') by (subst E'; rewrite cexp_eq; lia).
  unfold fine in Hf, Hf'. fold E in Hf. fold E' in Hf'.
  destruct (Z.lt_trichotomy E E') as [Hlt|[Heq|Hgt]].
  - (* the right value is at least one binade higher *)
    apply (xle_fin _ _ _ _ E); try lia.
    replace (E - E) with 0 by lia. rewrite Z.pow_0_r, Z.mul_1_r.
    specialize (Hl' ltac:(lia)).
    assert (Hp : 2 ^ 1 <= 2 ^ (E' - E)) by (apply Z.pow_le_mono_r; lia).
    change (2 ^ 1) with 2 in Hp.
    change (2 ^ 53) with (2 * 2 ^ 52) in Hu. nia.
  - (* both are rounded at the same exponent *)
    apply (xle_fin _ _ _ _ E); try lia.
    rewrite <- Heq. replace (E - E) with 0 by lia.
    rewrite Z.pow_0_r, !Z.mul_1_r.
    subst m2 m2'. unfold rounded_mantissa. fold E E'. rewrite <- Heq.
    apply nearest_even_mono.
    change (halves (Z.to_nat (E - e)) (cell m l)) with (cell_at E m e l).
    change (halves (Z.to_nat (E - e')) (cell m' l')) with (cell_at E m' e' l').
    apply below_at; [exact Hb | lia].
  - (* impossible: the left value would be larger *)
    exfalso.
    assert (Hcells : cell_at E m e l <= cell_at E m' e' l')
      by (apply below_at; [exact Hb | lia]).
    assert (Hq : cell_at E m e l / 4 <= cell_at E m' e' l' / 4)
      by (apply Z.div_le_mono; lia).
    rewrite (cell_at_coarser E E' m' e' l') in Hq by lia.
    rewrite halves_div4, !cell_at_div4, !Z2Nat.id in Hq by lia.
    pose proof (shifted_lower m e Hm ltac:(unfold fine; fold E; lia)
                  ltac:(fold E; lia)) as Hlow.
    pose proof (shifted_upper m' e' Hm' ltac:(unfold fine; fold E'; lia)) as Hup.
    fold E in Hlow. fold E' in Hup.
    assert (Hhalf : m' / 2 ^ (E' - e') / 2 ^ (E - E') < 2 ^ 52).
    { apply Z.div_lt_upper_bound; [apply Z.pow_pos_nonneg; lia|].
      assert (Hp : 2 ^ 1 <= 2 ^ (E - E')) by (apply Z.pow_le_mono_r; lia).
      change (2 ^ 1) with 2 in Hp.
      change (2 ^ 53) with (2 * 2 ^ 52) in Hup. nia. }
    lia.
Qed.

(** The value of a result of [round_aux], in terms of the rounded
    mantissa. *)
Lemma round_aux_value m e l :
  0 <= m -> fine m e ->
  let v := float_val (round_aux m e l) in
  let w := XFin (rounded_mantissa m e l) (cexp m e) in
  (v = XPosInf /\ 971 < cexp (rounded_mantissa m e l) (cexp m e)
   /\ 0 < rounded_mantissa m e l) \/
  (xle v w /\ xle w v /\
   cexp (rounded_mantissa m e l) (cexp m e) <= 971 /\
   is_finite (round_aux m e l) = true).
Proof.
  intros Hm Hf v w.
  destruct (round_aux_cases m e l Hm Hf)
    as [[Hz Hr]|(m3 & E3 & Hval & HE & HE3 & Hcan & [[Hfit Hr]|[Hover Hr]])].
  - right. subst v w. rewrite Hr, Hz. cbn [float_val].
    assert (HEmin : -1074 <= cexp m e) by (rewrite cexp_eq; lia).
    split; [|split; [|split; [|reflexivity]]].
    + apply (xle_fin _ _ _ _ (-1074)); lia.
    + apply (xle_fin _ _ _ _ (-1074)); lia.
    + destruct (rounded_mantissa_bounds m e l Hm Hf) as [_ Hl].
      rewrite Hz in Hl.
      assert (H52 : 0 < 2 ^ 52) by reflexivity.
      assert (HE : cexp m e = -1074).
      { destruct (Z.eq_dec (cexp m e) (-1074)) as [Heq|Hne]; [exact Heq|].
        specialize (Hl ltac:(lia)). lia. }
      rewrite HE. rewrite cexp_eq. simpl Zdigits2. lia.
  - right. subst v w. rewrite Hr. cbn [float_val cond_Zopp].
    rewrite <- Hval.
    destruct (xle_shift (Z.pos m3) (cexp m e) (E3 - cexp m e) ltac:(lia))
      as [H1 H2].
    replace (cexp m e + (E3 - cexp m e)) with E3 in H1, H2 by lia.
    split; [exact H1|]. split; [exact H2|].
    split; [rewrite Hval, <- HE3; exact Hfit | reflexivity].
  - left. subst v. rewrite Hr. split; [reflexivity|].
    split; [rewrite <- HE3; exact Hover|].
    rewrite <- Hval. apply Z.mul_pos_pos; [lia|].
    apply Z.pow_pos_nonneg; lia.
Qed.

(** Rounding is monotone: of two non-negative, finely given values, the
    larger one is rounded to the larger float. *)
Theorem round_aux_mono m e l m' e' l' :
  0 <= m -> 0 <= m' -> fine m e -> fine m' e' ->
  below m e l m' e' l' ->
  xle (float_val (round_aux m e l)) (float_val (round_aux m' e' l')).
Proof.
  intros Hm Hm' Hf Hf' Hb.
  pose proof (rounded_value_le m e l m' e' l' Hm Hm' Hf Hf' Hb) as Hle.
  destruct (round_aux_value m e l Hm Hf)
    as [(Hv & Hover & Hpos)|(Hv1 & Hv2 & Hfit & _)];
    destruct (round_aux_value m' e' l' Hm' Hf')
      as [(Hv' & Hover' & Hpos')|(Hv1' & Hv2' & Hfit' & _)].
  - rewrite Hv, Hv'. right. reflexivity.
  - exfalso.
    pose proof (magnitude_mono _ _ _ _ Hpos Hle) as Hmag.
    rewrite !cexp_eq in *. lia.
  - rewrite Hv'.
    destruct (float_val (round_aux m e l)) eqn:Hx.
    + destruct Hv1 as [H|H]; discriminate H.
    + left; reflexivity.
    + destruct Hv1 as [H|H]; discriminate H.
    + left; reflexivity.
  - eapply xle_trans; [exact Hv1|]. eapply xle_trans; [exact Hle|exact Hv2'].
Qed.

(** *** Cells of fractions *)

Lemma ratio_cell_spec a b :
  0 < b ->
  exists q r c, a = b * q + r /\ 0 <= r < b /\ ratio_cell a b = 4 * q + c /\
    ((r = 0 /\ c = 0) \/ (0 < r /\ 2 * r < b /\ c = 1) \/
     (2 * r = b /\ c = 2) \/ (b < 2 * r /\ c = 3)).
Proof.
  intros Hb. exists (a / b), (a mod b).
  pose proof (Z.div_mod a b ltac:(lia)) as Hdm.
  pose proof (Z.mod_pos_bound a b Hb) as Hr.
  unfold ratio_cell. cbv zeta.
  destruct (Z.eqb_spec (a mod b) 0) as [H0|H0].
  - exists 0. repeat split; try lia.
  - destruct (Z.compare_spec (2 * (a mod b)) b).
    + exists 2. repeat split; try lia.
    + exists 1. repeat split; try lia.
    + exists 3. repeat split; try lia.
Qed.

Lemma ratio_cell_unique a b q r c :
  0 < b -> a = b * q + r -> 0 <= r < b ->
  ((r = 0 /\ c = 0) \/ (0 < r /\ 2 * r < b /\ c = 1) \/
     (2 * r = b /\ c = 2) \/ (b < 2 * r /\ c = 3)) ->
  ratio_cell a b = 4 * q + c.
Proof.
  intros Hb Ha Hr Hc.
  assert (Hq : a / b = q) by (symmetry; apply (Z.div_unique a b q r); lia).
  assert (Hm : a mod b = r) by (symmetry; apply (Z.mod_unique a b q r); lia).
  unfold ratio_cell. cbv zeta. rewrite Hq, Hm.
  destruct (Z.eqb_spec r 0); [lia|].
  destruct (Z.compare_spec (2 * r) b); lia.
Qed.

Lemma ratio_cell_halve a b :
  0 < b -> ratio_cell a (2 * b) = halve (ratio_cell a b).
Proof.
  intros Hb.
  destruct (ratio_cell_spec a (2 * b) ltac:(lia)) as (q & r & c & Ha & Hr & Hc & Hcase).
  rewrite Hc. 
  assert (Hlow : r < b \/ b <= r) by lia.
  destruct Hlow as [Hlow|Hhigh].
  - rewrite (ratio_cell_unique a b (2 * q) r (if r =? 0 then 0 else if 2 * r <? b then 1 else if 2 * r =? b then 2 else 3)); try lia.
    + unfold halve. destruct (Z.eqb_spec r 0), (Z.ltb_spec (2*r) b), (Z.eqb_spec (2 * r) b);
      match goal with |- context [?x mod 4 =? 0] => destruct (Z.eqb_spec (x mod 4) 0) end; lia_euclid.
    + destruct (Z.eqb_spec r 0), (Z.ltb_spec (2*r) b), (Z.eqb_spec (2 * r) b); lia.
  - rewrite (ratio_cell_unique a b (2 * q + 1) (r - b) (if r - b =? 0 then 0 else if 2 * (r - b) <? b then 1 else if 2 * (r - b) =? b then 2 else 3)); try lia.
    + unfold halve. destruct (Z.eqb_spec (r - b) 0), (Z.ltb_spec (2*(r - b)) b), (Z.eqb_spec (2 * (r-b)) b);
      match goal with |- context [?x mod 4 =? 0] => destruct (Z.eqb_spec (x mod 4) 0) end; lia_euclid.
    + destruct (Z.eqb_spec (r - b) 0), (Z.ltb_spec (2*(r - b)) b), (Z.eqb_spec (2 * (r-b)) b); lia.
Qed.

Lemma ratio_cell_scale a b c :
  0 < b -> 0 < c -> ratio_cell (a * c) (b * c) = ratio_cell a b.
Proof.
  intros Hb Hc.
  destruct (ratio_cell_spec a b Hb) as (q & r & k & Ha & Hr & Hk & Hcase).
  rewrite Hk. apply (ratio_cell_unique _ _ q (r * c) k); [nia|nia|nia|].
  destruct Hcase as [H|[H|[H|H]]];
    [left|right;left|right;right;left|right;right;right]; nia.
Qed.

Lemma ratio_cell_mono a a' b :
  0 < b -> a <= a' -> ratio_cell a b <= ratio_cell a' b.
Proof.
  intros Hb Hle.
  destruct (ratio_cell_spec a b Hb) as (q & r & k & Ha & Hr & Hk & Hcase).
  destruct (ratio_cell_spec a' b Hb) as (q' & r' & k' & Ha' & Hr' & Hk' & Hcase').
  rewrite Hk, Hk'.
  assert (Hq : q < q' \/ (q = q' /\ r <= r')) by nia.
  destruct Hq as [Hq|[Hq Hrr]]; [lia|]. subst q'. lia.
Qed.

Lemma ratio_cell_le a b a' b' :
  0 < b -> 0 < b' -> a * b' <= a' * b -> ratio_cell a b <= ratio_cell a' b'.
Proof.
  intros Hb Hb' Hle.
  rewrite <- (ratio_cell_scale a b b') by lia.
  rewrite <- (ratio_cell_scale a' b' b) by lia.
  rewrite (Z.mul_comm b' b). apply ratio_cell_mono; nia.
Qed.

Lemma ratio_cell_halves a b n :
  0 < b -> ratio_cell a (b * 2 ^ Z.of_nat n) = halves n (ratio_cell a b).
Proof.
  intros Hb. induction n as [|n IH].
  - simpl. now rewrite Z.mul_1_r.
  - rewrite halves_S, <- IH, <- ratio_cell_halve.
    + f_equal. rewrite Nat2Z.inj_succ, Z.pow_succ_r by lia. lia.
    + apply Z.mul_pos_pos; [exact Hb | apply Z.pow_pos_nonneg; lia].
Qed.

Lemma ratio_cell_int a : ratio_cell a 1 = 4 * a.
Proof.
  rewrite (ratio_cell_unique a 1 a 0 0); lia.
Qed.

Lemma below_ratio m e l m' e' l' a b a' b' :
  0 < b -> 0 < b' ->
  cell m l = ratio_cell a b -> cell m' l' = ratio_cell a' b' ->
  a * (b' * 2 ^ (Z.max e e' - e')) <= a' * (b * 2 ^ (Z.max e e' - e)) ->
  below m e l m' e' l'.
Proof.
  intros Hb Hb' Hc Hc' Hle. unfold below, cell_at. rewrite Hc, Hc'.
  rewrite <- !ratio_cell_halves by assumption.
  rewrite !Z2Nat.id by lia.
  apply ratio_cell_le; try (apply Z.mul_pos_pos; [assumption|]);
    try (apply Z.pow_pos_nonneg; lia).
  exact Hle.
Qed.

(** *** Division *)

Lemma new_location_code nb k :
  0 < nb -> 0 <= k < nb ->
  loc_code (new_location nb k)
  = if k =? 0 then 0
    else match 2 * k ?= nb with Lt => 1 | Eq => 2 | Gt => 3 end.
Proof.
  intros Hnb Hk. unfold new_location.
  destruct (Z.even nb) eqn:Heven.
  - unfold new_location_even. destruct (k =? 0); [reflexivity|].
    destruct (2 * k ?= nb); reflexivity.
  - unfold new_location_odd. destruct (k =? 0); [reflexivity|].
    assert (Hodd : Z.odd nb = true) by (rewrite <- Z.negb_even, Heven; reflexivity).
    apply Z.odd_spec in Hodd as [j Hj].
    destruct (Z.compare_spec (2 * k + 1) nb), (Z.compare_spec (2 * k) nb);
      simpl; lia.
Qed.

Lemma Zdigits2_mul_pow2 m s :
  0 < m -> 0 <= s -> Zdigits2 (m * 2 ^ s) = Zdigits2 m + s.
Proof.
  intros Hm Hs.
  assert (0 < 2 ^ s) by (apply Z.pow_pos_nonneg; lia).
  rewrite !Zdigits2_log2, Z.log2_mul_pow2 by nia. lia.
Qed.

Lemma Zdigits2_div a b :
  0 < a -> 0 < b -> Zdigits2 a - Zdigits2 b <= Zdigits2 (a / b).
Proof.
  intros Ha Hb.
  assert (Hq : 0 <= a / b) by (apply Z.div_pos; lia).
  pose proof (Zdigits2_nonneg (a / b) Hq) as Hd.
  destruct (Z_le_gt_dec (Zdigits2 a - Zdigits2 b) 0) as [Hsmall|Hbig]; [lia|].
  set (k := Zdigits2 a - 1 - Zdigits2 b).
  assert (Hk : 0 <= k) by (subst k; lia).
  assert (Hge : k + 1 <= Zdigits2 (a / b)); [|subst k; lia].
  apply Zdigits2_ge; [exact Hk|].
  apply Z.div_le_lower_bound; [exact Hb|].
  pose proof (Zdigits2_bounds a Ha) as [Hla _].
  pose proof (Zdigits2_bounds b Hb) as [_ Hub].
  pose proof (Zdigits2_pos b Hb) as Hdb.
  replace (Zdigits2 a - 1) with (k + Zdigits2 b) in Hla by (subst k; lia).
  rewrite Z.pow_add_r in Hla by lia.
  assert (0 < 2 ^ k) by (apply Z.pow_pos_nonneg; lia). nia.
Qed.

Lemma div_core_cell m1 e1 m2 e2 :
  0 < m1 -> 0 < m2 ->
  exists q e' l,
    SFdiv_core_binary prec emax m1 e1 m2 e2 = (q, e', l) /\
    e' = Z.min (fexp prec emax (Zdigits2 m1 + e1 - (Zdigits2 m2 + e2)))
               (e1 - e2) /\
    cell q l = ratio_cell (m1 * 2 ^ (e1 - e2 - e')) m2 /\
    0 <= q /\ fine q e'.
Proof.
  intros H1 H2. unfold SFdiv_core_binary.
  set (e' := Z.min (fexp prec emax (Zdigits2 m1 + e1 - (Zdigits2 m2 + e2)))
                   (e1 - e2)).
  set (s := e1 - e2 - e').
  assert (Hs : 0 <= s) by (subst s e'; lia).
  set (m' := match s with
             | 0 => m1
             | Z.pos _ => Z.shiftl m1 s
             | Z.neg _ => 0
             end).
  assert (Hm' : m' = m1 * 2 ^ s).
  { subst m'. destruct s as [|p|p] eqn:Hsp; [|apply Z.shiftl_mul_pow2|]; lia. }
  destruct (Z.div_eucl m' m2) as [q r] eqn:Hdiv.
  assert (Hq : q = m' / m2) by (unfold Z.div; now rewrite Hdiv).
  assert (Hr : r = m' mod m2) by (unfold Z.modulo; now rewrite Hdiv).
  exists q, e', (new_location m2 r).
  assert (Hpow : 0 < 2 ^ s) by (apply Z.pow_pos_nonneg; lia).
  assert (Hm'pos : 0 < m') by nia.
  assert (Hq0 : 0 <= q) by (rewrite Hq; apply Z.div_pos; lia).
  split; [reflexivity|]. split; [reflexivity|].
  split; [|split; [exact Hq0|]].
  - unfold cell. rewrite new_location_code
      by (try rewrite Hr; try apply Z.mod_pos_bound; lia).
    fold s. rewrite <- Hm'. unfold ratio_cell. cbv zeta.
    rewrite <- Hq, <- Hr. reflexivity.
  - unfold fine. rewrite cexp_eq.
    destruct (Z_le_gt_dec e' (-1074)) as [Hsub|Hnorm]; [lia|].
    assert (Hdq : Zdigits2 m' - Zdigits2 m2 <= Zdigits2 q)
      by (rewrite Hq; apply Zdigits2_div; lia).
    rewrite Hm', Zdigits2_mul_pow2 in Hdq by lia.
    subst s. subst e'. rewrite fexp_eq in *. lia.
Qed.

(** *** Cells of square roots *)

Lemma root_cell_spec a b :
  0 < b -> 0 <= a ->
  exists m c, 0 <= m /\ m * m * b <= a < (m + 1) * (m + 1) * b /\
    root_cell a b = 4 * m + c /\
    ((a = m * m * b /\ c = 0) \/
     (m * m * b < a /\ 4 * a < (2 * m + 1) * (2 * m + 1) * b /\ c = 1) \/
     (4 * a = (2 * m + 1) * (2 * m + 1) * b /\ c = 2) \/
     ((2 * m + 1) * (2 * m + 1) * b < 4 * a /\ c = 3)).
Proof.
  intros Hb Ha.
  assert (Hq : 0 <= a / b) by (apply Z.div_pos; lia).
  pose proof (Z.sqrt_spec (a / b) Hq) as Hs. cbv zeta in Hs.
  pose proof (Z.sqrt_nonneg (a / b)) as Hs0.
  set (m := Z.sqrt (a / b)) in *.
  pose proof (Z.div_mod a b ltac:(lia)) as Hdm.
  pose proof (Z.mod_pos_bound a b Hb) as Hr.
  assert (Hlow : m * m * b <= a) by nia.
  assert (Hhigh : a < (m + 1) * (m + 1) * b).
  { replace (Z.succ m) with (m + 1) in Hs by lia. nia. }
  exists m. unfold root_cell. cbv zeta. fold m.
  destruct (Z.eqb_spec a (m * m * b)) as [Heq|Hne].
  - exists 0. repeat split; try lia.
  - destruct (Z.compare_spec (4 * a) ((2 * m + 1) * (2 * m + 1) * b)).
    + exists 2. repeat split; try lia.
    + exists 1. repeat split; try lia.
    + exists 3. repeat split; try lia.
Qed.

Lemma root_cell_unique a b m c :
  0 < b -> 0 <= m -> m * m * b <= a < (m + 1) * (m + 1) * b ->
  ((a = m * m * b /\ c = 0) \/
   (m * m * b < a /\ 4 * a < (2 * m + 1) * (2 * m + 1) * b /\ c = 1) \/
   (4 * a = (2 * m + 1) * (2 * m + 1) * b /\ c = 2) \/
   ((2 * m + 1) * (2 * m + 1) * b < 4 * a /\ c = 3)) ->
  root_cell a b = 4 * m + c.
Proof.
  intros Hb Hm Ha Hc.
  assert (Hs : Z.sqrt (a / b) = m).
  { apply Z.sqrt_unique. replace (Z.succ m) with (m + 1) by lia. split.
    - apply Z.div_le_lower_bound; [exact Hb | nia].
    - apply Z.div_lt_upper_bound; [exact Hb | nia]. }
  unfold root_cell. cbv zeta. rewrite Hs.
  destruct (Z.eqb_spec a (m * m * b)); [nia|].
  destruct (Z.compare_spec (4 * a) ((2 * m + 1) * (2 * m + 1) * b)); lia.
Qed.

Lemma root_cell_quarter a b :
  0 < b -> 0 <= a -> root_cell a (4 * b) = halve (root_cell a b).
Proof.
  intros Hb Ha.
  destruct (root_cell_spec a (4 * b) ltac:(lia) Ha)
    as (m & c & Hm & Hbounds & Hc & Hcase).
  rewrite Hc.
  assert (Hhalf : forall M C, 0 <= C <= 3 ->
            halve (4 * M + C) = 2 * M + (if C =? 0 then 0 else 1)).
  { intros M C HC. unfold halve.
    destruct (Z.eqb_spec C 0), (Z.eqb_spec ((4 * M + C) mod 4) 0); lia_euclid. }
  destruct (Z_lt_le_dec a ((2 * m + 1) * (2 * m + 1) * b)) as [Hlt|Hge].
  - destruct (Z.eq_dec a (m * m * (4 * b))) as [Heq|Hne].
    + rewrite (root_cell_unique a b (2 * m) 0); [|lia|lia|nia|left; nia].
      rewrite Hhalf by lia. change (0 =? 0) with true. cbv iota.
      destruct Hcase as [H|[H|[H|H]]]; nia.
    + assert (Hex : exists C, 1 <= C <= 3 /\ root_cell a b = 4 * (2 * m) + C).
      { destruct (Z.compare_spec (4 * a)
                    ((2 * (2 * m) + 1) * (2 * (2 * m) + 1) * b)).
        - exists 2. split; [lia|].
          apply root_cell_unique; [lia|lia|nia|right; right; left; nia].
        - exists 1. split; [lia|].
          apply root_cell_unique; [lia|lia|nia|right; left; nia].
        - exists 3. split; [lia|].
          apply root_cell_unique; [lia|lia|nia|right; right; right; nia]. }
      destruct Hex as (C & HC & ->). rewrite Hhalf by lia.
      destruct (Z.eqb_spec C 0); [lia|].
      destruct Hcase as [H|[H|[H|H]]]; nia.
  - destruct (Z.eq_dec a ((2 * m + 1) * (2 * m + 1) * b)) as [Heq|Hne].
    + rewrite (root_cell_unique a b (2 * m + 1) 0); [|lia|lia|nia|left; nia].
      rewrite Hhalf by lia. change (0 =? 0) with true. cbv iota.
      destruct Hcase as [H|[H|[H|H]]]; nia.
    + assert (Hex : exists C, 1 <= C <= 3 /\
                              root_cell a b = 4 * (2 * m + 1) + C).
      { destruct (Z.compare_spec (4 * a)
                    ((2 * (2 * m + 1) + 1) * (2 * (2 * m + 1) + 1) * b)).
        - exists 2. split; [lia|].
          apply root_cell_unique; [lia|lia|nia|right; right; left; nia].
        - exists 1. split; [lia|].
          apply root_cell_unique; [lia|lia|nia|right; left; nia].
        - exists 3. split; [lia|].
          apply root_cell_unique; [lia|lia|nia|right; right; right; nia]. }
      destruct Hex as (C & HC & ->). rewrite Hhalf by lia.
      destruct (Z.eqb_spec C 0); [lia|].
      destruct Hcase as [H|[H|[H|H]]]; nia.
Qed.

Lemma root_cell_scale a b c :
  0 < b -> 0 <= a -> 0 < c -> root_cell (a * c) (b * c) = root_cell a b.
Proof.
  intros Hb Ha Hc.
  destruct (root_cell_spec a b Hb Ha) as (m & k & Hm & Hbounds & Hk & Hcase).
  rewrite Hk. apply root_cell_unique; [nia|lia|nia|].
  destruct Hcase as [H|[H|[H|H]]];
    [left|right;left|right;right;left|right;right;right]; nia.
Qed.

Lemma root_cell_mono a a' b :
  0 < b -> 0 <= a <= a' -> root_cell a b <= root_cell a' b.
Proof.
  intros Hb Hle.
  destruct (root_cell_spec a b Hb ltac:(lia))
    as (m & k & Hm & Hbounds & Hk & Hcase).
  destruct (root_cell_spec a' b Hb ltac:(lia))
    as (m' & k' & Hm' & Hbounds' & Hk' & Hcase').
  rewrite Hk, Hk'.
  assert (Hmm : m <= m') by nia.
  assert (Hrange : 0 <= k <= 3 /\ 0 <= k' <= 3)
    by (destruct Hcase as [H|[H|[H|H]]], Hcase' as [H'|[H'|[H'|H']]]; lia).
  destruct (Z.eq_dec m m') as [<-|Hne]; [|lia].
  destruct Hcase as [H|[H|[H|H]]], Hcase' as [H'|[H'|[H'|H']]]; nia.
Qed.

Lemma root_cell_le a b a' b' :
  0 < b -> 0 < b' -> 0 <= a -> 0 <= a' -> a * b' <= a' * b ->
  root_cell a b <= root_cell a' b'.
Proof.
  intros Hb Hb' Ha Ha' Hle.
  rewrite <- (root_cell_scale a b b') by lia.
  rewrite <- (root_cell_scale a' b' b) by lia.
  rewrite (Z.mul_comm b' b). apply root_cell_mono; nia.
Qed.

Lemma root_cell_quarters a b n :
  0 < b -> 0 <= a ->
  root_cell a (b * 4 ^ Z.of_nat n) = halves n (root_cell a b).
Proof.
  intros Hb Ha. induction n as [|n IH].
  - simpl. now rewrite Z.mul_1_r.
  - rewrite halves_S, <- IH, <- root_cell_quarter.
    + f_equal. rewrite Nat2Z.inj_succ, Z.pow_succ_r by lia. lia.
    + apply Z.mul_pos_pos; [exact Hb | apply Z.pow_pos_nonneg; lia].
    + exact Ha.
Qed.

Lemma below_root m e l m' e' l' a a' :
  0 <= a -> 0 <= a' ->
  cell m l = root_cell a 1 -> cell m' l' = root_cell a' 1 ->
  a * 4 ^ (Z.max e e' - e') <= a' * 4 ^ (Z.max e e' - e) ->
  below m e l m' e' l'.
Proof.
  intros Ha Ha' Hc Hc' Hle. unfold below, cell_at. rewrite Hc, Hc'.
  rewrite <- !root_cell_quarters by lia.
  rewrite !Z2Nat.id, !Z.mul_1_l by lia.
  apply root_cell_le; try (apply Z.pow_pos_nonneg; lia); try lia.
Qed.

(** *** Square root *)

Lemma Zdigits2_sqrt a :
  0 < a -> Z.div2 (Zdigits2 a + 1) <= Zdigits2 (Z.sqrt a).
Proof.
  intros Ha.
  pose proof (Zdigits2_bounds a Ha) as [Hlow _].
  pose proof (Zdigits2_pos a Ha) as Hd.
  set (k := (Zdigits2 a - 1) / 2).
  assert (Hk : 0 <= k) by (subst k; lia_euclid).
  assert (Hdiv : Z.div2 (Zdigits2 a + 1) = k + 1)
    by (rewrite Z.div2_div; subst k; lia_euclid).
  rewrite Hdiv. apply Zdigits2_ge; [exact Hk|].
  assert (Hsq : 2 ^ k * 2 ^ k <= a).
  { rewrite <- Z.pow_add_r by lia.
    apply Z.le_trans with (2 ^ (Zdigits2 a - 1)); [|exact Hlow].
    apply Z.pow_le_mono_r; [lia | subst k; lia_euclid]. }
  rewrite <- (Z.sqrt_square (2 ^ k)) by (apply Z.pow_nonneg; lia).
  apply Z.sqrt_le_mono, Hsq.
Qed.

Lemma sqrt_core_cell m e :
  0 < m ->
  exists q e' l,
    SFsqrt_core_binary prec emax m e = (q, e', l) /\
    e' = Z.min (fexp prec emax (Z.div2 (Zdigits2 m + e + 1))) (Z.div2 e) /\
    cell q l = root_cell (m * 2 ^ (e - 2 * e')) 1 /\
    0 <= q /\ fine q e'.
Proof.
  intros Hm. unfold SFsqrt_core_binary.
  set (e' := Z.min (fexp prec emax (Z.div2 (Zdigits2 m + e + 1))) (Z.div2 e)).
  set (s := e - 2 * e').
  assert (Hs : 0 <= s) by (subst s e'; rewrite (Z.div2_div e); lia_euclid).
  set (m' := match s with
             | 0 => m
             | Z.pos _ => Z.shiftl m s
             | Z.neg _ => 0
             end).
  assert (Hm' : m' = m * 2 ^ s).
  { subst m'. destruct s as [|p|p] eqn:Hsp; [|apply Z.shiftl_mul_pow2|]; lia. }
  assert (Hpow : 0 < 2 ^ s) by (apply Z.pow_pos_nonneg; lia).
  assert (Hm'pos : 0 < m') by nia.
  pose proof (Z.sqrtrem_spec m' ltac:(lia)) as Hspec.
  pose proof (Z.sqrtrem_sqrt m') as Hfst.
  destruct (Z.sqrtrem m') as [q r] eqn:Hsr. cbn [fst] in Hfst.
  destruct Hspec as [Hsum Hr].
  assert (Hq0 : 0 <= q) by (rewrite Hfst; apply Z.sqrt_nonneg).
  exists q, e',
    (if r =? 0 then loc_Exact else loc_Inexact (if r <=? q then Lt else Gt)).
  split; [reflexivity|]. split; [reflexivity|].
  split; [|split; [exact Hq0|]].
  - fold s. rewrite <- Hm'. unfold cell.
    destruct (Z.eqb_spec r 0) as [Hr0|Hr0].
    + rewrite (root_cell_unique m' 1 q 0); [simpl; lia|lia|lia|nia|left; nia].
    + destruct (Z.leb_spec r q).
      * rewrite (root_cell_unique m' 1 q 1);
          [simpl; lia|lia|lia|nia|right; left; nia].
      * rewrite (root_cell_unique m' 1 q 3);
          [simpl; lia|lia|lia|nia|right; right; right; nia].
  - unfold fine. rewrite cexp_eq.
    destruct (Z_le_gt_dec e' (-1074)) as [Hsub|Hnorm]; [lia|].
    pose proof (Zdigits2_sqrt m' Hm'pos) as Hdq.
    rewrite <- Hfst in Hdq.
    rewrite Hm', Zdigits2_mul_pow2 in Hdq by lia.
    assert (Hhalf : Z.div2 (Zdigits2 m + s + 1)
                    = Z.div2 (Zdigits2 m + e + 1) - e')
      by (rewrite !Z.div2_div; subst s; lia_euclid).
    rewrite Hhalf in Hdq.
    subst e'. rewrite fexp_eq in *. lia.
Qed.

(** *** Results of rounding *)

Lemma canonical_cexp m e :
  canonical_mantissa prec emax m e = true <-> cexp (Z.pos m) e = e.
Proof.
  unfold canonical_mantissa, cexp. cbn [Zdigits2]. apply Z.eqb_eq.
Qed.

Lemma round_aux_result m e l :
  0 <= m -> fine m e ->
  round_aux m e l = S754_zero false \/
  round_aux m e l = S754_infinity false \/
  exists m3 E3,
    round_aux m e l = S754_finite false m3 E3 /\
    canonical_mantissa prec emax m3 E3 = true /\ E3 <= 971.
Proof.
  intros Hm Hf.
  destruct (round_aux_cases m e l Hm Hf)
    as [[_ Hr]|(m3 & E3 & _ & _ & _ & Hcan & [[Hfit Hr]|[_ Hr]])]; auto.
  right; right. exists m3, E3. rewrite canonical_cexp. auto.
Qed.

Lemma round_aux_nonneg_finite m e l :
  0 <= m -> fine m e ->
  is_finite (round_aux m e l) = true ->
  nonneg_finite (round_aux m e l) = true.
Proof.
  intros Hm Hf Hfin.
  destruct (round_aux_result m e l Hm Hf)
    as [Hr|[Hr|(m3 & E3 & Hr & Hcan & _)]]; rewrite Hr in *;
    [reflexivity | discriminate Hfin | exact Hcan].
Qed.

Lemma nonneg_finite_val x :
  nonneg_finite x = true -> xle xzero (float_val x).
Proof.
  destruct x as [s|s| |[] m e]; cbn; intros H; try discriminate H.
  - apply xle_refl_fin.
  - apply (xle_fin 0 0 (Z.pos m) e (Z.min 0 e)); [lia|lia|].
    assert (0 < 2 ^ (e - Z.min 0 e)) by (apply Z.pow_pos_nonneg; lia). nia.
Qed.

Lemma round_aux_nonneg m e l :
  0 <= m -> fine m e -> xle xzero (float_val (round_aux m e l)).
Proof.
  intros Hm Hf.
  destruct (round_aux_result m e l Hm Hf)
    as [Hr|[Hr|(m3 & E3 & Hr & Hcan & _)]]; rewrite Hr.
  - apply xle_refl_fin.
  - left; reflexivity.
  - apply nonneg_finite_val. exact Hcan.
Qed.

(** *** Conversion of integers *)

Lemma iter_xO m d : Z.pos (Pos.iter xO m d) = Z.pos m * 2 ^ Z.pos d.
Proof.
  induction d as [|d IH] using Pos.peano_ind.
  - cbn [Pos.iter]. rewrite (Pos2Z.inj_xO m). change (2 ^ 1) with 2. lia.
  - rewrite Pos.iter_succ, (Pos2Z.inj_xO (Pos.iter xO m d)), IH,
      Pos2Z.inj_succ, Z.pow_succ_r; lia.
Qed.

Lemma shl_align_spec mx ex ex' :
  exists mz ez,
    shl_align mx ex ex' = (mz, ez) /\ ez = Z.min ex ex' /\
    Z.pos mz = Z.pos mx * 2 ^ (ex - ez).
Proof.
  unfold shl_align.
  destruct (ex' - ex) as [|d|d] eqn:Hd.
  - exists mx, ex. replace (Z.min ex ex') with ex by lia.
    replace (ex - ex) with 0 by lia. rewrite Z.pow_0_r.
    split; [reflexivity | split; lia].
  - exists mx, ex. replace (Z.min ex ex') with ex by lia.
    replace (ex - ex) with 0 by lia. rewrite Z.pow_0_r.
    split; [reflexivity | split; lia].
  - exists (Pos.iter xO mx d), ex'. replace (Z.min ex ex') with ex' by lia.
    split; [reflexivity|]. split; [reflexivity|].
    rewrite iter_xO. f_equal. f_equal. lia.
Qed.

(** A positive integer is rounded as the exact value it is. *)
Lemma round_Z_spec z :
  0 < z ->
  exists k,
    0 <= k /\ round_Z z = round_aux (z * 2 ^ k) (- k) loc_Exact /\
    fine (z * 2 ^ k) (- k) /\
    - k = Z.min 0 (fexp prec emax (Zdigits2 z)).
Proof.
  intros Hz. destruct z as [|p|p]; try lia.
  unfold round_Z, binary_normalize, binary_round.
  destruct (shl_align_spec p 0 (fexp prec emax (Z.pos (digits2_pos p) + 0)))
    as (mz & ez & Hal & Hez & Hmz).
  rewrite Hal. rewrite Z.add_0_r in Hez.
  change (Z.pos (digits2_pos p)) with (Zdigits2 (Z.pos p)) in Hez.
  exists (- ez). replace (- - ez) with ez by lia.
  replace (0 - ez) with (- ez) in Hmz by lia.
  rewrite <- Hmz.
  split; [lia|]. split; [reflexivity|]. split; [|exact Hez].
  unfold fine, cexp. rewrite Hmz, Zdigits2_mul_pow2 by lia.
  rewrite fexp_eq in *. lia.
Qed.

Lemma round_Z_nonneg z : 0 <= z -> xle xzero (float_val (round_Z z)).
Proof.
  intros Hz. destruct (Z.eq_dec z 0) as [->|Hnz]; [apply xle_refl_fin|].
  destruct (round_Z_spec z ltac:(lia)) as (k & Hk & Hr & Hf & _).
  rewrite Hr. apply round_aux_nonneg; [|exact Hf].
  apply Z.mul_nonneg_nonneg; [lia | apply Z.pow_nonneg; lia].
Qed.

Lemma cell_exact m : cell m loc_Exact = ratio_cell m 1.
Proof.
  rewrite ratio_cell_int. unfold cell. simpl. lia.
Qed.

Lemma pow2_pos k : 0 <= k -> 0 < 2 ^ k.
Proof. intros. apply Z.pow_pos_nonneg; lia. Qed.

Lemma pow2_split x y u v :
  0 <= x -> 0 <= y -> 0 <= u -> 0 <= v -> x + y = u + v ->
  2 ^ x * 2 ^ y = 2 ^ u * 2 ^ v.
Proof.
  intros Hx Hy Hu Hv Heq. rewrite <- !Z.pow_add_r by lia. now rewrite Heq.
Qed.

Theorem round_Z_mono a b :
  0 <= a <= b -> xle (float_val (round_Z a)) (float_val (round_Z b)).
Proof.
  intros [Ha Hab].
  destruct (Z.eq_dec a 0) as [->|Hnz]; [apply round_Z_nonneg; lia|].
  destruct (round_Z_spec a ltac:(lia)) as (k & Hk & Hr & Hf & _).
  destruct (round_Z_spec b ltac:(lia)) as (k' & Hk' & Hr' & Hf' & _).
  rewrite Hr, Hr'.
  pose proof (pow2_pos k Hk). pose proof (pow2_pos k' Hk').
  apply round_aux_mono; try assumption; try nia.
  apply (below_ratio _ _ _ _ _ _ (a * 2 ^ k) 1 (b * 2 ^ k') 1);
    try lia; try apply cell_exact.
  rewrite !Z.mul_1_l.
  set (F := Z.max (- k) (- k')).
  rewrite <- !Z.mul_assoc, <- !Z.pow_add_r by (subst F; lia).
  replace (k + (F - - k')) with (k' + (F - - k)) by lia.
  assert (0 < 2 ^ (k' + (F - - k))) by (apply pow2_pos; subst F; lia).
  nia.
Qed.

Lemma round_Z_exact z :
  0 <= z < 2 ^ 53 ->
  is_finite (round_Z z) = true /\
  xle (float_val (round_Z z)) (XFin z 0) /\
  xle (XFin z 0) (float_val (round_Z z)).
Proof.
  intros [Hz Hlt].
  destruct (Z.eq_dec z 0) as [->|Hnz].
  { split; [reflexivity|]. split; apply xle_refl_fin. }
  destruct (round_Z_spec z ltac:(lia)) as (k & Hk & Hr & Hf & Hkeq).
  assert (Hd : Zdigits2 z <= 53) by (apply Zdigits2_le; lia).
  pose proof (Zdigits2_pos z ltac:(lia)) as Hd0.
  rewrite fexp_eq in Hkeq.
  assert (Hkval : k = 53 - Zdigits2 z) by lia.
  pose proof (pow2_pos k Hk) as Hp.
  assert (Hm : 0 <= z * 2 ^ k) by nia.
  assert (HE : cexp (z * 2 ^ k) (- k) = - k).
  { rewrite cexp_eq, Zdigits2_mul_pow2 by lia. lia. }
  assert (Hm2 : rounded_mantissa (z * 2 ^ k) (- k) loc_Exact = z * 2 ^ k).
  { unfold rounded_mantissa. rewrite HE.
    replace (- k - - k) with 0 by lia. simpl Z.to_nat. unfold halves. simpl Nat.iter.
    unfold cell. simpl loc_code. rewrite Z.add_0_r. apply nearest_even_exact. }
  destruct (round_aux_value (z * 2 ^ k) (- k) loc_Exact Hm Hf)
    as [(_ & Hover & _)|(Hv1 & Hv2 & _ & Hfin)].
  - exfalso. rewrite Hm2, HE in Hover.
    rewrite cexp_eq, Zdigits2_mul_pow2 in Hover by lia. lia.
  - rewrite Hr. split; [exact Hfin|].
    rewrite Hm2, HE in Hv1, Hv2.
    destruct (xle_shift z (- k) k Hk) as [H1 H2].
    replace (- k + k) with 0 in H1, H2 by lia.
    split; eapply xle_trans; eassumption.
Qed.

(** *** Monotonicity of the operations *)

Lemma xle_zero_pos m e : ~ xle (XFin (Z.pos m) e) xzero.
Proof.
  unfold xzero. intros H.
  apply (xle_fin _ _ _ _ (Z.min e 0)) in H; [|lia|lia].
  pose proof (pow2_pos (e - Z.min e 0) ltac:(lia)). nia.
Qed.

Lemma is_nonneg_val x : is_nonneg x = true -> xle xzero (float_val x).
Proof.
  destruct x as [s|s| |[] m e]; cbn; intros H; try discriminate H.
  - apply xle_refl_fin.
  - apply (xle_fin 0 0 (Z.pos m) e (Z.min 0 e)); [lia|lia|].
    pose proof (pow2_pos (e - Z.min 0 e) ltac:(lia)). nia.
Qed.

Lemma fdiv_finite mx ex my ey :
  exists q e' l,
    fdiv (S754_finite false mx ex) (S754_finite false my ey)
    = round_aux q e' l /\
    e' = Z.min (fexp prec emax (Zdigits2 (Z.pos mx) + ex
                                - (Zdigits2 (Z.pos my) + ey)))
               (ex - ey) /\
    cell q l = ratio_cell (Z.pos mx * 2 ^ (ex - ey - e')) (Z.pos my) /\
    0 <= q /\ fine q e'.
Proof.
  destruct (div_core_cell (Z.pos mx) ex (Z.pos my) ey ltac:(lia) ltac:(lia))
    as (q & e' & l & Hcore & He' & Hcell & Hq & Hf).
  exists q, e', l. split; [|auto].
  unfold fdiv, SFdiv. rewrite Hcore. reflexivity.
Qed.

Lemma fdiv_nonneg x my ey :
  is_nonneg x = true ->
  xle xzero (float_val (fdiv x (S754_finite false my ey))).
Proof.
  destruct x as [s|s| |[] mx ex]; intros H; try discriminate H.
  - destruct s; apply xle_refl_fin.
  - destruct (fdiv_finite mx ex my ey) as (q & e' & l & Hr & _ & _ & Hq & Hf).
    rewrite Hr. now apply round_aux_nonneg.
Qed.

Theorem fdiv_mono x x' my ey :
  is_nonneg x = true -> is_nonneg x' = true ->
  xle (float_val x) (float_val x') ->
  xle (float_val (fdiv x (S754_finite false my ey)))
      (float_val (fdiv x' (S754_finite false my ey))).
Proof.
  intros Hx Hx' Hle.
  destruct x as [s|s| |[] mx ex]; try discriminate Hx.
  { replace (float_val (fdiv (S754_zero s) (S754_finite false my ey)))
      with xzero by (destruct s; reflexivity).
    now apply fdiv_nonneg. }
  destruct x' as [s'|s'| |[] mx' ex']; try discriminate Hx'.
  { exfalso. exact (xle_zero_pos mx ex Hle). }
  destruct (fdiv_finite mx ex my ey)
    as (q & e1 & l & Hr & He1 & Hcell & Hq & Hf).
  destruct (fdiv_finite mx' ex' my ey)
    as (q' & e2 & l' & Hr' & He2 & Hcell' & Hq' & Hf').
  rewrite Hr, Hr'. apply round_aux_mono; try assumption.
  cbn [float_val cond_Zopp] in Hle.
  set (e0 := Z.min ex ex').
  apply (xle_fin _ _ _ _ e0) in Hle; [|subst e0; lia|subst e0; lia].
  eapply below_ratio; [| |exact Hcell|exact Hcell'|]; [lia|lia|].
  set (F := Z.max e1 e2).
  assert (He1' : e1 <= ex - ey) by lia.
  assert (He2' : e2 <= ex' - ey) by lia.
  set (c := F - e1 - e2 - ey + e0).
  assert (Hc : 0 <= c) by (subst c F e0; lia).
  pose proof (pow2_pos c Hc) as Hpc.
  assert (Hp1 : 2 ^ (ex - ey - e1) * 2 ^ (F - e2) = 2 ^ (ex - e0) * 2 ^ c)
    by (apply pow2_split; subst c F e0; lia).
  assert (Hp2 : 2 ^ (ex' - ey - e2) * 2 ^ (F - e1) = 2 ^ (ex' - e0) * 2 ^ c)
    by (apply pow2_split; subst c F e0; lia).
  replace (Z.pos mx * 2 ^ (ex - ey - e1) * (Z.pos my * 2 ^ (F - e2)))
    with (Z.pos my * 2 ^ c * (Z.pos mx * 2 ^ (ex - e0)))
    by (replace (Z.pos mx * 2 ^ (ex - ey - e1) * (Z.pos my * 2 ^ (F - e2)))
          with (Z.pos mx * Z.pos my * (2 ^ (ex - ey - e1) * 2 ^ (F - e2)))
          by ring; rewrite Hp1; ring).
  replace (Z.pos mx' * 2 ^ (ex' - ey - e2) * (Z.pos my * 2 ^ (F - e1)))
    with (Z.pos my * 2 ^ c * (Z.pos mx' * 2 ^ (ex' - e0)))
    by (replace (Z.pos mx' * 2 ^ (ex' - ey - e2) * (Z.pos my * 2 ^ (F - e1)))
          with (Z.pos mx' * Z.pos my * (2 ^ (ex' - ey - e2) * 2 ^ (F - e1)))
          by ring; rewrite Hp2; ring).
  apply Z.mul_le_mono_nonneg_l; [nia | exact Hle].
Qed.

Lemma Zdigits2_mul a b :
  0 < a -> 0 < b -> Zdigits2 a + Zdigits2 b - 1 <= Zdigits2 (a * b).
Proof.
  intros Ha Hb.
  pose proof (Zdigits2_bounds a Ha) as [Hla _].
  pose proof (Zdigits2_bounds b Hb) as [Hlb _].
  pose proof (Zdigits2_pos a Ha). pose proof (Zdigits2_pos b Hb).
  assert (Hge : (Zdigits2 a - 1 + (Zdigits2 b - 1)) + 1 <= Zdigits2 (a * b));
    [|lia].
  apply Zdigits2_ge; [lia|].
  rewrite Z.pow_add_r by lia.
  pose proof (pow2_pos (Zdigits2 a - 1) ltac:(lia)).
  pose proof (pow2_pos (Zdigits2 b - 1) ltac:(lia)). nia.
Qed.

Lemma fmul_finite mx ex my ey :
  canonical_mantissa prec emax mx ex = true ->
  canonical_mantissa prec emax my ey = true ->
  fmul (S754_finite false mx ex) (S754_finite false my ey)
  = round_aux (Z.pos mx * Z.pos my) (ex + ey) loc_Exact /\
  fine (Z.pos mx * Z.pos my) (ex + ey).
Proof.
  intros Hx Hy. split; [reflexivity|].
  apply canonical_cexp in Hx, Hy. rewrite cexp_eq in Hx, Hy.
  unfold fine. rewrite cexp_eq.
  pose proof (Zdigits2_mul (Z.pos mx) (Z.pos my) ltac:(lia) ltac:(lia)).
  pose proof (Zdigits2_pos (Z.pos mx) ltac:(lia)).
  pose proof (Zdigits2_pos (Z.pos my) ltac:(lia)).
  lia.
Qed.

Lemma fmul_nonneg x y :
  nonneg_finite x = true -> nonneg_finite y = true ->
  xle xzero (float_val (fmul x y)).
Proof.
  intros Hx Hy.
  destruct x as [s|s| |[] mx ex]; try discriminate Hx;
    destruct y as [t|t| |[] my ey]; try discriminate Hy;
    try (destruct s; try destruct t; apply xle_refl_fin);
    try (destruct t; apply xle_refl_fin).
  destruct (fmul_finite mx ex my ey Hx Hy) as [Hr Hf].
  rewrite Hr. apply round_aux_nonneg; [lia | exact Hf].
Qed.

Theorem fmul_mono x x' y :
  nonneg_finite x = true -> nonneg_finite x' = true ->
  nonneg_finite y = true ->
  xle (float_val x) (float_val x') ->
  xle (float_val (fmul x y)) (float_val (fmul x' y)).
Proof.
  intros Hx Hx' Hy Hle.
  destruct y as [t|t| |[] my ey]; try discriminate Hy.
  { destruct x as [s|s| |[] mx ex]; try discriminate Hx;
      destruct x' as [s'|s'| |[] mx' ex']; try discriminate Hx';
      destruct t; try destruct s; try destruct s'; apply xle_refl_fin. }
  destruct x as [s|s| |[] mx ex]; try discriminate Hx.
  { replace (float_val (fmul (S754_zero s) (S754_finite false my ey)))
      with xzero by (destruct s; reflexivity).
    now apply fmul_nonneg. }
  destruct x' as [s'|s'| |[] mx' ex']; try discriminate Hx'.
  { exfalso. exact (xle_zero_pos mx ex Hle). }
  destruct (fmul_finite mx ex my ey Hx Hy) as [Hr Hf].
  destruct (fmul_finite mx' ex' my ey Hx' Hy) as [Hr' Hf'].
  rewrite Hr, Hr'. apply round_aux_mono; try assumption; try lia.
  cbn [float_val cond_Zopp] in Hle.
  set (e0 := Z.min ex ex').
  apply (xle_fin _ _ _ _ e0) in Hle; [|subst e0; lia|subst e0; lia].
  eapply below_ratio; [| |apply cell_exact|apply cell_exact|]; [lia|lia|].
  rewrite !Z.mul_1_l.
  replace (Z.max (ex + ey) (ex' + ey) - (ex' + ey)) with (ex - e0)
    by (subst e0; lia).
  replace (Z.max (ex + ey) (ex' + ey) - (ex + ey)) with (ex' - e0)
    by (subst e0; lia).
  replace (Z.pos mx * Z.pos my * 2 ^ (ex - e0))
    with (Z.pos my * (Z.pos mx * 2 ^ (ex - e0))) by ring.
  replace (Z.pos mx' * Z.pos my * 2 ^ (ex' - e0))
    with (Z.pos my * (Z.pos mx' * 2 ^ (ex' - e0))) by ring.
  apply Z.mul_le_mono_nonneg_l; [lia | exact Hle].
Qed.

Lemma fsqrt_finite mx ex :
  exists q e' l,
    fsqrt (S754_finite false mx ex) = round_aux q e' l /\
    e' = Z.min (fexp prec emax (Z.div2 (Zdigits2 (Z.pos mx) + ex + 1)))
               (Z.div2 ex) /\
    cell q l = root_cell (Z.pos mx * 2 ^ (ex - 2 * e')) 1 /\
    0 <= q /\ fine q e'.
Proof.
  destruct (sqrt_core_cell (Z.pos mx) ex ltac:(lia))
    as (q & e' & l & Hcore & He' & Hcell & Hq & Hf).
  exists q, e', l. split; [|auto].
  unfold fsqrt, SFsqrt. rewrite Hcore. reflexivity.
Qed.

Lemma fsqrt_nonneg x :
  is_nonneg x = true -> xle xzero (float_val (fsqrt x)).
Proof.
  destruct x as [s|s| |[] mx ex]; intros H; try discriminate H.
  - destruct s; apply xle_refl_fin.
  - destruct (fsqrt_finite mx ex) as (q & e' & l & Hr & _ & _ & Hq & Hf).
    rewrite Hr. now apply round_aux_nonneg.
Qed.

Theorem fsqrt_mono x x' :
  is_nonneg x = true -> is_nonneg x' = true ->
  xle (float_val x) (float_val x') ->
  xle (float_val (fsqrt x)) (float_val (fsqrt x')).
Proof.
  intros Hx Hx' Hle.
  destruct x as [s|s| |[] mx ex]; try discriminate Hx.
  { replace (float_val (fsqrt (S754_zero s))) with xzero
      by (destruct s; reflexivity).
    now apply fsqrt_nonneg. }
  destruct x' as [s'|s'| |[] mx' ex']; try discriminate Hx'.
  { exfalso. exact (xle_zero_pos mx ex Hle). }
  destruct (fsqrt_finite mx ex) as (q & e1 & l & Hr & He1 & Hcell & Hq & Hf).
  destruct (fsqrt_finite mx' ex')
    as (q' & e2 & l' & Hr' & He2 & Hcell' & Hq' & Hf').
  rewrite Hr, Hr'. apply round_aux_mono; try assumption.
  cbn [float_val cond_Zopp] in Hle.
  set (e0 := Z.min ex ex').
  apply (xle_fin _ _ _ _ e0) in Hle; [|subst e0; lia|subst e0; lia].
  assert (He1' : 2 * e1 <= ex) by (rewrite !Z.div2_div in He1; lia_euclid).
  assert (He2' : 2 * e2 <= ex') by (rewrite !Z.div2_div in He2; lia_euclid).
  pose proof (pow2_pos (ex - 2 * e1) ltac:(lia)).
  pose proof (pow2_pos (ex' - 2 * e2) ltac:(lia)).
  eapply below_root; [| |exact Hcell|exact Hcell'|]; [nia|nia|].
  set (F := Z.max e1 e2).
  change 4 with (2 ^ 2).
  rewrite <- !Z.pow_mul_r by (subst F; lia).
  set (c := 2 * F - 2 * e1 - 2 * e2 + e0).
  assert (Hc : 0 <= c) by (subst c F e0; lia).
  pose proof (pow2_pos c Hc) as Hpc.
  rewrite <- !Z.mul_assoc.
  assert (Hp1 : 2 ^ (ex - 2 * e1) * 2 ^ (2 * (F - e2)) = 2 ^ (ex - e0) * 2 ^ c)
    by (apply pow2_split; subst c F e0; lia).
  assert (Hp2 : 2 ^ (ex' - 2 * e2) * 2 ^ (2 * (F - e1)) = 2 ^ (ex' - e0) * 2 ^ c)
    by (apply pow2_split; subst c F e0; lia).
  rewrite Hp1, Hp2, !Z.mul_assoc.
  apply Z.mul_le_mono_nonneg_r; [lia | exact Hle].
Qed.

(** *** Positive results *)

Lemma round_aux_pos m e l :
  0 <= m -> fine m e -> -1074 < cexp m e ->
  is_finite (round_aux m e l) = true ->
  exists m3 E3,
    round_aux m e l = S754_finite false m3 E3 /\
    canonical_mantissa prec emax m3 E3 = true /\ E3 <= 971.
Proof.
  intros Hm Hf Hnormal Hfin.
  destruct (rounded_mantissa_bounds m e l Hm Hf) as [_ Hl].
  specialize (Hl Hnormal).
  assert (H52 : 0 < 2 ^ 52) by reflexivity.
  destruct (round_aux_cases m e l Hm Hf)
    as [[Hz _]|(m3 & E3 & _ & _ & _ & Hcan & [[Hfit Hr]|[_ Hr]])].
  - lia.
  - exists m3, E3. rewrite canonical_cexp. auto.
  - rewrite Hr in Hfin. discriminate Hfin.
Qed.

Lemma round_Z_pos z :
  0 < z -> is_finite (round_Z z) = true ->
  exists m e,
    round_Z z = S754_finite false m e /\
    canonical_mantissa prec emax m e = true /\ e <= 971.
Proof.
  intros Hz Hfin.
  destruct (round_Z_spec z Hz) as (k & Hk & Hr & Hf & Hkeq).
  rewrite Hr in *.
  pose proof (pow2_pos k Hk).
  apply round_aux_pos; try assumption; [nia|].
  rewrite cexp_eq, Zdigits2_mul_pow2 by lia.
  pose proof (Zdigits2_pos z Hz). lia.
Qed.

Lemma round_Z_nonneg_finite z :
  0 <= z -> is_finite (round_Z z) = true -> nonneg_finite (round_Z z) = true.
Proof.
  intros Hz Hfin. destruct (Z.eq_dec z 0) as [->|Hnz]; [reflexivity|].
  destruct (round_Z_pos z ltac:(lia) Hfin) as (m & e & Hr & Hcan & _).
  rewrite Hr. exact Hcan.
Qed.

Lemma nonneg_finite_is_nonneg x : nonneg_finite x = true -> is_nonneg x = true.
Proof.
  destruct x as [s|s| |[] m e]; cbn; intros H; try discriminate H; reflexivity.
Qed.

Lemma Zdigits2_sqrt_upper a :
  0 < a -> Zdigits2 (Z.sqrt a) <= Z.div2 (Zdigits2 a + 1).
Proof.
  intros Ha.
  pose proof (Zdigits2_bounds a Ha) as [_ Hup].
  pose proof (Zdigits2_pos a Ha) as Hd.
  set (k := Z.div2 (Zdigits2 a + 1)).
  assert (Hk : 0 < k /\ Zdigits2 a <= 2 * k)
    by (subst k; rewrite Z.div2_div; lia_euclid).
  apply Zdigits2_le; [apply Z.sqrt_nonneg | lia |].
  apply Z.sqrt_lt_square; [lia | apply Z.pow_nonneg; lia |].
  rewrite <- Z.pow_add_r by lia.
  apply Z.lt_le_trans with (2 ^ Zdigits2 a); [exact Hup|].
  apply Z.pow_le_mono_r; lia.
Qed.

(** The square root of a positive canonical float is one. *)
Lemma fsqrt_pos m e :
  canonical_mantissa prec emax m e = true -> e <= 971 ->
  exists m' e',
    fsqrt (S754_finite false m e) = S754_finite false m' e' /\
    canonical_mantissa prec emax m' e' = true /\ e' <= 971.
Proof.
  intros Hcan He.
  apply canonical_cexp in Hcan. rewrite cexp_eq in Hcan.
  pose proof (Zdigits2_pos (Z.pos m) ltac:(lia)) as Hd.
  unfold fsqrt, SFsqrt.
  destruct (SFsqrt_core_binary prec emax (Z.pos m) e) as [[q e1] l] eqn:Hcore.
  unfold SFsqrt_core_binary in Hcore.
  set (e' := Z.min (fexp prec emax (Z.div2 (Zdigits2 (Z.pos m) + e + 1)))
                   (Z.div2 e)) in Hcore.
  set (s := e - 2 * e') in Hcore.
  assert (Hs : 0 <= s) by (subst s e'; rewrite (Z.div2_div e); lia_euclid).
  set (m1 := match s with
             | 0 => Z.pos m
             | Z.pos _ => Z.shiftl (Z.pos m) s
             | Z.neg _ => 0
             end) in Hcore.
  assert (Hm1 : m1 = Z.pos m * 2 ^ s).
  { subst m1. destruct s as [|p|p] eqn:Hsp; [|apply Z.shiftl_mul_pow2|]; lia. }
  pose proof (pow2_pos s Hs) as Hpow.
  assert (Hm1pos : 0 < m1) by nia.
  pose proof (Z.sqrtrem_sqrt m1) as Hfst.
  destruct (Z.sqrtrem m1) as [q0 r] eqn:Hsr. cbn [fst] in Hfst.
  injection Hcore as <- <- <-.
  destruct (sqrt_core_cell (Z.pos m) e ltac:(lia))
    as (q' & e1' & l' & Hcore' & He1' & _ & Hq & Hf).
  unfold SFsqrt_core_binary in Hcore'. fold e' s m1 in Hcore'.
  rewrite Hsr in Hcore'. injection Hcore' as <- <- <-.
  pose proof (Zdigits2_sqrt m1 Hm1pos) as Hlow.
  pose proof (Zdigits2_sqrt_upper m1 Hm1pos) as Hup.
  rewrite <- Hfst in Hlow, Hup.
  rewrite Hm1, Zdigits2_mul_pow2 in Hlow, Hup by lia.
  assert (Hhalf : Z.div2 (Zdigits2 (Z.pos m) + s + 1)
                  = Z.div2 (Zdigits2 (Z.pos m) + e + 1) - e')
    by (rewrite !Z.div2_div; subst s; lia_euclid).
  rewrite Hhalf in Hlow, Hup.
  assert (Hdiv : -537 <= Z.div2 (Zdigits2 (Z.pos m) + e + 1) <= 512)
    by (rewrite Z.div2_div; lia_euclid).
  assert (Hc : cexp q0 e' = Zdigits2 q0 + e' - 53) by (rewrite cexp_eq; lia).
  fold (round_aux q0 e' (if r =? 0 then loc_Exact
                          else loc_Inexact (if r <=? q0 then Lt else Gt))).
  set (l := if r =? 0 then loc_Exact
            else loc_Inexact (if r <=? q0 then Lt else Gt)).
  apply round_aux_pos; try assumption; [lia|].
  destruct (round_aux_value q0 e' l Hq Hf)
    as [(_ & Hover & _)|(_ & _ & _ & Hfin)]; [|exact Hfin].
  exfalso.
  destruct (rounded_mantissa_fine q0 e' l Hq Hf) as (_ & Hn2 & _).
  lia.
Qed.

(** ** Python numbers over the rounding theory *)

Lemma int_to_float_ok z x :
  int_to_float z = Ok x <-> x = round_Z z /\ is_finite (round_Z z) = true.
Proof.
  unfold int_to_float. cbv zeta.
  destruct (is_finite (round_Z z)); split.
  - intros H. injection H as <-. auto.
  - intros [-> _]. reflexivity.
  - discriminate.
  - intros [_ H]. discriminate H.
Qed.

Lemma int_to_float_raise z e :
  int_to_float z = Raise e -> e = OverflowError /\ is_finite (round_Z z) = false.
Proof.
  unfold int_to_float. cbv zeta.
  destruct (is_finite (round_Z z)); [discriminate|].
  intros H. injection H as <-. auto.
Qed.

Lemma finite_of_le x y :
  xle xzero (float_val x) -> xle (float_val x) (float_val y) ->
  is_finite y = true -> is_finite x = true.
Proof.
  destruct x as [s|[]| |s m e]; try reflexivity;
    destruct y as [t|[]| |t m' e']; intros H0 Hle Hy;
    try discriminate Hy;
    try (destruct H0 as [H|H]; discriminate H);
    destruct Hle as [H|H]; discriminate H.
Qed.

Lemma round_Z_finite_le a b :
  0 <= a <= b -> is_finite (round_Z b) = true -> is_finite (round_Z a) = true.
Proof.
  intros Hab Hb.
  apply (finite_of_le (round_Z a) (round_Z b));
    [apply round_Z_nonneg; lia | apply round_Z_mono; exact Hab | exact Hb].
Qed.

Lemma round_Z_infinite_ge a b :
  0 <= a <= b -> is_finite (round_Z a) = false ->
  is_finite (round_Z b) = false.
Proof.
  intros Hab Ha. destruct (is_finite (round_Z b)) eqn:Hb; [|reflexivity].
  rewrite (round_Z_finite_le a b Hab Hb) in Ha. discriminate Ha.
Qed.

Lemma exact_Z_pos z :
  0 < z -> exact_Z z = S754_finite false (Z.to_pos z) 0.
Proof.
  destruct z; try lia. reflexivity.
Qed.

Lemma exact_Z_nonneg z : 0 <= z -> is_nonneg (exact_Z z) = true.
Proof.
  destruct z; try lia; reflexivity.
Qed.

Lemma exact_Z_val z : float_val (exact_Z z) = XFin z 0 \/ z = 0.
Proof.
  destruct z; cbn; auto.
Qed.

Lemma exact_Z_le a b :
  0 <= a <= b -> xle (float_val (exact_Z a)) (float_val (exact_Z b)).
Proof.
  intros Hab.
  destruct a as [|a|a], b as [|b|b]; try lia; cbn [exact_Z float_val cond_Zopp];
    apply (xle_fin _ _ _ _ 0); lia.
Qed.

(** [a / r] on non-negative integers. *)
Lemma truediv_int a r :
  0 < r ->
  truediv (PyInt a) (PyInt r)
  = if is_finite (fdiv (exact_Z a) (exact_Z r))
    then Ok (PyFloat (fdiv (exact_Z a) (exact_Z r)))
    else Raise OverflowError.
Proof.
  intros Hr. unfold truediv.
  destruct (Z.eqb_spec r 0); [lia | reflexivity].
Qed.

Lemma fdiv_int_mono a b r :
  0 <= a <= b -> 0 < r ->
  xle (float_val (fdiv (exact_Z a) (exact_Z r)))
      (float_val (fdiv (exact_Z b) (exact_Z r))).
Proof.
  intros Hab Hr. rewrite (exact_Z_pos r Hr).
  apply fdiv_mono; try (apply exact_Z_nonneg; lia).
  apply exact_Z_le, Hab.
Qed.

Lemma fdiv_int_nonneg a r :
  0 <= a -> 0 < r -> xle xzero (float_val (fdiv (exact_Z a) (exact_Z r))).
Proof.
  intros Ha Hr. rewrite (exact_Z_pos r Hr).
  apply fdiv_nonneg, exact_Z_nonneg, Ha.
Qed.

Theorem truediv_int_mono a b r x y :
  0 <= a <= b -> 0 < r ->
  truediv (PyInt a) (PyInt r) = Ok x -> truediv (PyInt b) (PyInt r) = Ok y ->
  le x y = true.
Proof.
  intros Hab Hr. rewrite !truediv_int by exact Hr.
  destruct (is_finite (fdiv (exact_Z a) (exact_Z r))); [|discriminate].
  destruct (is_finite (fdiv (exact_Z b) (exact_Z r))); [|discriminate].
  intros Hx Hy. injection Hx as <-. injection Hy as <-.
  apply le_xle. cbn [num_val]. now apply fdiv_int_mono.
Qed.

Lemma truediv_int_ok_le a b r :
  0 <= a <= b -> 0 < r ->
  is_ok (truediv (PyInt b) (PyInt r)) = true ->
  is_ok (truediv (PyInt a) (PyInt r)) = true.
Proof.
  intros Hab Hr. rewrite !truediv_int by exact Hr.
  destruct (is_finite (fdiv (exact_Z b) (exact_Z r))) eqn:Hb; [|discriminate].
  intros _.
  rewrite (finite_of_le _ _ (fdiv_int_nonneg a r ltac:(lia) Hr)
             (fdiv_int_mono a b r Hab Hr) Hb).
  reflexivity.
Qed.

(** [math.sqrt] on a non-negative integer. *)
Lemma math_sqrt_int z :
  0 <= z ->
  math_sqrt (PyInt z)
  = if is_finite (round_Z z) then Ok (fsqrt (round_Z z))
    else Raise OverflowError.
Proof.
  intros Hz. unfold math_sqrt, to_float, int_to_float. cbv zeta.
  destruct (is_finite (round_Z z)) eqn:Hfin; [|reflexivity].
  cbn [bind].
  replace (lt (PyFloat (round_Z z)) (PyInt 0)) with false; [reflexivity|].
  symmetry. apply not_true_is_false. intros Hlt.
  apply lt_xlt in Hlt. cbn [num_val] in Hlt.
  pose proof (round_Z_nonneg z Hz) as Hge.
  pose proof (xle_lt_trans _ _ _ Hge Hlt) as Hcontra.
  unfold xlt, xzero in Hcontra. cbn in Hcontra. discriminate Hcontra.
Qed.

Lemma math_sqrt_int_nonneg_finite z s :
  0 <= z -> math_sqrt (PyInt z) = Ok s -> nonneg_finite s = true.
Proof.
  intros Hz. rewrite math_sqrt_int by exact Hz.
  destruct (is_finite (round_Z z)) eqn:Hfin; [|discriminate].
  intros H. injection H as <-.
  destruct (Z.eq_dec z 0) as [->|Hnz]; [reflexivity|].
  destruct (round_Z_pos z ltac:(lia) Hfin) as (m & e & Hr & Hcan & He).
  rewrite Hr.
  destruct (fsqrt_pos m e Hcan He) as (m' & e' & Hs & Hcan' & _).
  rewrite Hs. exact Hcan'.
Qed.

Theorem math_sqrt_int_mono a b x y :
  0 <= a <= b ->
  math_sqrt (PyInt a) = Ok x -> math_sqrt (PyInt b) = Ok y ->
  xle (float_val x) (float_val y).
Proof.
  intros Hab. rewrite !math_sqrt_int by lia.
  destruct (is_finite (round_Z a)) eqn:Ha; [|discriminate].
  destruct (is_finite (round_Z b)) eqn:Hb; [|discriminate].
  intros Hx Hy. injection Hx as <-. injection Hy as <-.
  apply fsqrt_mono;
    try (apply nonneg_finite_is_nonneg, round_Z_nonneg_finite; (lia || assumption)).
  apply round_Z_mono, Hab.
Qed.

(** [x / r] for a float and a positive integer. *)
Lemma truediv_float_pos_int x r :
  0 < r -> is_finite (round_Z r) = true ->
  exists m e,
    round_Z r = S754_finite false m e /\
    truediv (PyFloat x) (PyInt r)
    = Ok (PyFloat (fdiv x (S754_finite false m e))).
Proof.
  intros Hr Hfin.
  destruct (round_Z_pos r Hr Hfin) as (m & e & Hrz & _ & _).
  exists m, e. split; [exact Hrz|].
  apply truediv_float_int; [|reflexivity].
  apply int_to_float_ok. rewrite Hrz in *. auto.
Qed.

Theorem quantum_time_at_mono rate a b x y :
  0 < rate -> 0 <= a <= b ->
  quantum_time_at rate (PyInt a) = Ok x ->
  quantum_time_at rate (PyInt b) = Ok y ->
  le x y = true.
Proof.
  intros Hrate Hab. unfold quantum_time_at. intros Hx Hy.
  apply bind_ok in Hx as (sa & Hsa & Hx).
  apply bind_ok in Hy as (sb & Hsb & Hy).
  assert (Hfin : is_finite (round_Z rate) = true).
  { unfold truediv, to_float, bind in Hx.
    destruct (int_to_float rate) as [r|] eqn:Hr; [|discriminate Hx].
    apply int_to_float_ok in Hr. tauto. }
  destruct (truediv_float_pos_int sa rate Hrate Hfin) as (m & e & Hm1 & Ha).
  destruct (truediv_float_pos_int sb rate Hrate Hfin) as (m' & e' & Hm2 & Hb).
  rewrite Hm1 in Hm2. injection Hm2 as <- <-.
  rewrite Ha in Hx. rewrite Hb in Hy.
  injection Hx as <-. injection Hy as <-.
  apply le_xle. cbn [num_val].
  apply fdiv_mono;
    try (apply nonneg_finite_is_nonneg;
         eapply math_sqrt_int_nonneg_finite; [|eassumption]; lia).
  eapply math_sqrt_int_mono; eassumption.
Qed.

(** [n * l] for an integer and a float. *)
Lemma mul_int_float n l :
  mul (PyInt n) (PyFloat l)
  = if is_finite (round_Z n) then Ok (PyFloat (fmul (round_Z n) l))
    else Raise OverflowError.
Proof.
  unfold mul, to_float, int_to_float. cbv zeta.
  destruct (is_finite (round_Z n)); reflexivity.
Qed.

Theorem mul_int_float_mono a b l x y :
  0 <= a <= b -> nonneg_finite l = true ->
  mul (PyInt a) (PyFloat l) = Ok x -> mul (PyInt b) (PyFloat l) = Ok y ->
  le x y = true.
Proof.
  intros Hab Hl. rewrite !mul_int_float.
  destruct (is_finite (round_Z a)) eqn:Ha; [|discriminate].
  destruct (is_finite (round_Z b)) eqn:Hb; [|discriminate].
  intros Hx Hy. injection Hx as <-. injection Hy as <-.
  apply le_xle. cbn [num_val].
  apply fmul_mono; try assumption;
    try (apply round_Z_nonneg_finite; (lia || assumption)).
  apply round_Z_mono, Hab.
Qed.


(** ** Strength classification *)

Lemma tier_of_mono breakpoints e1 e2 :
  le e1 e2 = true ->
  (tier_of breakpoints e1 <= tier_of breakpoints e2)%nat.
Proof.
  intros Hle. induction breakpoints as [|b bs IH]; simpl; [lia|].
  destruct (lt e2 (PyInt b)) eqn:H2.
  - rewrite (le_lt_trans _ _ _ Hle H2). lia.
  - destruct (lt e1 (PyInt b)); lia.
Qed.

Lemma classify_strength_rank e :
  rank tiers_A (fst (QuantumPasswordAnalyzer.classify_strength e))
  = Some (tier_of [40; 60; 80] e).
Proof.
  unfold QuantumPasswordAnalyzer.classify_strength. simpl tier_of.
  destruct (lt e (PyInt 40)); [reflexivity|].
  destruct (lt e (PyInt 60)); [reflexivity|].
  destruct (lt e (PyInt 80)); reflexivity.
Qed.

Lemma classify_security_rank e :
  rank tiers_B (QuantumAuthTool.classify_security e)
  = Some (tier_of [40; 60; 80; 128] e).
Proof.
  unfold QuantumAuthTool.classify_security. simpl tier_of.
  destruct (lt e (PyInt 40)); [reflexivity|].
  destruct (lt e (PyInt 60)); [reflexivity|].
  destruct (lt e (PyInt 80)); [reflexivity|].
  destruct (lt e (PyInt 128)); reflexivity.
Qed.

(** C5. Both strength classifiers are total step functions of the entropy:
    every entropy is given exactly one tier, the one its fixed breakpoints
    determine (40, 60, 80 for the four tiers of variant A; 40, 60, 80, 128
    for the five tiers of variant B), and a larger entropy never gets a
    lower tier. *)
Theorem classify_total_monotone :
  (forall e,
     rank tiers_A (fst (QuantumPasswordAnalyzer.classify_strength e))
     = Some (tier_of [40; 60; 80] e)) /\
  (forall e,
     rank tiers_B (QuantumAuthTool.classify_security e)
     = Some (tier_of [40; 60; 80; 128] e)) /\
  (forall e1 e2 i j, le e1 e2 = true ->
     rank tiers_A (fst (QuantumPasswordAnalyzer.classify_strength e1)) = Some i ->
     rank tiers_A (fst (QuantumPasswordAnalyzer.classify_strength e2)) = Some j ->
     (i <= j)%nat) /\
  (forall e1 e2 i j, le e1 e2 = true ->
     rank tiers_B (QuantumAuthTool.classify_security e1) = Some i ->
     rank tiers_B (QuantumAuthTool.classify_security e2) = Some j ->
     (i <= j)%nat).
Proof.
  split; [exact classify_strength_rank|].
  split; [exact classify_security_rank|].
  split; intros e1 e2 i j Hle H1 H2.
  - rewrite classify_strength_rank in H1, H2.
    injection H1 as <-; injection H2 as <-.
    exact (tier_of_mono [40; 60; 80] e1 e2 Hle).
  - rewrite classify_security_rank in H1, H2.
    injection H1 as <-; injection H2 as <-.
    exact (tier_of_mono [40; 60; 80; 128] e1 e2 Hle).
Qed.

Lemma classify_total_monotone_witness :
  le (PyFloat (S754_finite false 7937594343240499 (-48)))
     (PyFloat (S754_finite false 6703829071187278 (-47))) = true /\
  (0 <= 1)%nat.
Proof.
  split; [reflexivity|].
  apply (proj1 (proj2 (proj2 classify_total_monotone))
           (PyFloat (S754_finite false 7937594343240499 (-48)))
           (PyFloat (S754_finite false 6703829071187278 (-47))) 0%nat 1%nat);
    reflexivity.
Defined.

(** ** Formatted durations *)

Lemma starts_with_app p y : starts_with p (p ++ y) = true.
Proof.
  induction p as [|a p IH]; simpl; [reflexivity|].
  now rewrite N.eqb_refl, IH.
Qed.

Lemma contains_prefix s p : starts_with p s = true -> contains s p = true.
Proof.
  intros H. destruct s; simpl; rewrite H; reflexivity.
Qed.

Lemma contains_app x p y : contains (x ++ p ++ y) p = true.
Proof.
  induction x as [|a x IH]; simpl.
  - apply contains_prefix, starts_with_app.
  - rewrite IH. apply orb_true_r.
Qed.


Section FormatTime.

Variables format_2e format_2f : float -> str.

Let format_time := QuantumPasswordAnalyzer.format_time format_2e format_2f.

Lemma format_time_float (seconds : float) :
  exists digits unit,
    format_time (PyFloat seconds) = Ok (digits ++ lit " " ++ unit ++ lit "s")
    /\ In unit [lit "second"; lit "minute"; lit "hour"; lit "day"; lit "year"].
Proof.
  unfold format_time, QuantumPasswordAnalyzer.format_time.
  destruct (lt (PyFloat seconds) (PyInt 60)).
  { eexists _, (lit "second"). split; [reflexivity | simpl; auto]. }
  destruct (lt (PyFloat seconds) (PyInt 3600)).
  { rewrite (truediv_float_int _ 60 _ eq_refl eq_refl).
    eexists _, (lit "minute"). split; [reflexivity | simpl; auto]. }
  destruct (lt (PyFloat seconds) (PyInt 86400)).
  { rewrite (truediv_float_int _ 3600 _ eq_refl eq_refl).
    eexists _, (lit "hour"). split; [reflexivity | simpl; auto]. }
  destruct (lt (PyFloat seconds) (PyInt 31536000)).
  { rewrite (truediv_float_int _ 86400 _ eq_refl eq_refl).
    eexists _, (lit "day"). split; [reflexivity | simpl; auto 6]. }
  rewrite (truediv_float_int _ 31536000 _ eq_refl eq_refl).
  eexists _, (lit "year"). split; [reflexivity | simpl; auto 6].
Qed.

Lemma has_unit_intro digits unit :
  In unit [lit "second"; lit "minute"; lit "hour"; lit "day"; lit "year"] ->
  has_unit (digits ++ lit " " ++ unit ++ lit "s") = true.
Proof.
  intros Hin. unfold has_unit.
  rewrite (app_assoc digits (lit " ")).
  simpl in Hin.
  destruct Hin as [<-|[<-|[<-|[<-|[<-|[]]]]]];
    rewrite contains_app; rewrite ?orb_true_r; reflexivity.
Qed.

Lemma assess_of_unit (classical_time_str quantum_time_str : str) :
  has_unit quantum_time_str = true ->
  In (QuantumPasswordAnalyzer.assess_quantum_vulnerability
        classical_time_str quantum_time_str)
     [lit "CRITICAL"; lit "HIGH"; lit "MODERATE"].
Proof.
  unfold has_unit, QuantumPasswordAnalyzer.assess_quantum_vulnerability.
  destruct (contains quantum_time_str (lit "second"));
    destruct (contains quantum_time_str (lit "minute"));
    destruct (contains quantum_time_str (lit "hour"));
    destruct (contains quantum_time_str (lit "day"));
    destruct (contains quantum_time_str (lit "year"));
    simpl; intros H; try discriminate; auto.
Qed.

Lemma format_time_unit (seconds : number) (s : str) :
  format_time seconds = Ok s ->
  exists digits unit,
    s = digits ++ lit " " ++ unit ++ lit "s"
    /\ In unit [lit "second"; lit "minute"; lit "hour"; lit "day"; lit "year"].
Proof.
  unfold format_time, QuantumPasswordAnalyzer.format_time.
  destruct (lt seconds (PyInt 60)).
  { intros H. apply bind_ok in H as (d & _ & H). injection H as <-.
    exists d, (lit "second"). split; [reflexivity | simpl; auto]. }
  destruct (lt seconds (PyInt 3600)).
  { intros H. apply bind_ok in H as (q & _ & H).
    apply bind_ok in H as (d & _ & H). injection H as <-.
    exists d, (lit "minute"). split; [reflexivity | simpl; auto]. }
  destruct (lt seconds (PyInt 86400)).
  { intros H. apply bind_ok in H as (q & _ & H).
    apply bind_ok in H as (d & _ & H). injection H as <-.
    exists d, (lit "hour"). split; [reflexivity | simpl; auto]. }
  destruct (lt seconds (PyInt 31536000)).
  { intros H. apply bind_ok in H as (q & _ & H).
    apply bind_ok in H as (d & _ & H). injection H as <-.
    exists d, (lit "day"). split; [reflexivity | simpl; auto 6]. }
  intros H. apply bind_ok in H as (q & _ & H).
  apply bind_ok in H as (d & _ & H). injection H as <-.
  exists d, (lit "year"). split; [reflexivity | simpl; auto 6].
Qed.

(** The largest integer that a float holds, and the first one beyond. *)
Lemma finite_int_bound (z : Z) :
  is_finite (round_Z z) = true -> z < 2 ^ 1024 - 2 ^ 970.
Proof.
  intros Hfin.
  destruct (Z.lt_ge_cases z (2 ^ 1024 - 2 ^ 970)) as [H|H]; [exact H|].
  rewrite (round_Z_infinite_ge (2 ^ 1024 - 2 ^ 970) z) in Hfin;
    [discriminate Hfin | split; [vm_compute; discriminate | exact H]
     | vm_compute; reflexivity].
Qed.

Lemma format_time_int (z : Z) :
  is_finite (round_Z z) = true -> exists s, format_time (PyInt z) = Ok s.
Proof.
  intros Hfin.
  assert (Hfmt : forall fmt, format_num fmt (PyInt z) = Ok (fmt (round_Z z))).
  { intros fmt. unfold format_num, to_float, int_to_float. cbv zeta.
    rewrite Hfin. reflexivity. }
  unfold format_time, QuantumPasswordAnalyzer.format_time.
  destruct (lt (PyInt z) (PyInt 60)) eqn:H60.
  { rewrite Hfmt. cbn [bind]. eauto. }
  assert (Hz : 0 <= z <= 2 ^ 1024 - 2 ^ 970 - 1).
  { pose proof (finite_int_bound z Hfin).
    split; [|lia].
    destruct (Z.lt_ge_cases z 0) as [Hneg|]; [|assumption].
    assert (Hlt : lt (PyInt z) (PyInt 60) = true).
    { apply lt_xlt. cbn [num_val].
      apply (xlt_fin _ _ _ _ 0); [lia | lia | cbn; lia]. }
    rewrite Hlt in H60. discriminate H60. }
  assert (Hdiv : forall r,
             0 < r ->
             is_ok (truediv (PyInt (2 ^ 1024 - 2 ^ 970 - 1)) (PyInt r)) = true ->
             exists q, truediv (PyInt z) (PyInt r) = Ok (PyFloat q)).
  { intros r Hr Hok.
    pose proof (truediv_int_ok_le z _ r Hz Hr Hok) as Hq.
    rewrite truediv_int in Hq |- * by exact Hr.
    destruct (is_finite (fdiv (exact_Z z) (exact_Z r)));
      [eauto | discriminate Hq]. }
  destruct (lt (PyInt z) (PyInt 3600)).
  { destruct (Hdiv 60 eq_refl) as (q & ->); [vm_compute; reflexivity|].
    cbn [bind format_num to_float]. eauto. }
  destruct (lt (PyInt z) (PyInt 86400)).
  { destruct (Hdiv 3600 eq_refl) as (q & ->); [vm_compute; reflexivity|].
    cbn [bind format_num to_float]. eauto. }
  destruct (lt (PyInt z) (PyInt 31536000)).
  { destruct (Hdiv 86400 eq_refl) as (q & ->); [vm_compute; reflexivity|].
    cbn [bind format_num to_float]. eauto. }
  destruct (Hdiv 31536000 eq_refl) as (q & ->); [vm_compute; reflexivity|].
  cbn [bind format_num to_float]. eauto.
Qed.

(** C9. Whatever number of seconds variant A's [format_time] is given, an
    integer or a float of either sign: every string that it returns names
    one of the units second, minute, hour, day or year, so
    [assess_quantum_vulnerability] answers CRITICAL, HIGH or MODERATE on
    it, never LOW. It returns a string on every float and on every integer
    that a float can hold; on the integers beyond, it raises. *)
Theorem format_time_never_low (seconds : number) :
  (forall s,
     format_time seconds = Ok s ->
     has_unit s = true /\
     forall classical_time_str,
       In (QuantumPasswordAnalyzer.assess_quantum_vulnerability
             classical_time_str s)
          [lit "CRITICAL"; lit "HIGH"; lit "MODERATE"] /\
       QuantumPasswordAnalyzer.assess_quantum_vulnerability
         classical_time_str s <> lit "LOW") /\
  (forall x, seconds = PyFloat x -> exists s, format_time seconds = Ok s) /\
  (forall z, seconds = PyInt z -> is_finite (round_Z z) = true ->
             exists s, format_time seconds = Ok s).
Proof.
  split; [|split].
  - intros s Hs.
    destruct (format_time_unit seconds s Hs) as (digits & unit & -> & Hin).
    pose proof (has_unit_intro digits unit Hin) as Hu.
    split; [exact Hu|].
    intros c. pose proof (assess_of_unit c _ Hu) as Ha.
    split; [exact Ha|].
    intros Heq. rewrite Heq in Ha. simpl in Ha.
    destruct Ha as [H|[H|[H|[]]]]; discriminate H.
  - intros x ->.
    destruct (format_time_float x) as (digits & unit & Hs & _). eauto.
  - intros z -> Hfin. apply format_time_int, Hfin.
Qed.

End FormatTime.

Lemma format_time_never_low_witness :
  exists s,
    QuantumPasswordAnalyzer.format_time sample_format sample_format
      (PyInt 7200) = Ok s /\
    has_unit s = true /\
    QuantumPasswordAnalyzer.assess_quantum_vulnerability [] s <> lit "LOW".
Proof.
  eexists. split; [vm_compute; reflexivity|].
  destruct (proj1 (format_time_never_low sample_format sample_format
                     (PyInt 7200)) _ ltac:(vm_compute; reflexivity))
    as [Hu Ha].
  split; [exact Hu | exact (proj2 (Ha []))].
Defined.

(** ** Alphabet size *)

Lemma detect_charsets_ge_1 (password : str) :
  1 <= snd (QuantumAuthTool.detect_charsets password).
Proof.
  unfold QuantumAuthTool.detect_charsets. cbn [snd]. apply Z.le_max_r.
Qed.

(** C2, as stated, fails for variant A: with every class switched off
    [calculate_charset_size] returns 0. *)
Lemma charset_size_all_false :
  ~ 1 <= fst (QuantumPasswordAnalyzer.calculate_charset_size
                false false false false).
Proof.
  vm_compute. intros H. apply H. reflexivity.
Qed.

(** C2, amended. Variant B's [detect_charsets] returns an alphabet size of
    at least 1 for every password, and exactly 1 for the empty one.
    Variant A's [calculate_charset_size] returns the plain sum of the sizes
    of the selected classes, which is at least 1 exactly when some class
    is selected. *)
Theorem alphabet_size_floor :
  (forall password, 1 <= snd (QuantumAuthTool.detect_charsets password)) /\
  snd (QuantumAuthTool.detect_charsets []) = 1 /\
  (forall l u d s,
     fst (QuantumPasswordAnalyzer.calculate_charset_size l u d s)
     = (if l then 26 else 0) + (if u then 26 else 0)
       + (if d then 10 else 0) + (if s then 8 else 0)) /\
  (forall l u d s,
     1 <= fst (QuantumPasswordAnalyzer.calculate_charset_size l u d s)
     <-> l || u || d || s = true).
Proof.
  split; [exact detect_charsets_ge_1|].
  split; [reflexivity|].
  split.
  - intros [] [] [] []; reflexivity.
  - intros [] [] [] []; cbn; split; intros H;
      try reflexivity; try lia; discriminate H.
Qed.

(** ** The report of variant B *)

(** C10. Whenever variant B's [analyze] returns a report, its
    [input_password] field is the password it was given, unchanged. *)
Theorem analyze_echoes_password
    (libm_log2 : float -> float) (unicode_isdigit : N -> bool)
    (key_bits : str) (drawn : nat -> nat)
    (password : str) (r : QuantumAuthTool.report) :
  QuantumAuthTool.analyze libm_log2 unicode_isdigit key_bits drawn password
  = Ok r ->
  QuantumAuthTool.input_password r = password.
Proof.
  unfold QuantumAuthTool.analyze.
  destruct (QuantumAuthTool.detect_charsets password) as [cs A].
  intros H. inv_bind H. injection H as <-. reflexivity.
Qed.

Lemma analyze_echoes_password_witness :
  exists r,
    QuantumAuthTool.analyze sample_log2 sample_isdigit sample_key_bits
      sample_drawn (lit "abcdef") = Ok r /\
    QuantumAuthTool.input_password r = lit "abcdef".
Proof.
  eexists. split; [vm_compute; reflexivity|].
  apply (analyze_echoes_password sample_log2 sample_isdigit sample_key_bits
           sample_drawn (lit "abcdef")).
  vm_compute; reflexivity.
Defined.

(** ** Hexadecimal fingerprints *)

Ltac lia_divmod := zify; Z.to_euclidean_division_equations; lia.

Lemma hex_value_char v : (v < 16)%N -> hex_value (hex_char v) = Some v.
Proof.
  intros Hv. unfold hex_value, hex_char.
  destruct (N.ltb_spec v 10).
  - replace ((48 <=? 48 + v) && (48 + v <? 58))%N with true.
    + f_equal. lia.
    + symmetry. apply andb_true_iff. split; [apply N.leb_le|apply N.ltb_lt]; lia.
  - replace ((48 <=? 97 + (v - 10)) && (97 + (v - 10) <? 58))%N with false.
    + replace ((97 <=? 97 + (v - 10)) && (97 + (v - 10) <? 103))%N with true.
      * f_equal. lia.
      * symmetry. apply andb_true_iff.
        split; [apply N.leb_le|apply N.ltb_lt]; lia.
    + symmetry. apply andb_false_iff. right. apply N.ltb_ge. lia.
Qed.

Lemma parse_hex_digits fuel : forall n acc,
  (n < 16 ^ N.of_nat fuel)%N ->
  parse_digits hex_value 16 (hex_digits fuel n acc) 0
  = parse_digits hex_value 16 acc n.
Proof.
  induction fuel as [|f IH]; intros n acc Hn.
  - simpl in *. replace n with 0%N by lia. reflexivity.
  - cbn [hex_digits].
    assert (Hmod : (n mod 16 < 16)%N) by (apply N.mod_lt; lia).
    destruct (N.ltb_spec n 16) as [Hlt|Hge].
    + cbn [parse_digits]. rewrite (hex_value_char _ Hmod).
      rewrite N.mod_small by exact Hlt. reflexivity.
    + rewrite IH.
      * cbn [parse_digits]. rewrite (hex_value_char _ Hmod).
        f_equal. rewrite N.mul_comm. symmetry. apply N.div_mod. lia.
      * rewrite Nat2N.inj_succ, N.pow_succ_r' in Hn.
        apply N.Div0.div_lt_upper_bound. exact Hn.
Qed.

Lemma hex_digits_cons fuel n acc :
  exists c ds, hex_digits (S fuel) n acc = c :: ds.
Proof.
  revert n acc. induction fuel as [|f IH]; intros n acc; cbn [hex_digits].
  - destruct (n <? 16)%N; eauto.
  - destruct (n <? 16)%N; [eauto|]. apply IH.
Qed.

Lemma hex_fuel n : (n < 16 ^ N.of_nat (S (N.to_nat (N.log2 n))))%N.
Proof.
  rewrite Nat2N.inj_succ, N2Nat.id.
  destruct (N.eq_dec n 0) as [->|Hn]; [reflexivity|].
  apply N.lt_le_trans with (2 ^ N.succ (N.log2 n))%N.
  - apply N.log2_spec. lia.
  - apply N.pow_le_mono_l. lia.
Qed.

Lemma int_16_hex z : int_16 (hex z) = Ok z.
Proof.
  unfold hex.
  destruct (hex_digits_cons (N.to_nat (N.log2 (Z.abs_N z))) (Z.abs_N z) [])
    as (c & ds & Hds).
  pose proof (parse_hex_digits _ (Z.abs_N z) [] (hex_fuel _)) as Hp.
  rewrite Hds in *.
  destruct (Z.ltb_spec z 0) as [Hneg|Hpos]; cbn -[parse_digits];
    rewrite Hp; cbn; f_equal; lia.
Qed.

(** ** Base64 *)

Lemma b64_value_char v : (v < 64)%N -> b64_value (b64_char v) = Some v.
Proof.
  intros Hv. unfold b64_value, b64_char.
  repeat match goal with
         | |- context [(?a <? ?b)%N] => destruct (N.ltb_spec a b)
         | |- context [(?a <=? ?b)%N] => destruct (N.leb_spec a b)
         | |- context [(?a =? ?b)%N] => destruct (N.eqb_spec a b)
         end; cbn [andb]; try (f_equal; lia); try lia.
Qed.

Lemma b64decode_group v1 v2 v3 v4 rest :
  (v1 < 64)%N -> (v2 < 64)%N -> (v3 < 64)%N -> (v4 < 64)%N ->
  b64decode (b64_char v1 :: b64_char v2 :: b64_char v3 :: b64_char v4 :: rest)
  = (bs <- b64decode rest ;;
     Ok ([v1 * 4 + v2 / 16; v2 mod 16 * 16 + v3 / 4; v3 mod 4 * 64 + v4]
         ++ bs))%N.
Proof.
  intros H1 H2 H3 H4. cbn [b64decode].
  rewrite !b64_value_char by assumption. reflexivity.
Qed.

Lemma b64decode_encode (n : nat) : forall bs,
  (List.length bs <= n)%nat ->
  Forall (fun b => (b < 256)%N) bs ->
  b64decode (b64encode bs) = Ok bs.
Proof.
  induction n as [|n IH]; intros bs Hlen Hall.
  - destruct bs; [reflexivity | simpl in Hlen; lia].
  - destruct bs as [|a [|b [|c rest]]]; [reflexivity| | |].
    + apply Forall_cons_iff in Hall as [Ha _]. cbv beta in Ha.
      cbn [b64encode b64decode].
      rewrite !b64_value_char by lia_divmod.
      cbn. do 2 f_equal. lia_divmod.
    + apply Forall_cons_iff in Hall as [Ha Hall].
      apply Forall_cons_iff in Hall as [Hb _]. cbv beta in Ha, Hb.
      cbn [b64encode b64decode].
      rewrite !b64_value_char by lia_divmod.
      cbn. f_equal. f_equal; [|f_equal]; lia_divmod.
    + apply Forall_cons_iff in Hall as [Ha Hall].
      apply Forall_cons_iff in Hall as [Hb Hall].
      apply Forall_cons_iff in Hall as [Hc Hall]. cbv beta in Ha, Hb, Hc.
      cbn [b64encode app].
      rewrite b64decode_group by lia_divmod.
      rewrite IH; [|simpl in Hlen; lia|assumption].
      cbn [bind app]. f_equal. f_equal; [|f_equal; [|f_equal]]; lia_divmod.
Qed.

(** ** The exclusive-or mask *)

Lemma lxor_involutive b k : N.lxor (N.lxor b k) k = b.
Proof.
  now rewrite N.lxor_assoc, N.lxor_nilpotent, N.lxor_0_r.
Qed.

Lemma lxor_byte b k : (b < 256)%N -> (k < 256)%N -> (N.lxor b k < 256)%N.
Proof.
  intros Hb Hk.
  destruct (N.eq_dec (N.lxor b k) 0) as [->|Hnz]; [reflexivity|].
  change 256%N with (2 ^ 8)%N. apply N.log2_lt_pow2; [lia|].
  apply N.le_lt_trans with (N.max (N.log2 b) (N.log2 k));
    [apply N.log2_lxor|].
  assert (Hlog : forall x, (x < 256)%N -> (N.log2 x < 8)%N).
  { intros x Hx. destruct (N.eq_dec x 0) as [->|Hx0]; [reflexivity|].
    apply N.log2_lt_pow2; [lia | exact Hx]. }
  apply N.max_lub_lt; auto.
Qed.

Lemma encode_ascii (s : str) :
  Forall (fun c => (c < 128)%N) s -> encode s = Ok s.
Proof.
  induction 1 as [|c s Hc _ IH]; [reflexivity|].
  cbn [encode]. unfold utf8_encode_char.
  apply N.ltb_lt in Hc. rewrite Hc, IH. reflexivity.
Qed.

Lemma encrypt_with_key_ascii (key_int : Z) (s : str) :
  Forall (fun c => (c < 128)%N) s ->
  exists e,
    QuantumAuthTool.encrypt_with_key key_int s = Ok e /\
    spec_decrypt e = Ok s.
Proof.
  intros Hs. unfold QuantumAuthTool.encrypt_with_key.
  rewrite (encode_ascii s Hs). cbn [bind].
  set (k := Z.to_N (key_int mod 256)).
  assert (Hk : (k < 256)%N) by (subst k; lia_divmod).
  set (masked := map (fun b => N.lxor b k) s).
  assert (Hmasked : Forall (fun b => (b < 256)%N) masked).
  { subst masked. apply Forall_map.
    eapply Forall_impl; [|exact Hs]. cbv beta.
    intros c Hc. apply lxor_byte; [lia | exact Hk]. }
  assert (Hbytes : bytes masked = Ok masked).
  { unfold bytes.
    replace (forallb (fun b => (b <? 256)%N) masked) with true; [reflexivity|].
    symmetry. apply forallb_forall. rewrite Forall_forall in Hmasked.
    intros b Hb. apply N.ltb_lt, Hmasked, Hb. }
  rewrite Hbytes. cbn [bind]. eexists. split; [reflexivity|].
  unfold spec_decrypt.
  cbn [QuantumAuthTool.qkd_key_fingerprint QuantumAuthTool.ciphertext].
  rewrite int_16_hex. cbn [bind].
  rewrite (b64decode_encode _ masked (Nat.le_refl _) Hmasked). cbn [bind].
  subst masked. fold k. rewrite map_map.
  assert (Hid : map (fun x => N.lxor (N.lxor x k) k) s = s).
  { rewrite <- (map_id s) at 2. apply map_ext.
    intros b. apply lxor_involutive. }
  rewrite Hid. reflexivity.
Qed.

Lemma generated_password_ascii (drawn : nat -> nat) (length : nat) :
  Forall (fun c => (c < 128)%N)
         (QuantumAuthTool.generate_random_password drawn length).
Proof.
  unfold QuantumAuthTool.generate_random_password.
  apply Forall_map, Forall_forall. intros i _.
  set (alphabet := ascii_letters ++ digits ++ punctuation).
  assert (Halpha : Forall (fun c => (c < 128)%N) alphabet).
  { subst alphabet. vm_compute. repeat constructor. }
  destruct (nth_in_or_default (drawn i) alphabet 0%N) as [Hin| ->];
    [|reflexivity].
  rewrite Forall_forall in Halpha. exact (Halpha _ Hin).
Qed.

(** C3. For every generated replacement password and every key integer,
    reading the key back from the hexadecimal fingerprint, base64-decoding
    the ciphertext and combining each byte by exclusive or with the key
    modulo 256 gives back the replacement password; for a measured key the
    scheme is the same with the integer value of the measured bits. *)
Theorem qkd_round_trip (drawn : nat -> nat) (length : nat) (key_int : Z) :
  let password := QuantumAuthTool.generate_random_password drawn length in
  (exists e,
     QuantumAuthTool.encrypt_with_key key_int password = Ok e /\
     spec_decrypt e = Ok password) /\
  (forall key_bits,
     QuantumAuthTool.simulate_qkd_and_encrypt key_bits password
     = (k <- int_2 key_bits ;; QuantumAuthTool.encrypt_with_key k password)).
Proof.
  intros password. split; [|reflexivity].
  apply encrypt_with_key_ascii, generated_password_ascii.
Qed.

(** ** Quantum crack time *)

(** C1, as stated, fails for variant B: on the password [abcdef] the
    reported quantum crack time is not the square root of the combinations
    divided by 10^12. *)
Lemma quantum_rate_variant_B :
  exists r,
    QuantumAuthTool.analyze sample_log2 sample_isdigit sample_key_bits
      sample_drawn (lit "abcdef") = Ok r /\
    quantum_time_at (10 ^ 12)
      (PyInt (QuantumAuthTool.combinations (QuantumAuthTool.classical r)))
    <> Ok (QuantumAuthTool.quantum_crack_time_seconds
             (QuantumAuthTool.quantum r)).
Proof.
  eexists. split; [vm_compute; reflexivity|].
  vm_compute. intros H. discriminate H.
Qed.

Lemma simulate_quantum_threat_time (N q_time speedup : number) :
  QuantumAuthTool.simulate_quantum_threat N = Ok (q_time, speedup) ->
  quantum_time_at (10 ^ 8) N = Ok q_time.
Proof.
  unfold QuantumAuthTool.simulate_quantum_threat, quantum_time_at.
  intros H. inv_bind H. injection H as <- _.
  rewrite E. cbn [bind]. exact E0.
Qed.

(** C1, amended. In every report of variant A the quantum crack time is
    the formatted quotient of the square root of the combinations by the
    quantum rate of 10^12, which differs from the classical rate of 10^8.
    In every report of variant B it is the quotient of the square root of
    the combinations by 10^8, the one guess rate of that variant, which it
    also uses for the classical crack time. *)
Theorem quantum_crack_time_rate :
  (forall libm_log2 float_pow format_2e format_2f run_circuit hash
          length l u d s show r,
     QuantumPasswordAnalyzer.analyze_password
       libm_log2 float_pow format_2e format_2f run_circuit hash
       length l u d s show = Ok r ->
     exists t,
       quantum_time_at (10 ^ 12)
         (QuantumPasswordAnalyzer.classical_combinations r) = Ok t /\
       QuantumPasswordAnalyzer.format_time format_2e format_2f t
       = Ok (QuantumPasswordAnalyzer.quantum_time r)) /\
  QuantumPasswordAnalyzer.quantum_speed = 10 ^ 12 /\
  QuantumPasswordAnalyzer.classical_speed = 10 ^ 8 /\
  (forall libm_log2 unicode_isdigit key_bits drawn password r,
     QuantumAuthTool.analyze libm_log2 unicode_isdigit key_bits drawn password
     = Ok r ->
     let N := PyInt (QuantumAuthTool.combinations (QuantumAuthTool.classical r)) in
     quantum_time_at (10 ^ 8) N
     = Ok (QuantumAuthTool.quantum_crack_time_seconds
             (QuantumAuthTool.quantum r)) /\
     truediv N (PyInt (10 ^ 8))
     = Ok (QuantumAuthTool.crack_time_seconds (QuantumAuthTool.classical r))).
Proof.
  split; [|split; [reflexivity|split; [reflexivity|]]].
  - intros libm_log2 float_pow format_2e format_2f run_circuit hash
           length l u d s show r.
    unfold QuantumPasswordAnalyzer.analyze_password.
    destruct (QuantumPasswordAnalyzer.calculate_charset_size l u d s)
      as [k details].
    intros H. inv_bind H. injection H as <-.
    cbn [QuantumPasswordAnalyzer.classical_combinations
         QuantumPasswordAnalyzer.quantum_time].
    unfold QuantumPasswordAnalyzer.apply_grovers_speedup in E5.
    inv_bind E5. injection E5 as <- _.
    unfold QuantumPasswordAnalyzer.calculate_quantum_crack_time in E7.
    inv_bind E7.
    exists v10. split; [|exact E7].
    unfold quantum_time_at. rewrite E10. exact E5.
  - intros libm_log2 unicode_isdigit key_bits drawn password r.
    unfold QuantumAuthTool.analyze.
    destruct (QuantumAuthTool.detect_charsets password) as [cs A].
    intros H. inv_bind H. injection H as <-.
    cbn [QuantumAuthTool.combinations QuantumAuthTool.classical
         QuantumAuthTool.quantum QuantumAuthTool.quantum_crack_time_seconds
         QuantumAuthTool.crack_time_seconds].
    split; [|exact E1].
    eapply simulate_quantum_threat_time; eassumption.
Qed.

Lemma quantum_crack_time_rate_witness :
  (exists r t,
     QuantumPasswordAnalyzer.analyze_password
       sample_log2 sample_pow sample_format sample_format sample_circuit
       sample_hash 6 true false false false true = Ok r /\
     quantum_time_at (10 ^ 12)
       (QuantumPasswordAnalyzer.classical_combinations r) = Ok t /\
     QuantumPasswordAnalyzer.format_time sample_format sample_format t
     = Ok (QuantumPasswordAnalyzer.quantum_time r)) /\
  (exists r,
     QuantumAuthTool.analyze sample_log2 sample_isdigit sample_key_bits
       sample_drawn (lit "abcdef") = Ok r /\
     quantum_time_at (10 ^ 8)
       (PyInt (QuantumAuthTool.combinations (QuantumAuthTool.classical r)))
     = Ok (QuantumAuthTool.quantum_crack_time_seconds
             (QuantumAuthTool.quantum r))).
Proof.
  split.
  - eexists.
    assert (Hr : QuantumPasswordAnalyzer.analyze_password
       sample_log2 sample_pow sample_format sample_format sample_circuit
       sample_hash 6 true false false false true = Ok _)
      by (vm_compute; reflexivity).
    destruct (proj1 quantum_crack_time_rate _ _ _ _ _ _ _ _ _ _ _ _ _ Hr)
      as (t & Ht1 & Ht2).
    exists t. split; [exact Hr|]. split; assumption.
  - eexists. split; [vm_compute; reflexivity|].
    apply (proj2 (proj2 (proj2 quantum_crack_time_rate))
             sample_log2 sample_isdigit sample_key_bits sample_drawn
             (lit "abcdef")).
    vm_compute; reflexivity.
Defined.

(** * Further properties of the analysis code *)

(** ** Rounding to two decimals *)

Lemma round_half_even_cell num den :
  0 < den -> round_half_even num den = nearest_even (ratio_cell num den).
Proof.
  intros Hden. unfold round_half_even, ratio_cell, nearest_even. cbv zeta.
  pose proof (Z.mod_pos_bound num den Hden) as Hr.
  set (q := num / den). set (r := num mod den) in *.
  assert (Hc : forall c, 0 <= c < 4 ->
                         (4 * q + c) / 4 = q /\ (4 * q + c) mod 4 = c).
  { intros c Hc. split; lia_euclid. }
  destruct (Z.eqb_spec r 0) as [Hr0|Hr0].
  - destruct (Hc 0 ltac:(lia)) as [-> ->].
    rewrite Hr0. cbn [Z.mul].
    destruct (Z.compare_spec 0 den); [lia | reflexivity | lia].
  - destruct (Z.compare_spec (2 * r) den).
    + destruct (Hc 2 ltac:(lia)) as [-> ->]. reflexivity.
    + destruct (Hc 1 ltac:(lia)) as [-> ->]. reflexivity.
    + destruct (Hc 3 ltac:(lia)) as [-> ->]. reflexivity.
Qed.

(** The number of hundredths that [round2] keeps of a positive float. *)
Lemma round2_finite m e :
  let d := nearest_even (ratio_cell (Z.pos m * 100 * 2 ^ Z.max e 0)
                                    (2 ^ Z.max (- e) 0)) in
  0 <= d /\
  float_val (round2 (S754_finite false m e))
  = float_val (fdiv (exact_Z d) (exact_Z 100)).
Proof.
  cbv zeta.
  assert (Hd : round2 (S754_finite false m e)
               = let d := nearest_even
                            (ratio_cell (Z.pos m * 100 * 2 ^ Z.max e 0)
                                        (2 ^ Z.max (- e) 0)) in
                 if d =? 0 then S754_zero false
                 else fdiv (exact_Z d) (exact_Z 100)).
  { unfold round2. cbv zeta. cbn [cond_Zopp].
    destruct (Z.leb_spec 0 e) as [He|He].
    - rewrite (Z.max_l e 0), (Z.max_r (- e) 0) by lia.
      change (2 ^ 0) with 1. rewrite ratio_cell_int, nearest_even_exact.
      replace (Z.pos m * 2 ^ e * 100) with (Z.pos m * 100 * 2 ^ e) by ring.
      reflexivity.
    - rewrite (Z.max_r e 0), (Z.max_l (- e) 0) by lia.
      change (2 ^ 0) with 1. rewrite Z.mul_1_r.
      rewrite round_half_even_cell by (apply pow2_pos; lia).
      reflexivity. }
  rewrite Hd. cbv zeta.
  set (d := nearest_even _).
  assert (H0 : 0 <= d).
  { subst d.
    pose proof (nearest_even_bounds
                  (ratio_cell (Z.pos m * 100 * 2 ^ Z.max e 0)
                              (2 ^ Z.max (- e) 0))) as [Hlo _].
    eapply Z.le_trans; [|exact Hlo].
    apply Z.div_pos; [|lia].
    pose proof (pow2_pos (Z.max (- e) 0) ltac:(lia)) as Hb.
    pose proof (pow2_pos (Z.max e 0) ltac:(lia)) as Ha.
    eapply Z.le_trans;
      [|apply (ratio_cell_mono 0 _ _ Hb); nia].
    unfold ratio_cell. rewrite Z.mod_0_l, Z.div_0_l by lia. reflexivity. }
  split; [exact H0|].
  destruct (Z.eqb_spec d 0) as [->|Hne]; reflexivity.
Qed.

Lemma xle_zero_neg m e : ~ xle xzero (XFin (Z.neg m) e).
Proof.
  intros H. apply (xle_fin _ _ _ _ (Z.min 0 e)) in H; [|lia|lia].
  assert (0 < 2 ^ (e - Z.min 0 e)) by (apply pow2_pos; lia).
  nia.
Qed.

Lemma round2_mono x y :
  xle xzero (float_val x) -> xle (float_val x) (float_val y) ->
  xle (float_val (round2 x)) (float_val (round2 y)).
Proof.
  intros Hx Hxy.
  assert (Hnn : forall m e,
             xle xzero (float_val (round2 (S754_finite false m e)))).
  { intros m e. destruct (round2_finite m e) as [H0 ->].
    apply fdiv_int_nonneg; [exact H0 | lia]. }
  destruct x as [sx|[|]| |[|] mx ex];
    try (destruct Hx as [Hx|Hx]; discriminate Hx).
  - (* a zero *)
    destruct y as [sy|[|]| |[|] my ey];
      try (destruct Hxy as [H|H]; discriminate H).
    + exact Hxy.
    + exact Hxy.
    + exfalso. exact (xle_zero_neg my ey Hxy).
    + apply Hnn.
  - (* an infinity *)
    destruct y as [sy|[|]| |[|] my ey];
      try (destruct Hxy as [H|H]; discriminate H).
    exact Hxy.
  - exfalso. exact (xle_zero_neg mx ex Hx).
  - (* a positive float *)
    destruct y as [sy|[|]| |[|] my ey];
      try (destruct Hxy as [H|H]; discriminate H).
    + exfalso. apply (xle_zero_pos mx ex). exact Hxy.
    + change (round2 (S754_infinity false)) with (S754_infinity false).
      destruct (round2_finite mx ex) as [H0 ->].
      pose proof (fdiv_int_nonneg _ 100 H0 eq_refl) as Hq.
      destruct (fdiv _ _) as [?|[|]| |[|] ? ?];
        try (destruct Hq as [Hq|Hq]; discriminate Hq);
        first [left; reflexivity | right; reflexivity].
    + exfalso.
      apply (xle_fin _ _ _ _ (Z.min ex ey)) in Hxy; [|lia|lia].
      cbn [float_val cond_Zopp] in Hxy.
      assert (0 < 2 ^ (ex - Z.min ex ey)) by (apply pow2_pos; lia).
      assert (0 < 2 ^ (ey - Z.min ex ey)) by (apply pow2_pos; lia).
      cbn [Z.opp] in Hxy. nia.
    + destruct (round2_finite mx ex) as [H0 ->].
      destruct (round2_finite my ey) as [_ ->].
      apply fdiv_int_mono; [|lia].
      split; [exact H0|].
      apply nearest_even_mono, ratio_cell_le;
        try (apply pow2_pos; lia).
      cbn [float_val cond_Zopp] in Hxy.
      apply (xle_fin _ _ _ _ (- (Z.max (- ex) 0 + Z.max (- ey) 0))) in Hxy;
        [|lia|lia].
      replace (ex - - (Z.max (- ex) 0 + Z.max (- ey) 0))
        with (Z.max ex 0 + Z.max (- ey) 0) in Hxy by lia.
      replace (ey - - (Z.max (- ex) 0 + Z.max (- ey) 0))
        with (Z.max ey 0 + Z.max (- ex) 0) in Hxy by lia.
      rewrite !Z.pow_add_r in Hxy by lia.
      nia.
Qed.

(** ** The analysis of variant B, step by step *)

Lemma detect_charsets_range (password : str) :
  1 <= snd (QuantumAuthTool.detect_charsets password) <= 95.
Proof.
  unfold QuantumAuthTool.detect_charsets. cbn [snd].
  cbn [QuantumAuthTool.has_lowercase QuantumAuthTool.has_uppercase
       QuantumAuthTool.has_digits QuantumAuthTool.has_symbols
       QuantumAuthTool.has_whitespace].
  destruct (any _ password), (any _ password), (any _ password),
    (any _ password), (any _ password); cbn; lia.
Qed.

Lemma math_log2_int_ok (libm_log2 : float -> float) (z : Z) :
  0 < z -> exists l, math_log2 libm_log2 (PyInt z) = Ok l.
Proof.
  intros Hz. unfold math_log2.
  destruct (Z.leb_spec z 0); [lia|].
  destruct (int_to_float z); [eauto|].
  destruct (long_frexp z). eauto.
Qed.

Section AnalyzeB.

Variable libm_log2 : float -> float.
Variable unicode_isdigit : N -> bool.
Variable key_bits : str.
Variable drawn : nat -> nat.

Let analyze := QuantumAuthTool.analyze libm_log2 unicode_isdigit key_bits drawn.

(** What a report of [analyze] is made of. *)
Lemma analyze_inv (password : str) (r : QuantumAuthTool.report) :
  analyze password = Ok r ->
  let A := snd (QuantumAuthTool.detect_charsets password) in
  let L := Z.of_nat (List.length password) in
  QuantumAuthTool.length r = L /\
  QuantumAuthTool.alphabet_size r = A /\
  QuantumAuthTool.charsets_found r
  = fst (QuantumAuthTool.detect_charsets password) /\
  QuantumAuthTool.combinations (QuantumAuthTool.classical r) = A ^ L /\
  (exists l entropy,
     math_log2 libm_log2 (PyInt A) = Ok l /\
     mul (PyInt L) (PyFloat l) = Ok entropy /\
     QuantumAuthTool.entropy_bits (QuantumAuthTool.classical r)
     = QuantumAuthTool.round_number entropy /\
     QuantumAuthTool.security_classification r
     = QuantumAuthTool.classify_security entropy /\
     QuantumAuthTool.suggestions r
     = QuantumAuthTool.get_improvements unicode_isdigit password entropy) /\
  truediv (PyInt (A ^ L)) (PyInt (10 ^ 8))
  = Ok (QuantumAuthTool.crack_time_seconds (QuantumAuthTool.classical r)) /\
  (exists q_time,
     QuantumAuthTool.simulate_quantum_threat (PyInt (A ^ L))
     = Ok (q_time, QuantumAuthTool.speedup_factor (QuantumAuthTool.quantum r))
     /\ QuantumAuthTool.quantum_crack_time_seconds (QuantumAuthTool.quantum r)
        = q_time) /\
  (exists enc,
     QuantumAuthTool.simulate_qkd_and_encrypt key_bits
       (QuantumAuthTool.generate_random_password drawn 16) = Ok enc /\
     QuantumAuthTool.password_suggestions r
     = [QuantumAuthTool.passphrase (lit "Correct-Horse-Battery-Staple");
        QuantumAuthTool.random
          (QuantumAuthTool.generate_random_password drawn 16);
        QuantumAuthTool.quantum_encrypted enc]).
Proof.
  unfold analyze, QuantumAuthTool.analyze.
  destruct (QuantumAuthTool.detect_charsets password) as [cs A] eqn:Hdc.
  intros H. inv_bind H. injection H as <-. cbn.
  repeat split; eauto 10.
Qed.

Lemma simulate_quantum_threat_ok (N : Z) :
  0 <= N -> is_finite (round_Z N) = true ->
  exists q_time speedup,
    QuantumAuthTool.simulate_quantum_threat (PyInt N) = Ok (q_time, speedup).
Proof.
  intros HN Hfin. unfold QuantumAuthTool.simulate_quantum_threat.
  rewrite math_sqrt_int, Hfin by exact HN. cbn [bind].
  rewrite (truediv_float_int _ (10 ^ 8) _ eq_refl eq_refl). cbn [bind].
  destruct (gt (PyInt N) (PyInt 0)); cbn [bind]; eauto.
Qed.

Lemma simulate_quantum_threat_raise (N : Z) (e : exn) :
  0 <= N ->
  QuantumAuthTool.simulate_quantum_threat (PyInt N) = Raise e ->
  e = OverflowError.
Proof.
  intros HN. unfold QuantumAuthTool.simulate_quantum_threat.
  rewrite math_sqrt_int by exact HN.
  destruct (is_finite (round_Z N)); cbn [bind];
    [|intros H; injection H as <-; reflexivity].
  rewrite (truediv_float_int _ (10 ^ 8) _ eq_refl eq_refl). cbn [bind].
  destruct (gt (PyInt N) (PyInt 0)); cbn [bind]; discriminate.
Qed.

Lemma simulate_qkd_ok (key_int : Z) (length : nat) :
  int_2 key_bits = Ok key_int ->
  exists enc,
    QuantumAuthTool.simulate_qkd_and_encrypt key_bits
      (QuantumAuthTool.generate_random_password drawn length) = Ok enc /\
    spec_decrypt enc
    = Ok (QuantumAuthTool.generate_random_password drawn length).
Proof.
  intros Hk. unfold QuantumAuthTool.simulate_qkd_and_encrypt.
  rewrite Hk. cbn [bind].
  apply encrypt_with_key_ascii, generated_password_ascii.
Qed.

(** X1. Every password of at most 155 characters is analysed, whatever it is
    made of, once the measured key is a string of binary digits. The bound
    is the best one for all passwords: a password of 156 characters of all
    five classes raises [OverflowError]. *)
Theorem analyze_short_password :
  (forall (password : str) (key_int : Z),
     int_2 key_bits = Ok key_int ->
     (List.length password <= 155)%nat ->
     exists r, analyze password = Ok r) /\
  analyze (lit "aA1! " ++ repeat 97%N 151) = Raise OverflowError.
Proof.
  split.
  - intros password key_int Hkey Hlen.
    unfold analyze, QuantumAuthTool.analyze.
    pose proof (detect_charsets_range password) as HA.
    destruct (QuantumAuthTool.detect_charsets password) as [cs A].
    cbn [snd] in HA.
    set (L := Z.of_nat (List.length password)).
    assert (HL : 0 <= L <= 155) by (subst L; lia).
    assert (HN : 0 <= A ^ L <= 95 ^ 155).
    { split; [apply Z.pow_nonneg; lia|].
      apply Z.le_trans with (95 ^ L);
        [apply Z.pow_le_mono_l | apply Z.pow_le_mono_r]; lia. }
    destruct (math_log2_int_ok libm_log2 A ltac:(lia)) as (l & ->).
    cbn [bind].
    rewrite mul_int_float.
    rewrite (round_Z_finite_le L 155 ltac:(lia) eq_refl). cbn [bind].
    pose proof (truediv_int_ok_le (A ^ L) (95 ^ 155) (10 ^ 8) HN
                  ltac:(reflexivity) eq_refl) as Hdiv.
    change QuantumAuthTool.GUESSES_PER_SEC with (10 ^ 8).
    destruct (truediv (PyInt (A ^ L)) (PyInt (10 ^ 8)))
      as [c_time|]; [|discriminate Hdiv].
    cbn [bind].
    destruct (simulate_quantum_threat_ok (A ^ L) ltac:(lia)
                (round_Z_finite_le _ _ HN eq_refl)) as (q & s & ->).
    cbn [bind].
    destruct (simulate_qkd_ok key_int 16 Hkey) as (enc & -> & _).
    cbn [bind]. eauto.
  - unfold analyze, QuantumAuthTool.analyze.
    set (password := lit "aA1! " ++ repeat 97%N 151).
    assert (HA : snd (QuantumAuthTool.detect_charsets password) = 95)
      by (vm_compute; reflexivity).
    assert (HL : Z.of_nat (List.length password) = 156)
      by (vm_compute; reflexivity).
    destruct (QuantumAuthTool.detect_charsets password) as [cs A].
    cbn [snd] in HA. subst A. rewrite HL.
    destruct (math_log2_int_ok libm_log2 95 ltac:(lia)) as (l & ->).
    cbn [bind]. rewrite mul_int_float.
    change (is_finite (round_Z 156)) with true. cbn [bind].
    change QuantumAuthTool.GUESSES_PER_SEC with (10 ^ 8).
    rewrite truediv_int by reflexivity.
    assert (Hfin : is_finite (fdiv (exact_Z (95 ^ 156)) (exact_Z (10 ^ 8)))
                   = true) by (vm_compute; reflexivity).
    rewrite Hfin. cbn [bind].
    unfold QuantumAuthTool.simulate_quantum_threat.
    rewrite math_sqrt_int by (apply Z.pow_nonneg; lia).
    assert (Hinf : is_finite (round_Z (95 ^ 156)) = false)
      by (vm_compute; reflexivity).
    rewrite Hinf. reflexivity.
Qed.

(** X2. When the measured key is a string of binary digits, the only
    exception that [analyze] raises is [OverflowError]. *)
Theorem analyze_raises_overflow (password : str) (key_int : Z) (e : exn) :
  int_2 key_bits = Ok key_int ->
  analyze password = Raise e -> e = OverflowError.
Proof.
  intros Hkey.
  unfold analyze, QuantumAuthTool.analyze.
  pose proof (detect_charsets_range password) as HA.
  destruct (QuantumAuthTool.detect_charsets password) as [cs A].
  cbn [snd] in HA.
  set (L := Z.of_nat (List.length password)).
  destruct (math_log2_int_ok libm_log2 A ltac:(lia)) as (l & ->).
  cbn [bind]. rewrite mul_int_float.
  destruct (is_finite (round_Z L)); cbn [bind];
    [|intros H; injection H as <-; reflexivity].
  change QuantumAuthTool.GUESSES_PER_SEC with (10 ^ 8).
  rewrite truediv_int by reflexivity.
  destruct (is_finite (fdiv (exact_Z (A ^ L)) (exact_Z (10 ^ 8))));
    cbn [bind]; [|intros H; injection H as <-; reflexivity].
  destruct (QuantumAuthTool.simulate_quantum_threat (PyInt (A ^ L)))
    as [[q s]|e'] eqn:Hq; cbn [bind].
  - destruct (simulate_qkd_ok key_int 16 Hkey) as (enc & -> & _).
    cbn [bind]. discriminate.
  - intros H. injection H as <-.
    apply (simulate_quantum_threat_raise (A ^ L));
      [apply Z.pow_nonneg; lia | exact Hq].
Qed.

Lemma math_log2_alphabet (A : Z) :
  1 <= A <= 95 ->
  math_log2 libm_log2 (PyInt A) = Ok (libm_log2 (round_Z A)).
Proof.
  intros HA. unfold math_log2, int_to_float. cbv zeta.
  destruct (Z.leb_spec A 0); [lia|].
  rewrite (round_Z_finite_le A 95 ltac:(lia) eq_refl). reflexivity.
Qed.

Lemma simulate_quantum_threat_speedup (N : Z) (q_time speedup : number) :
  0 < N ->
  QuantumAuthTool.simulate_quantum_threat (PyInt N) = Ok (q_time, speedup) ->
  exists s, math_sqrt (PyInt N) = Ok s /\ speedup = PyFloat s.
Proof.
  intros HN. unfold QuantumAuthTool.simulate_quantum_threat.
  assert (Hgt : gt (PyInt N) (PyInt 0) = true).
  { unfold gt. apply lt_xlt. cbn [num_val].
    apply (xlt_fin _ _ _ _ 0); [lia|lia|]. cbn. lia. }
  rewrite Hgt. intros H. inv_bind H. injection H as _ <-.
  rewrite E in E1. cbn [bind] in E1. injection E1 as <-.
  eauto.
Qed.

(** X3. Of two analysed passwords with the same alphabet size, the longer
    one has at least as many combinations, at least the classical and the
    quantum crack time of the shorter one, and at least its speedup
    factor. *)
Theorem analyze_monotone_in_length
    (p1 p2 : str) (r1 r2 : QuantumAuthTool.report) :
  snd (QuantumAuthTool.detect_charsets p1)
  = snd (QuantumAuthTool.detect_charsets p2) ->
  (List.length p1 <= List.length p2)%nat ->
  analyze p1 = Ok r1 -> analyze p2 = Ok r2 ->
  QuantumAuthTool.combinations (QuantumAuthTool.classical r1)
  <= QuantumAuthTool.combinations (QuantumAuthTool.classical r2) /\
  le (QuantumAuthTool.crack_time_seconds (QuantumAuthTool.classical r1))
     (QuantumAuthTool.crack_time_seconds (QuantumAuthTool.classical r2))
  = true /\
  le (QuantumAuthTool.quantum_crack_time_seconds (QuantumAuthTool.quantum r1))
     (QuantumAuthTool.quantum_crack_time_seconds (QuantumAuthTool.quantum r2))
  = true /\
  le (QuantumAuthTool.speedup_factor (QuantumAuthTool.quantum r1))
     (QuantumAuthTool.speedup_factor (QuantumAuthTool.quantum r2))
  = true.
Proof.
  intros HA Hlen H1 H2.
  apply analyze_inv in H1, H2. cbv zeta in H1, H2.
  rewrite <- HA in H2.
  pose proof (detect_charsets_range p1) as HA1.
  set (A := snd (QuantumAuthTool.detect_charsets p1)) in *.
  set (L1 := Z.of_nat (List.length p1)) in *.
  set (L2 := Z.of_nat (List.length p2)) in *.
  destruct H1 as (_ & _ & _ & Hc1 & _ & Ht1 & (q1 & Hq1 & Hqt1) & _).
  destruct H2 as (_ & _ & _ & Hc2 & _ & Ht2 & (q2 & Hq2 & Hqt2) & _).
  assert (HN : 0 < A ^ L1 <= A ^ L2).
  { split; [apply Z.pow_pos_nonneg; subst L1; lia|].
    apply Z.pow_le_mono_r; subst L1 L2; lia. }
  rewrite Hc1, Hc2, Hqt1, Hqt2.
  split; [lia|]. split; [|split].
  - apply (truediv_int_mono (A ^ L1) (A ^ L2) (10 ^ 8));
      [lia | reflexivity | exact Ht1 | exact Ht2].
  - apply (quantum_time_at_mono (10 ^ 8) (A ^ L1) (A ^ L2));
      [reflexivity | lia | |];
      eapply simulate_quantum_threat_time; eassumption.
  - destruct (simulate_quantum_threat_speedup (A ^ L1) _ _ ltac:(lia) Hq1)
      as (s1 & Hs1 & ->).
    destruct (simulate_quantum_threat_speedup (A ^ L2) _ _ ltac:(lia) Hq2)
      as (s2 & Hs2 & ->).
    apply le_xle. cbn [num_val].
    apply (math_sqrt_int_mono (A ^ L1) (A ^ L2)); [lia | exact Hs1 | exact Hs2].
Qed.

(** X4. When the C library's logarithm of the alphabet size is a
    non-negative finite float, the longer of two analysed passwords with
    the same alphabet size has at least the reported entropy of the
    shorter one, and its classification is at least as high. *)
Theorem analyze_entropy_monotone_in_length
    (p1 p2 : str) (r1 r2 : QuantumAuthTool.report) (i j : nat) :
  snd (QuantumAuthTool.detect_charsets p1)
  = snd (QuantumAuthTool.detect_charsets p2) ->
  nonneg_finite
    (libm_log2 (round_Z (snd (QuantumAuthTool.detect_charsets p1)))) = true ->
  (List.length p1 <= List.length p2)%nat ->
  analyze p1 = Ok r1 -> analyze p2 = Ok r2 ->
  rank tiers_B (QuantumAuthTool.security_classification r1) = Some i ->
  rank tiers_B (QuantumAuthTool.security_classification r2) = Some j ->
  le (QuantumAuthTool.entropy_bits (QuantumAuthTool.classical r1))
     (QuantumAuthTool.entropy_bits (QuantumAuthTool.classical r2)) = true /\
  (i <= j)%nat.
Proof.
  intros HA Hlog Hlen H1 H2.
  apply analyze_inv in H1, H2. cbv zeta in H1, H2.
  rewrite <- HA in H2.
  pose proof (detect_charsets_range p1) as HA1.
  set (A := snd (QuantumAuthTool.detect_charsets p1)) in *.
  set (L1 := Z.of_nat (List.length p1)) in *.
  set (L2 := Z.of_nat (List.length p2)) in *.
  destruct H1 as (_ & _ & _ & _ & (l1 & e1 & Hl1 & He1 & -> & -> & _) & _).
  destruct H2 as (_ & _ & _ & _ & (l2 & e2 & Hl2 & He2 & -> & -> & _) & _).
  rewrite (math_log2_alphabet A HA1) in Hl1, Hl2.
  injection Hl1 as <-. injection Hl2 as <-.
  assert (HL : 0 <= L1 <= L2) by (subst L1 L2; lia).
  pose proof (mul_int_float_mono L1 L2 _ e1 e2 HL Hlog He1 He2) as Hle.
  rewrite !classify_security_rank.
  intros Hi Hj. injection Hi as <-. injection Hj as <-.
  split; [|exact (tier_of_mono [40; 60; 80; 128] e1 e2 Hle)].
  rewrite mul_int_float in He1, He2.
  destruct (is_finite (round_Z L1)) eqn:Hf1; [|discriminate He1].
  destruct (is_finite (round_Z L2)) eqn:Hf2; [|discriminate He2].
  injection He1 as <-. injection He2 as <-.
  apply le_xle in Hle. apply le_xle.
  cbn [QuantumAuthTool.round_number num_val] in *.
  apply round2_mono; [|exact Hle].
  apply fmul_nonneg; [|exact Hlog].
  apply round_Z_nonneg_finite; [lia | exact Hf1].
Qed.

End AnalyzeB.

Lemma analyze_short_password_witness :
  exists r,
    QuantumAuthTool.analyze sample_log2 sample_isdigit sample_key_bits
      sample_drawn (lit "aA1!") = Ok r.
Proof.
  apply (proj1 (analyze_short_password sample_log2 sample_isdigit
                  sample_key_bits sample_drawn) (lit "aA1!") 178);
    [reflexivity | cbn; lia].
Defined.

Lemma analyze_raises_overflow_witness :
  QuantumAuthTool.analyze sample_log2 sample_isdigit sample_key_bits
    sample_drawn (lit "aA1! " ++ repeat 97%N 151) = Raise OverflowError /\
  OverflowError = OverflowError.
Proof.
  split; [vm_compute; reflexivity|].
  apply (analyze_raises_overflow sample_log2 sample_isdigit sample_key_bits
           sample_drawn (lit "aA1! " ++ repeat 97%N 151) 178);
    [reflexivity | vm_compute; reflexivity].
Defined.

Lemma analyze_monotone_in_length_witness :
  exists r1 r2,
    QuantumAuthTool.analyze sample_log2 sample_isdigit sample_key_bits
      sample_drawn (lit "abc") = Ok r1 /\
    QuantumAuthTool.analyze sample_log2 sample_isdigit sample_key_bits
      sample_drawn (lit "zyxwvu") = Ok r2 /\
    QuantumAuthTool.combinations (QuantumAuthTool.classical r1)
    <= QuantumAuthTool.combinations (QuantumAuthTool.classical r2) /\
    le (QuantumAuthTool.crack_time_seconds (QuantumAuthTool.classical r1))
       (QuantumAuthTool.crack_time_seconds (QuantumAuthTool.classical r2))
    = true /\
    le (QuantumAuthTool.quantum_crack_time_seconds
          (QuantumAuthTool.quantum r1))
       (QuantumAuthTool.quantum_crack_time_seconds
          (QuantumAuthTool.quantum r2))
    = true /\
    le (QuantumAuthTool.speedup_factor (QuantumAuthTool.quantum r1))
       (QuantumAuthTool.speedup_factor (QuantumAuthTool.quantum r2))
    = true.
Proof.
  eexists. eexists.
  split; [vm_compute; reflexivity|].
  split; [vm_compute; reflexivity|].
  apply (analyze_monotone_in_length sample_log2 sample_isdigit
           sample_key_bits sample_drawn (lit "abc") (lit "zyxwvu"));
    [reflexivity | cbn; lia | vm_compute; reflexivity
     | vm_compute; reflexivity].
Defined.

Lemma analyze_entropy_monotone_in_length_witness :
  exists r1 r2 i j,
    QuantumAuthTool.analyze sample_log2 sample_isdigit sample_key_bits
      sample_drawn (lit "abc") = Ok r1 /\
    QuantumAuthTool.analyze sample_log2 sample_isdigit sample_key_bits
      sample_drawn (lit "zyxwvuzyxwvu") = Ok r2 /\
    rank tiers_B (QuantumAuthTool.security_classification r1) = Some i /\
    rank tiers_B (QuantumAuthTool.security_classification r2) = Some j /\
    le (QuantumAuthTool.entropy_bits (QuantumAuthTool.classical r1))
       (QuantumAuthTool.entropy_bits (QuantumAuthTool.classical r2)) = true /\
    (i <= j)%nat.
Proof.
  eexists. eexists. eexists. eexists.
  split; [vm_compute; reflexivity|].
  split; [vm_compute; reflexivity|].
  split; [vm_compute; reflexivity|].
  split; [vm_compute; reflexivity|].
  apply (analyze_entropy_monotone_in_length sample_log2 sample_isdigit
           sample_key_bits sample_drawn (lit "abc") (lit "zyxwvuzyxwvu"));
    [reflexivity | vm_compute; reflexivity | cbn; lia
     | vm_compute; reflexivity | vm_compute; reflexivity
     | vm_compute; reflexivity | vm_compute; reflexivity].
Defined.

(** ** The speedup factor of variant A *)

Lemma gt_zero_pos m e : gt (PyFloat (S754_finite false m e)) (PyInt 0) = true.
Proof.
  unfold gt. apply lt_xlt. cbn [num_val float_val cond_Zopp].
  apply (xlt_fin _ _ _ _ (Z.min 0 e)); [lia|lia|].
  assert (0 < 2 ^ (e - Z.min 0 e)) by (apply pow2_pos; lia).
  nia.
Qed.

Lemma apply_grovers_speedup_pos (N : Z) :
  0 < N -> is_finite (round_Z N) = true ->
  QuantumPasswordAnalyzer.apply_grovers_speedup (PyInt N)
  = Ok (fsqrt (round_Z N), PyFloat (fdiv (round_Z N) (fsqrt (round_Z N)))).
Proof.
  intros HN Hfin.
  unfold QuantumPasswordAnalyzer.apply_grovers_speedup.
  rewrite math_sqrt_int, Hfin by lia. cbn [bind].
  destruct (round_Z_pos N HN Hfin) as (m & e & Hr & Hcan & He).
  destruct (fsqrt_pos m e Hcan He) as (m' & e' & Hs & _ & _).
  rewrite Hr, Hs, gt_zero_pos.
  unfold truediv, to_float, int_to_float. cbv zeta.
  rewrite Hr. reflexivity.
Qed.

(** X5. On a positive number of combinations that a float can hold,
    [apply_grovers_speedup] returns the square root and the quotient of
    the combinations by it: the guard on the root never fails there. On
    zero combinations the factor is the integer 1. The quotient is not
    always the root itself. *)
Theorem apply_grovers_speedup_quotient :
  (forall N, 0 < N -> is_finite (round_Z N) = true ->
     QuantumPasswordAnalyzer.apply_grovers_speedup (PyInt N)
     = Ok (fsqrt (round_Z N),
           PyFloat (fdiv (round_Z N) (fsqrt (round_Z N))))) /\
  QuantumPasswordAnalyzer.apply_grovers_speedup (PyInt 0)
  = Ok (S754_zero false, PyInt 1) /\
  ~ (forall N, 0 < N ->
       exists q, QuantumPasswordAnalyzer.apply_grovers_speedup (PyInt N)
                 = Ok (q, PyFloat q)).
Proof.
  split; [|split].
  - exact apply_grovers_speedup_pos.
  - reflexivity.
  - intros H. destruct (H 8 ltac:(lia)) as (q & Hq).
    vm_compute in Hq. injection Hq as <- Hq. discriminate Hq.
Qed.

Lemma apply_grovers_speedup_quotient_witness :
  QuantumPasswordAnalyzer.apply_grovers_speedup (PyInt 1000000)
  = Ok (fsqrt (round_Z 1000000),
        PyFloat (fdiv (round_Z 1000000) (fsqrt (round_Z 1000000)))).
Proof.
  apply (proj1 apply_grovers_speedup_quotient 1000000);
    [lia | reflexivity].
Defined.

(** ** The analysis of variant A *)

Lemma calculate_charset_size_value (l u d s : bool) :
  fst (QuantumPasswordAnalyzer.calculate_charset_size l u d s)
  = (if l then 26 else 0) + (if u then 26 else 0)
    + (if d then 10 else 0) + (if s then 8 else 0).
Proof. destruct l, u, d, s; reflexivity. Qed.

Lemma calculate_charset_size_range (l u d s : bool) :
  l || u || d || s = true ->
  8 <= fst (QuantumPasswordAnalyzer.calculate_charset_size l u d s) <= 70.
Proof. destruct l, u, d, s; cbn; intros H; try discriminate H; lia. Qed.

Section AnalyzeA.

Variable libm_log2 : float -> float.
Variable float_pow : float -> float -> result float.
Variables format_2e format_2f : float -> str.
Variable run_circuit : Z -> result str.
Variable hash : str -> Z.

Let analyze_password :=
  QuantumPasswordAnalyzer.analyze_password
    libm_log2 float_pow format_2e format_2f run_circuit hash.

(** X6. With no character class selected, [analyze_password] returns no
    report, whatever the length; for a length that is not negative it
    raises [ValueError], from the logarithm of the empty alphabet's size
    that it prints beside the entropy. *)
Theorem analyze_password_no_charset (length : Z) (show : bool) :
  (forall r, analyze_password length false false false false show <> Ok r) /\
  (0 <= length ->
   analyze_password length false false false false show = Raise ValueError).
Proof.
  unfold analyze_password, QuantumPasswordAnalyzer.analyze_password.
  change (QuantumPasswordAnalyzer.calculate_charset_size
            false false false false) with (0, @nil str).
  cbv iota beta.
  change (math_log2 libm_log2 (PyInt 0)) with (@Raise float ValueError).
  split.
  - intros r H. inv_bind H.
    match goal with E : Raise _ = Ok _ |- _ => discriminate E end.
  - intros Hlen.
    unfold QuantumPasswordAnalyzer.calculate_classical_combinations, pow.
    destruct (Z.leb_spec 0 length) as [_|]; [|lia]. cbn [bind].
    assert (H01 : 0 ^ length = 0 \/ 0 ^ length = 1).
    { destruct (Z.eq_dec length 0) as [->|]; [right; reflexivity|].
      left. apply Z.pow_0_l. lia. }
    assert (Hfmt : format_num format_2e (PyInt (0 ^ length))
                   = Ok (format_2e (round_Z (0 ^ length)))).
    { destruct H01 as [-> | ->]; reflexivity. }
    rewrite Hfmt. cbn [bind]. reflexivity.
Qed.

(** X7. With some character class selected and a length of 342 or more,
    [analyze_password] raises [OverflowError]: the number of combinations
    is an integer that no float can hold, and it is formatted as one. *)
Theorem analyze_password_overflow (length : Z) (l u d s show : bool) :
  l || u || d || s = true -> 342 <= length ->
  analyze_password length l u d s show = Raise OverflowError.
Proof.
  intros Hflag Hlen.
  unfold analyze_password, QuantumPasswordAnalyzer.analyze_password.
  pose proof (calculate_charset_size_range l u d s Hflag) as Hk.
  destruct (QuantumPasswordAnalyzer.calculate_charset_size l u d s)
    as [k details].
  cbn [fst] in Hk.
  unfold QuantumPasswordAnalyzer.calculate_classical_combinations, pow.
  destruct (Z.leb_spec 0 length) as [_|]; [|lia]. cbn [bind].
  assert (Hinf : is_finite (round_Z (k ^ length)) = false).
  { apply (round_Z_infinite_ge (8 ^ 342)); [|reflexivity].
    split; [apply Z.pow_nonneg; lia|].
    apply Z.pow_le_mono; lia. }
  unfold format_num, to_float, int_to_float. cbv zeta.
  rewrite Hinf. reflexivity.
Qed.

(** X8. With some character class selected, a length from 0 to 167 and a
    simulator that measures a key, [analyze_password] returns a report;
    it holds the length, the size of the selected alphabet, the exact
    power as the number of combinations, its rounded square root as the
    number of quantum attempts, and the measured key. *)
Theorem analyze_password_report
    (length : Z) (l u d s show : bool) (key : str) :
  l || u || d || s = true -> 0 <= length <= 167 ->
  run_circuit (Z.min length 8) = Ok key ->
  exists r,
    analyze_password length l u d s show = Ok r /\
    QuantumPasswordAnalyzer.length r = length /\
    QuantumPasswordAnalyzer.charset_size r
    = fst (QuantumPasswordAnalyzer.calculate_charset_size l u d s) /\
    QuantumPasswordAnalyzer.classical_combinations r
    = PyInt (QuantumPasswordAnalyzer.charset_size r ^ length) /\
    QuantumPasswordAnalyzer.quantum_attempts r
    = fsqrt (round_Z (QuantumPasswordAnalyzer.charset_size r ^ length)) /\
    QuantumPasswordAnalyzer.quantum_key r = key.
Proof.
  intros Hflag Hlen Hrun.
  unfold analyze_password, QuantumPasswordAnalyzer.analyze_password.
  pose proof (calculate_charset_size_range l u d s Hflag) as Hk.
  destruct (QuantumPasswordAnalyzer.calculate_charset_size l u d s)
    as [k details].
  cbn [fst] in Hk |- *.
  unfold QuantumPasswordAnalyzer.calculate_classical_combinations, pow.
  destruct (Z.leb_spec 0 length) as [_|]; [|lia]. cbn [bind].
  assert (HN : 0 < k ^ length <= 70 ^ 167).
  { split; [apply Z.pow_pos_nonneg; lia|]. apply Z.pow_le_mono; lia. }
  set (N := k ^ length) in *.
  assert (Hfin : is_finite (round_Z N) = true).
  { apply (round_Z_finite_le N (70 ^ 167)); [lia | reflexivity]. }
  assert (Hfmt : forall fmt, format_num fmt (PyInt N) = Ok (fmt (round_Z N))).
  { intros fmt. unfold format_num, to_float, int_to_float. cbv zeta.
    rewrite Hfin. reflexivity. }
  rewrite !Hfmt. cbn [bind].
  (* the entropy *)
  unfold QuantumPasswordAnalyzer.calculate_entropy.
  destruct (Z.leb_spec k 0) as [|_]; [lia|].
  destruct (math_log2_int_ok libm_log2 k ltac:(lia)) as (lg & ->).
  cbn [bind]. rewrite mul_int_float.
  rewrite (round_Z_finite_le length 167 ltac:(lia) eq_refl).
  cbn [bind format_num to_float].
  (* the classical crack time *)
  unfold QuantumPasswordAnalyzer.calculate_classical_crack_time.
  change QuantumPasswordAnalyzer.classical_speed with (10 ^ 8).
  pose proof (truediv_int_ok_le N (70 ^ 167) (10 ^ 8) ltac:(lia)
                ltac:(reflexivity) eq_refl) as Hdiv.
  rewrite truediv_int in Hdiv |- * by reflexivity.
  destruct (is_finite (fdiv (exact_Z N) (exact_Z (10 ^ 8))));
    [|discriminate Hdiv].
  cbn [bind].
  destruct (format_time_float format_2e format_2f
              (fdiv (exact_Z N) (exact_Z (10 ^ 8))))
    as (dg1 & un1 & -> & _).
  cbn [bind].
  destruct (QuantumPasswordAnalyzer.classify_strength _) as [strength emoji].
  (* the quantum crack time *)
  rewrite (apply_grovers_speedup_pos N ltac:(lia) Hfin).
  cbn [bind format_num to_float].
  unfold QuantumPasswordAnalyzer.calculate_quantum_crack_time.
  change QuantumPasswordAnalyzer.quantum_speed with (10 ^ 12).
  rewrite (truediv_float_int _ (10 ^ 12) _ eq_refl eq_refl).
  cbn [bind].
  destruct (format_time_float format_2e format_2f
              (fdiv (fsqrt (round_Z N)) (round_Z (10 ^ 12))))
    as (dg2 & un2 & -> & _).
  cbn [bind].
  (* the key *)
  unfold QuantumPasswordAnalyzer.quantum_encrypt_password,
    QuantumPasswordAnalyzer.create_quantum_key.
  cbv zeta. rewrite Hrun. cbn [bind].
  unfold QuantumPasswordAnalyzer.print_summary.
  rewrite Hfmt. cbn [bind format_num to_float].
  eexists. split; [reflexivity|].
  cbn [QuantumPasswordAnalyzer.length QuantumPasswordAnalyzer.charset_size
       QuantumPasswordAnalyzer.classical_combinations
       QuantumPasswordAnalyzer.quantum_attempts
       QuantumPasswordAnalyzer.quantum_key].
  repeat split; reflexivity.
Qed.

End AnalyzeA.

Lemma analyze_password_no_charset_witness :
  QuantumPasswordAnalyzer.analyze_password
    sample_log2 sample_pow sample_format sample_format sample_circuit
    sample_hash 8 false false false false false = Raise ValueError.
Proof.
  apply (proj2 (analyze_password_no_charset
                  sample_log2 sample_pow sample_format sample_format
                  sample_circuit sample_hash 8 false)).
  lia.
Defined.

Lemma analyze_password_overflow_witness :
  QuantumPasswordAnalyzer.analyze_password
    sample_log2 sample_pow sample_format sample_format sample_circuit
    sample_hash 400 true true true false false = Raise OverflowError.
Proof.
  apply (analyze_password_overflow
           sample_log2 sample_pow sample_format sample_format
           sample_circuit sample_hash 400 true true true false false);
    [reflexivity | lia].
Defined.

Lemma analyze_password_report_witness :
  exists r,
    QuantumPasswordAnalyzer.analyze_password
      sample_log2 sample_pow sample_format sample_format sample_circuit
      sample_hash 12 true true true false false = Ok r /\
    QuantumPasswordAnalyzer.length r = 12 /\
    QuantumPasswordAnalyzer.charset_size r
    = fst (QuantumPasswordAnalyzer.calculate_charset_size
             true true true false) /\
    QuantumPasswordAnalyzer.classical_combinations r
    = PyInt (QuantumPasswordAnalyzer.charset_size r ^ 12) /\
    QuantumPasswordAnalyzer.quantum_attempts r
    = fsqrt (round_Z (QuantumPasswordAnalyzer.charset_size r ^ 12)) /\
    QuantumPasswordAnalyzer.quantum_key r = lit "11111111".
Proof.
  apply (analyze_password_report
           sample_log2 sample_pow sample_format sample_format
           sample_circuit sample_hash 12 true true true false false
           (lit "11111111"));
    [reflexivity | lia | reflexivity].
Defined.

(** ** The vulnerability level as a function of the quantum crack time *)

Lemma char_in_outside (c : N) (d : str) :
  is_number d = true -> char_in c number_chars = false ->
  char_in c d = false.
Proof.
  unfold is_number. intros Hd Hc. induction d as [|x d IH]; [reflexivity|].
  cbn [forallb] in Hd. apply andb_prop in Hd as [Hx Hd].
  unfold char_in in *. cbn [existsb]. rewrite (IH Hd), orb_false_r.
  destruct (N.eqb_spec c x) as [->|]; [|reflexivity].
  rewrite Hx in Hc. discriminate Hc.
Qed.

Lemma contains_outside (d u p : str) (c : N) :
  hd_error p = Some c -> char_in c d = false ->
  contains (d ++ u) p = contains u p.
Proof.
  intros Hp. destruct p as [|c' p']; [discriminate Hp|].
  injection Hp as ->.
  induction d as [|x d IH]; intros Hc; [reflexivity|].
  unfold char_in in Hc. cbn [existsb] in Hc.
  apply orb_false_elim in Hc as [Hx Hd].
  change ((x :: d) ++ u) with (x :: (d ++ u)).
  cbn [contains starts_with]. rewrite Hx. cbn [andb orb].
  rewrite (IH Hd). destruct u; reflexivity.
Qed.

Lemma assess_formatted (classical_time_str d u : str) :
  is_number d = true ->
  QuantumPasswordAnalyzer.assess_quantum_vulnerability
    classical_time_str (d ++ u)
  = QuantumPasswordAnalyzer.assess_quantum_vulnerability
      classical_time_str u.
Proof.
  intros Hd. unfold QuantumPasswordAnalyzer.assess_quantum_vulnerability.
  rewrite (contains_outside d u (lit "second") 115),
    (contains_outside d u (lit "minute") 109),
    (contains_outside d u (lit "hour") 104),
    (contains_outside d u (lit "day") 100),
    (contains_outside d u (lit "year") 121);
    try reflexivity; apply char_in_outside; (exact Hd || reflexivity).
Qed.

Lemma lt_int_trans (x : number) (a b : Z) :
  a <= b -> lt x (PyInt a) = true -> lt x (PyInt b) = true.
Proof.
  intros Hab Hx. apply lt_xlt. apply lt_xlt in Hx.
  apply (xlt_le_trans _ (num_val (PyInt a))); [exact Hx|].
  cbn [num_val]. apply (xle_fin _ _ _ _ 0); [lia|lia|]. cbn. lia.
Qed.

Section Vulnerability.

Variables format_2e format_2f : float -> str.
Hypothesis format_2e_number : forall x, is_number (format_2e x) = true.
Hypothesis format_2f_number : forall x, is_number (format_2f x) = true.

(** The vulnerability level read back from a formatted duration. *)
Lemma assess_format_time (seconds : float) (classical_time_str : str) :
  exists s,
    QuantumPasswordAnalyzer.format_time format_2e format_2f (PyFloat seconds)
    = Ok s /\
    QuantumPasswordAnalyzer.assess_quantum_vulnerability classical_time_str s
    = if lt (PyFloat seconds) (PyInt 3600) then lit "CRITICAL"
      else if lt (PyFloat seconds) (PyInt 31536000) then lit "HIGH"
      else lit "MODERATE".
Proof.
  unfold QuantumPasswordAnalyzer.format_time.
  destruct (lt (PyFloat seconds) (PyInt 60)) eqn:H60.
  { rewrite (lt_int_trans _ 60 3600 ltac:(lia) H60).
    eexists. split; [reflexivity|].
    apply assess_formatted, format_2e_number. }
  destruct (lt (PyFloat seconds) (PyInt 3600)) eqn:H3600.
  { rewrite (truediv_float_int _ 60 _ eq_refl eq_refl).
    eexists. split; [reflexivity|].
    apply assess_formatted, format_2f_number. }
  destruct (lt (PyFloat seconds) (PyInt 86400)) eqn:H86400.
  { rewrite (lt_int_trans _ 86400 31536000 ltac:(lia) H86400).
    rewrite (truediv_float_int _ 3600 _ eq_refl eq_refl).
    eexists. split; [reflexivity|].
    apply assess_formatted, format_2f_number. }
  destruct (lt (PyFloat seconds) (PyInt 31536000)) eqn:Hyear.
  { rewrite (truediv_float_int _ 86400 _ eq_refl eq_refl).
    eexists. split; [reflexivity|].
    apply assess_formatted, format_2f_number. }
  rewrite (truediv_float_int _ 31536000 _ eq_refl eq_refl).
  eexists. split; [reflexivity|].
  apply assess_formatted, format_2e_number.
Qed.

End Vulnerability.

(** ** The protected hash of variant A *)

Lemma format_04d_digits (z : Z) :
  0 <= z < 10000 ->
  List.length (format_04d z) = 4%nat /\
  forallb (fun c => char_in c digits) (format_04d z) = true.
Proof.
  intros Hz.
  set (ok := fun n : nat =>
         Nat.eqb (List.length (format_04d (Z.of_nat n))) 4
         && forallb (fun c => char_in c digits) (format_04d (Z.of_nat n))).
  assert (Hall : forallb ok (seq 0 (Z.to_nat 10000)) = true)
    by (vm_compute; reflexivity).
  rewrite forallb_forall in Hall.
  specialize (Hall (Z.to_nat z)).
  unfold ok in Hall. rewrite Z2Nat.id in Hall by lia.
  apply andb_prop in Hall as [Hlen Hdig]; [|apply in_seq; lia].
  split; [apply Nat.eqb_eq; exact Hlen | exact Hdig].
Qed.

(** X9. When the simulator measures a key, [quantum_encrypt_password]
    returns that key and a hash made of the prefix QKD-, the key, a dash
    and exactly four decimal digits; the register has as many qubits as
    the password has characters, and at most eight. *)
Theorem quantum_encrypt_password_shape
    (run_circuit : Z -> result str) (hash : str -> Z)
    (password_length : Z) (key : str) :
  run_circuit (Z.min password_length 8) = Ok key ->
  exists check,
    QuantumPasswordAnalyzer.quantum_encrypt_password
      run_circuit hash password_length
    = Ok (lit "QKD-" ++ key ++ lit "-" ++ check, key,
          Z.min password_length 8) /\
    List.length check = 4%nat /\
    forallb (fun c => char_in c digits) check = true /\
    Z.min password_length 8 <= 8.
Proof.
  intros Hrun.
  unfold QuantumPasswordAnalyzer.quantum_encrypt_password,
    QuantumPasswordAnalyzer.create_quantum_key.
  cbv zeta. rewrite Hrun. cbn [bind].
  exists (format_04d (hash key mod 10000)).
  split; [reflexivity|].
  destruct (format_04d_digits (hash key mod 10000)) as [Hlen Hdig];
    [apply Z.mod_pos_bound; lia|].
  repeat split; [exact Hlen | exact Hdig | lia].
Qed.

Lemma quantum_encrypt_password_shape_witness :
  exists check,
    QuantumPasswordAnalyzer.quantum_encrypt_password
      sample_circuit sample_hash 12
    = Ok (lit "QKD-" ++ lit "11111111" ++ lit "-" ++ check, lit "11111111",
          Z.min 12 8) /\
    List.length check = 4%nat /\
    forallb (fun c => char_in c digits) check = true /\
    Z.min 12 8 <= 8.
Proof.
  apply (quantum_encrypt_password_shape sample_circuit sample_hash 12
           (lit "11111111")).
  reflexivity.
Defined.

(** ** Character classes and advice in variant B *)

(** X10. The alphabet size of a concatenation is at least that of either
    part and at most their sum, never more than 95, and the same in either
    order. *)
Theorem detect_charsets_app (p q : str) :
  let size := fun s => snd (QuantumAuthTool.detect_charsets s) in
  Z.max (size p) (size q) <= size (p ++ q) <= size p + size q /\
  size (p ++ q) <= 95 /\
  size (p ++ q) = size (q ++ p).
Proof.
  cbv zeta. unfold QuantumAuthTool.detect_charsets.
  cbn [snd QuantumAuthTool.has_lowercase QuantumAuthTool.has_uppercase
       QuantumAuthTool.has_digits QuantumAuthTool.has_symbols
       QuantumAuthTool.has_whitespace].
  unfold any. rewrite !existsb_app.
  destruct (existsb (fun c => char_in c ascii_lowercase) p),
    (existsb (fun c => char_in c ascii_lowercase) q),
    (existsb (fun c => char_in c ascii_uppercase) p),
    (existsb (fun c => char_in c ascii_uppercase) q),
    (existsb (fun c => char_in c digits) p),
    (existsb (fun c => char_in c digits) q),
    (existsb (fun c => char_in c punctuation) p),
    (existsb (fun c => char_in c punctuation) q),
    (existsb (fun c => char_in c whitespace) p),
    (existsb (fun c => char_in c whitespace) q);
    cbn [orb]; lia.
Qed.

Lemma char_in_digits (c : N) :
  char_in c digits = ((48 <=? c) && (c <=? 57))%N.
Proof.
  unfold char_in, digits. cbn [Nrange existsb N.succ Pos.succ].
  repeat match goal with
         | |- context [N.eqb c ?k] =>
             destruct (N.eqb_spec c k) as [->|]; [reflexivity|]
         end.
  cbn [orb]. symmetry.
  destruct (N.leb_spec 48 c), (N.leb_spec c 57); try reflexivity. lia.
Qed.

Section Advice.

Variable unicode_isdigit : N -> bool.

Let get_improvements := QuantumAuthTool.get_improvements unicode_isdigit.
Let isdigit := QuantumAuthTool.isdigit unicode_isdigit.

Lemma get_improvements_eq (password : str) (entropy : number) :
  get_improvements password entropy
  = (if Z.of_nat (List.length password) <? 12
     then [lit "Increase length to at least 12 characters."] else [])
    ++ (if negb (any isdigit password)
        then [lit "Include numbers (0-9)."] else [])
    ++ (if negb (any (fun c => char_in c punctuation) password)
        then [lit "Add special symbols (e.g., @, #, $)."] else [])
    ++ (if lt entropy (PyInt 60)
        then [lit "Current entropy is low; use a passphrase of 4+ random words."]
        else []).
Proof.
  unfold get_improvements, QuantumAuthTool.get_improvements, isdigit.
  destruct (Z.of_nat (List.length password) <? 12),
    (negb (any (QuantumAuthTool.isdigit unicode_isdigit) password)),
    (negb (any (fun c => char_in c punctuation) password)),
    (lt entropy (PyInt 60)); reflexivity.
Qed.

Lemma in_improvements (password : str) (entropy : number) (m : str) :
  In m (get_improvements password entropy) <->
  ((Z.of_nat (List.length password) <? 12) = true /\
   lit "Increase length to at least 12 characters." = m) \/
  (any isdigit password = false /\ lit "Include numbers (0-9)." = m) \/
  (any (fun c => char_in c punctuation) password = false /\
   lit "Add special symbols (e.g., @, #, $)." = m) \/
  (lt entropy (PyInt 60) = true /\
   lit "Current entropy is low; use a passphrase of 4+ random words." = m).
Proof.
  rewrite get_improvements_eq, !in_app_iff.
  destruct (Z.of_nat (List.length password) <? 12),
    (any isdigit password),
    (any (fun c => char_in c punctuation) password),
    (lt entropy (PyInt 60));
    cbn [negb In]; intuition discriminate.
Qed.

Lemma isdigit_of_digit (password : str) :
  any (fun c => char_in c digits) password = true ->
  any isdigit password = true.
Proof.
  unfold any. rewrite !existsb_exists. intros (c & Hin & Hc).
  exists c. split; [exact Hin|].
  rewrite char_in_digits in Hc. apply andb_prop in Hc as [H1 H2].
  unfold isdigit, QuantumAuthTool.isdigit.
  destruct (N.ltb_spec c 128) as [_|Hge];
    [rewrite H1, H2; reflexivity|].
  apply N.leb_le in H2. lia.
Qed.

Lemma isdigit_ascii (password : str) :
  Forall (fun c => (c < 128)%N) password ->
  any isdigit password = any (fun c => char_in c digits) password.
Proof.
  unfold any. induction 1 as [|c password Hc _ IH]; [reflexivity|].
  cbn [existsb]. rewrite IH. f_equal.
  unfold isdigit, QuantumAuthTool.isdigit.
  destruct (N.ltb_spec c 128) as [_|]; [|lia].
  symmetry. apply char_in_digits.
Qed.

(** X11. The advice agrees with the character classes found: symbols are
    asked for exactly when the password has none; digits are never asked
    for when it has an ASCII digit, and for a password of ASCII characters
    they are asked for exactly when it has none. No advice at all is given
    exactly to a password of twelve characters or more with a digit, a
    symbol and an entropy not below 60. *)
Theorem get_improvements_consistent (password : str) (entropy : number) :
  let found := fst (QuantumAuthTool.detect_charsets password) in
  (In (lit "Add special symbols (e.g., @, #, $).")
      (get_improvements password entropy)
   <-> QuantumAuthTool.has_symbols found = false) /\
  (QuantumAuthTool.has_digits found = true ->
   ~ In (lit "Include numbers (0-9).") (get_improvements password entropy)) /\
  (Forall (fun c => (c < 128)%N) password ->
   (In (lit "Include numbers (0-9).") (get_improvements password entropy)
    <-> QuantumAuthTool.has_digits found = false)) /\
  (get_improvements password entropy = [] <->
   12 <= Z.of_nat (List.length password) /\
   any isdigit password = true /\
   QuantumAuthTool.has_symbols found = true /\
   lt entropy (PyInt 60) = false).
Proof.
  cbv zeta. unfold QuantumAuthTool.detect_charsets.
  cbn [fst QuantumAuthTool.has_symbols QuantumAuthTool.has_digits].
  assert (Hdigits :
            In (lit "Include numbers (0-9).")
               (get_improvements password entropy)
            <-> any isdigit password = false).
  { rewrite in_improvements.
    split; [|intros H; right; left; split; [exact H | reflexivity]].
    intros [[_ H]|[[H _]|[[_ H]|[_ H]]]];
      [discriminate H | exact H | discriminate H | discriminate H]. }
  split; [|split; [|split]].
  - rewrite in_improvements.
    split; [|intros H; right; right; left; split; [exact H | reflexivity]].
    intros [[_ H]|[[_ H]|[[H _]|[_ H]]]];
      [discriminate H | discriminate H | exact H | discriminate H].
  - intros Hd Hin. apply Hdigits in Hin.
    rewrite (isdigit_of_digit password Hd) in Hin. discriminate Hin.
  - intros Hascii. rewrite Hdigits, (isdigit_ascii password Hascii).
    reflexivity.
  - rewrite get_improvements_eq.
    destruct (Z.ltb_spec (Z.of_nat (List.length password)) 12),
      (any isdigit password),
      (any (fun c => char_in c punctuation) password),
      (lt entropy (PyInt 60));
      cbn [negb app]; split;
      try discriminate; try (intros _; reflexivity);
      try (intros (? & ? & ? & ?); try discriminate; lia).
    intros _. repeat split; lia.
Qed.

End Advice.

Lemma get_improvements_consistent_witness :
  In (lit "Include numbers (0-9).")
     (QuantumAuthTool.get_improvements sample_isdigit (lit "abc!")
        (PyInt 0))
  <-> QuantumAuthTool.has_digits
        (fst (QuantumAuthTool.detect_charsets (lit "abc!"))) = false.
Proof.
  apply (proj1 (proj2 (proj2 (get_improvements_consistent
                                sample_isdigit (lit "abc!") (PyInt 0))))).
  repeat constructor.
Defined.

(** ** The suggested password and its encryption *)

Lemma b64encode_length_le (n : nat) : forall bs,
  (List.length bs <= n)%nat ->
  List.length (b64encode bs) = (4 * ((List.length bs + 2) / 3))%nat.
Proof.
  induction n as [|n IH]; intros bs Hlen.
  - destruct bs; [reflexivity | cbn in Hlen; lia].
  - destruct bs as [|a [|b [|c rest]]]; try reflexivity.
    cbn [b64encode]. rewrite length_app.
    cbn [List.length] in Hlen |- *.
    rewrite IH by lia.
    replace (S (S (S (List.length rest))) + 2)%nat
      with ((List.length rest + 2) + 1 * 3)%nat by lia.
    rewrite Nat.div_add by lia. lia.
Qed.

Lemma b64encode_length (bs : list N) :
  List.length (b64encode bs) = (4 * ((List.length bs + 2) / 3))%nat.
Proof. apply (b64encode_length_le (List.length bs)), Nat.le_refl. Qed.

Lemma utf8_encode_char_cases (c : N) :
  (is_surrogate c = true /\ utf8_encode_char c = Raise UnicodeEncodeError) \/
  (is_surrogate c = false /\
   exists b, utf8_encode_char c = Ok b /\
             ((c < 0x110000)%N -> Forall (fun x => (x < 256)%N) b)).
Proof.
  unfold utf8_encode_char, is_surrogate.
  destruct (N.ltb_spec c 0x80).
  { right. split; [|eexists; split; [reflexivity|]].
    - destruct (N.leb_spec 0xD800 c); [lia | reflexivity].
    - intros _. repeat constructor. lia. }
  destruct (N.ltb_spec c 0x800).
  { right. split; [|eexists; split; [reflexivity|]].
    - destruct (N.leb_spec 0xD800 c); [lia | reflexivity].
    - intros _. repeat constructor; lia_divmod. }
  destruct (N.ltb_spec c 0x10000).
  { destruct ((0xD800 <=? c)%N && (c <? 0xE000)%N);
      [left; split; reflexivity|].
    right. split; [reflexivity|]. eexists; split; [reflexivity|].
    intros _. repeat constructor; lia_divmod. }
  right. split.
  - destruct (N.ltb_spec c 0xE000); [lia|]. apply andb_false_r.
  - eexists; split; [reflexivity|].
    intros Hc. repeat constructor; lia_divmod.
Qed.

Lemma encode_valid (s : str) :
  Forall (fun c => (c < 0x110000)%N) s ->
  existsb is_surrogate s = false ->
  exists plain, encode s = Ok plain /\ Forall (fun b => (b < 256)%N) plain.
Proof.
  induction 1 as [|c s Hc _ IH]; intros Hs.
  - exists []. split; [reflexivity | constructor].
  - cbn [existsb] in Hs. apply orb_false_elim in Hs as [Hsc Hss].
    destruct (IH Hss) as (plain & Hp & Hb).
    destruct (utf8_encode_char_cases c) as [[Hsur _]|(_ & b & Hb1 & Hb2)];
      [rewrite Hsur in Hsc; discriminate Hsc|].
    exists (b ++ plain). cbn [encode]. rewrite Hb1, Hp. cbn [bind].
    split; [reflexivity|]. apply Forall_app. split; [apply Hb2, Hc | exact Hb].
Qed.

Lemma encode_surrogate (s : str) :
  existsb is_surrogate s = true -> encode s = Raise UnicodeEncodeError.
Proof.
  induction s as [|c s IH]; intros Hs; [discriminate Hs|].
  cbn [existsb] in Hs. cbn [encode].
  destruct (utf8_encode_char_cases c) as [[_ ->]|(Hsur & b & -> & _)];
    [reflexivity|].
  rewrite Hsur in Hs. cbn [orb] in Hs. rewrite (IH Hs). reflexivity.
Qed.

Lemma encrypt_with_key_bytes (key_int : Z) (s plain : str) :
  encode s = Ok plain -> Forall (fun b => (b < 256)%N) plain ->
  exists e,
    QuantumAuthTool.encrypt_with_key key_int s = Ok e /\
    QuantumAuthTool.ciphertext e
    = b64encode (map (fun b => N.lxor b (Z.to_N (key_int mod 256))) plain) /\
    QuantumAuthTool.qkd_key_fingerprint e = hex key_int /\
    spec_decrypt e = Ok plain.
Proof.
  intros Hs Hplain. unfold QuantumAuthTool.encrypt_with_key.
  rewrite Hs. cbn [bind].
  set (k := Z.to_N (key_int mod 256)).
  assert (Hk : (k < 256)%N) by (subst k; lia_divmod).
  set (masked := map (fun b => N.lxor b k) plain).
  assert (Hmasked : Forall (fun b => (b < 256)%N) masked).
  { subst masked. apply Forall_map.
    eapply Forall_impl; [|exact Hplain]. cbv beta.
    intros c Hc. apply lxor_byte; [exact Hc | exact Hk]. }
  assert (Hbytes : bytes masked = Ok masked).
  { unfold bytes.
    replace (forallb (fun b => (b <? 256)%N) masked) with true; [reflexivity|].
    symmetry. apply forallb_forall. rewrite Forall_forall in Hmasked.
    intros b Hb. apply N.ltb_lt, Hmasked, Hb. }
  rewrite Hbytes. cbn [bind]. eexists. split; [reflexivity|].
  split; [reflexivity|]. split; [reflexivity|].
  unfold spec_decrypt.
  cbn [QuantumAuthTool.qkd_key_fingerprint QuantumAuthTool.ciphertext].
  rewrite int_16_hex. cbn [bind].
  rewrite (b64decode_encode _ masked (Nat.le_refl _) Hmasked). cbn [bind].
  subst masked. fold k. rewrite map_map.
  assert (Hid : map (fun x => N.lxor (N.lxor x k) k) plain = plain).
  { rewrite <- (map_id plain) at 2. apply map_ext.
    intros b. apply lxor_involutive. }
  rewrite Hid. reflexivity.
Qed.

(** X12. On any string of code points, given a measured key of binary
    digits: a string without surrogates is encrypted, the ciphertext has
    four characters for every three bytes of the UTF-8 encoding, rounded
    up, and decrypting it gives those bytes back; a string with a
    surrogate raises [UnicodeEncodeError]. *)
Theorem simulate_qkd_and_encrypt_unicode
    (key_bits : str) (key_int : Z) (suggestion : str) :
  int_2 key_bits = Ok key_int ->
  Forall (fun c => (c < 0x110000)%N) suggestion ->
  (existsb is_surrogate suggestion = false ->
   exists e plain,
     QuantumAuthTool.simulate_qkd_and_encrypt key_bits suggestion = Ok e /\
     encode suggestion = Ok plain /\
     spec_decrypt e = Ok plain /\
     List.length (QuantumAuthTool.ciphertext e)
     = (4 * ((List.length plain + 2) / 3))%nat) /\
  (existsb is_surrogate suggestion = true ->
   QuantumAuthTool.simulate_qkd_and_encrypt key_bits suggestion
   = Raise UnicodeEncodeError).
Proof.
  intros Hkey Hvalid.
  unfold QuantumAuthTool.simulate_qkd_and_encrypt. rewrite Hkey. cbn [bind].
  split.
  - intros Hs. destruct (encode_valid suggestion Hvalid Hs) as (plain & Hp & Hb).
    destruct (encrypt_with_key_bytes key_int suggestion plain Hp Hb)
      as (e & He & Hc & _ & Hd).
    exists e, plain. split; [exact He|].
    split; [exact Hp|]. split; [exact Hd|].
    rewrite Hc, b64encode_length, length_map. reflexivity.
  - intros Hs. unfold QuantumAuthTool.encrypt_with_key.
    rewrite (encode_surrogate suggestion Hs). reflexivity.
Qed.

Lemma simulate_qkd_and_encrypt_unicode_witness :
  exists e plain,
    QuantumAuthTool.simulate_qkd_and_encrypt sample_key_bits
      [0x70; 0xE9; 0x20AC; 0x1F511]%N = Ok e /\
    encode [0x70; 0xE9; 0x20AC; 0x1F511]%N = Ok plain /\
    spec_decrypt e = Ok plain /\
    List.length (QuantumAuthTool.ciphertext e)
    = (4 * ((List.length plain + 2) / 3))%nat.
Proof.
  apply (proj1 (simulate_qkd_and_encrypt_unicode sample_key_bits 178
                  [0x70; 0xE9; 0x20AC; 0x1F511]%N eq_refl
                  ltac:(repeat constructor))).
  reflexivity.
Defined.

Lemma lxor_0_map (l : list N) : map (fun b => N.lxor b 0) l = l.
Proof.
  rewrite <- (map_id l) at 2. apply map_ext. intros b. apply N.lxor_0_r.
Qed.

(** X13. When the measured key is a multiple of 256, and so when all its
    eight bits are zero, the ciphertext is the plain base64 form of the
    suggestion's bytes. *)
Theorem simulate_qkd_and_encrypt_zero_key
    (key_bits : str) (key_int : Z) (suggestion plain : str) :
  int_2 key_bits = Ok key_int -> key_int mod 256 = 0 ->
  encode suggestion = Ok plain -> Forall (fun b => (b < 256)%N) plain ->
  QuantumAuthTool.simulate_qkd_and_encrypt key_bits suggestion
  = Ok {| QuantumAuthTool.ciphertext := b64encode plain;
          QuantumAuthTool.qkd_key_fingerprint := hex key_int |}.
Proof.
  intros Hkey Hzero Hp Hb.
  unfold QuantumAuthTool.simulate_qkd_and_encrypt. rewrite Hkey. cbn [bind].
  destruct (encrypt_with_key_bytes key_int suggestion plain Hp Hb)
    as (e & -> & Hc & Hf & _).
  rewrite Hzero in Hc. change (Z.to_N 0) with 0%N in Hc.
  rewrite lxor_0_map in Hc.
  destruct e as [c f]. cbn in Hc, Hf. rewrite Hc, Hf. reflexivity.
Qed.

Lemma simulate_qkd_and_encrypt_zero_key_witness :
  QuantumAuthTool.simulate_qkd_and_encrypt (lit "00000000") (lit "Secret1!")
  = Ok {| QuantumAuthTool.ciphertext := b64encode (lit "Secret1!");
          QuantumAuthTool.qkd_key_fingerprint := hex 0 |}.
Proof.
  apply (simulate_qkd_and_encrypt_zero_key (lit "00000000") 0
           (lit "Secret1!") (lit "Secret1!"));
    [reflexivity | reflexivity | reflexivity | repeat constructor].
Defined.

(** ** The random suggestion *)

Lemma printable_not_whitespace (c : N) :
  (33 <= c)%N -> char_in c whitespace = false.
Proof.
  intros Hc. unfold char_in, whitespace. cbn [existsb].
  repeat match goal with
         | |- context [N.eqb c ?k] =>
             destruct (N.eqb_spec c k) as [->|]; [lia|]
         end.
  reflexivity.
Qed.

(** X14. [generate_random_password] returns as many characters as asked
    for. When every draw is an index into the alphabet of 94 letters,
    digits and symbols, each character is a printable ASCII character
    other than the blank, so the password has no whitespace and an
    alphabet size of at most 94. *)
Theorem generate_random_password_alphabet (drawn : nat -> nat) (length : nat) :
  let password := QuantumAuthTool.generate_random_password drawn length in
  List.length password = length /\
  ((forall i, (drawn i < 94)%nat) ->
   Forall (fun c => (33 <= c <= 126)%N) password /\
   QuantumAuthTool.has_whitespace
     (fst (QuantumAuthTool.detect_charsets password)) = false /\
   snd (QuantumAuthTool.detect_charsets password) <= 94).
Proof.
  cbv zeta. split.
  { unfold QuantumAuthTool.generate_random_password.
    rewrite length_map, length_seq. reflexivity. }
  intros Hdrawn.
  assert (Hprint : Forall (fun c => (33 <= c <= 126)%N)
                     (QuantumAuthTool.generate_random_password drawn length)).
  { unfold QuantumAuthTool.generate_random_password.
    apply Forall_map, Forall_forall. intros i _.
    set (alphabet := ascii_letters ++ digits ++ punctuation).
    assert (Halpha : forallb (fun c => (33 <=? c) && (c <=? 126))%N alphabet
                     = true) by reflexivity.
    rewrite forallb_forall in Halpha.
    assert (Hin : In (nth (drawn i) alphabet 0%N) alphabet).
    { apply nth_In. exact (Hdrawn i). }
    apply Halpha in Hin. apply andb_prop in Hin as [H1 H2].
    apply N.leb_le in H1, H2. lia. }
  split; [exact Hprint|].
  assert (Hws : any (fun c => char_in c whitespace)
                  (QuantumAuthTool.generate_random_password drawn length)
                = false).
  { unfold any. induction Hprint as [|c l Hc _ IH]; [reflexivity|].
    cbn [existsb]. rewrite IH, printable_not_whitespace by lia.
    reflexivity. }
  unfold QuantumAuthTool.detect_charsets.
  cbn [fst snd QuantumAuthTool.has_lowercase QuantumAuthTool.has_uppercase
       QuantumAuthTool.has_digits QuantumAuthTool.has_symbols
       QuantumAuthTool.has_whitespace].
  rewrite Hws. split; [reflexivity|].
  clear Hws Hprint.
  destruct (any (fun c => char_in c ascii_lowercase) _),
    (any (fun c => char_in c ascii_uppercase) _),
    (any (fun c => char_in c digits) _),
    (any (fun c => char_in c punctuation) _); cbn; lia.
Qed.

Lemma generate_random_password_alphabet_witness :
  Forall (fun c => (33 <= c <= 126)%N)
    (QuantumAuthTool.generate_random_password sample_drawn 16) /\
  QuantumAuthTool.has_whitespace
    (fst (QuantumAuthTool.detect_charsets
            (QuantumAuthTool.generate_random_password sample_drawn 16)))
  = false /\
  snd (QuantumAuthTool.detect_charsets
         (QuantumAuthTool.generate_random_password sample_drawn 16)) <= 94.
Proof.
  apply (proj2 (generate_random_password_alphabet sample_drawn 16)).
  intros i. unfold sample_drawn. apply Nat.mod_upper_bound. discriminate.
Defined.

(** ** What a report of variant B holds *)

Section ReportB.

Variable libm_log2 : float -> float.
Variable unicode_isdigit : N -> bool.
Variable key_bits : str.
Variable drawn : nat -> nat.

Let analyze := QuantumAuthTool.analyze libm_log2 unicode_isdigit key_bits drawn.

(** X15. A report counts the combinations exactly: the alphabet size, from
    1 to 95, to the power of the password's length. Its entropy is the
    float product of the length and the C library's logarithm of the
    alphabet size, both converted without error, rounded to two
    decimals. *)
Theorem analyze_arithmetic (password : str) (r : QuantumAuthTool.report) :
  analyze password = Ok r ->
  let A := QuantumAuthTool.alphabet_size r in
  let L := QuantumAuthTool.length r in
  L = Z.of_nat (List.length password) /\
  1 <= A <= 95 /\
  QuantumAuthTool.combinations (QuantumAuthTool.classical r) = A ^ L /\
  QuantumAuthTool.entropy_bits (QuantumAuthTool.classical r)
  = PyFloat (round2 (fmul (round_Z L) (libm_log2 (round_Z A)))) /\
  le (PyFloat (round_Z A)) (PyInt A) = true /\
  le (PyInt A) (PyFloat (round_Z A)) = true /\
  (L < 2 ^ 53 ->
   le (PyFloat (round_Z L)) (PyInt L) = true /\
   le (PyInt L) (PyFloat (round_Z L)) = true).
Proof.
  intros H. apply analyze_inv in H. cbv zeta in H |- *.
  destruct H as (HL & HA & _ & HN & (l & e & Hl & He & Hent & _) & _).
  pose proof (detect_charsets_range password) as Hrange.
  rewrite HA, HL, HN, Hent.
  set (A := snd (QuantumAuthTool.detect_charsets password)) in *.
  set (L := Z.of_nat (List.length password)) in *.
  rewrite (math_log2_alphabet libm_log2 A Hrange) in Hl.
  injection Hl as <-.
  rewrite mul_int_float in He.
  destruct (is_finite (round_Z L)); [|discriminate He].
  injection He as <-.
  split; [reflexivity|]. split; [exact Hrange|]. split; [reflexivity|].
  split; [reflexivity|].
  assert (Hexact : forall z, 0 <= z < 2 ^ 53 ->
            le (PyFloat (round_Z z)) (PyInt z) = true /\
            le (PyInt z) (PyFloat (round_Z z)) = true).
  { intros z Hz. destruct (round_Z_exact z Hz) as (_ & H1 & H2).
    split; apply le_xle; assumption. }
  destruct (Hexact A ltac:(lia)) as [H1 H2].
  split; [exact H1|]. split; [exact H2|].
  intros Hsmall. apply Hexact. subst L. lia.
Qed.

(** X16. The three password suggestions of a report do not depend on the
    analysed password: the fixed passphrase, the random password of 16
    characters, and the encryption of that same random password, whose
    ciphertext has 24 characters and decrypts to it. *)
Theorem analyze_password_suggestions
    (password : str) (r : QuantumAuthTool.report) :
  analyze password = Ok r ->
  exists enc,
    QuantumAuthTool.password_suggestions r
    = [QuantumAuthTool.passphrase (lit "Correct-Horse-Battery-Staple");
       QuantumAuthTool.random
         (QuantumAuthTool.generate_random_password drawn 16);
       QuantumAuthTool.quantum_encrypted enc] /\
    QuantumAuthTool.simulate_qkd_and_encrypt key_bits
      (QuantumAuthTool.generate_random_password drawn 16) = Ok enc /\
    spec_decrypt enc = Ok (QuantumAuthTool.generate_random_password drawn 16) /\
    List.length (QuantumAuthTool.ciphertext enc) = 24%nat.
Proof.
  intros H. apply analyze_inv in H. cbv zeta in H.
  destruct H as (_ & _ & _ & _ & _ & _ & _ & (enc & Henc & Hsug)).
  exists enc. split; [exact Hsug|]. split; [exact Henc|].
  unfold QuantumAuthTool.simulate_qkd_and_encrypt in Henc.
  destruct (int_2 key_bits) as [key_int|]; [|discriminate Henc].
  cbn [bind] in Henc.
  set (pw := QuantumAuthTool.generate_random_password drawn 16) in *.
  pose proof (generated_password_ascii drawn 16) as Hascii. fold pw in Hascii.
  assert (Hbytes : Forall (fun b => (b < 256)%N) pw).
  { eapply Forall_impl; [|exact Hascii]. cbv beta. intros; lia. }
  destruct (encrypt_with_key_bytes key_int pw pw (encode_ascii pw Hascii)
              Hbytes) as (e & He & Hc & _ & Hd).
  rewrite He in Henc. injection Henc as <-.
  split; [exact Hd|].
  rewrite Hc, b64encode_length, length_map.
  subst pw. unfold QuantumAuthTool.generate_random_password.
  rewrite length_map, length_seq. reflexivity.
Qed.

(** X17. A report advises a passphrase exactly when it classifies the
    password as Very Weak or Weak. *)
Theorem analyze_low_entropy_advice
    (password : str) (r : QuantumAuthTool.report) :
  analyze password = Ok r ->
  (In (lit "Current entropy is low; use a passphrase of 4+ random words.")
      (QuantumAuthTool.suggestions r)
   <-> QuantumAuthTool.security_classification r = lit "Very Weak" \/
       QuantumAuthTool.security_classification r = lit "Weak").
Proof.
  intros H. apply analyze_inv in H. cbv zeta in H.
  destruct H as (_ & _ & _ & _ & (l & e & _ & _ & _ & -> & ->) & _).
  rewrite in_improvements.
  unfold QuantumAuthTool.classify_security.
  destruct (lt e (PyInt 40)) eqn:H40.
  { rewrite (lt_int_trans e 40 60 ltac:(lia) H40).
    split; [intros _; left; reflexivity|].
    intros _. right. right. right. split; reflexivity. }
  destruct (lt e (PyInt 60)) eqn:H60.
  { split; [intros _; right; reflexivity|].
    intros _. right. right. right. split; reflexivity. }
  split.
  - intros [[_ H]|[[_ H]|[[_ H]|[H _]]]]; discriminate H.
  - destruct (lt e (PyInt 80)), (lt e (PyInt 128));
      intros [H|H]; discriminate H.
Qed.

(** X18. A password without any ASCII letter, digit, symbol or blank, a
    password in another script for instance, is reported with an alphabet
    size of 1 and a single combination whatever its length; when the C
    library's logarithm of 1 is zero, it is classified as Very Weak. *)
Theorem analyze_unclassified (password : str) (r : QuantumAuthTool.report) :
  Forall (fun c => (128 <= c)%N) password ->
  analyze password = Ok r ->
  QuantumAuthTool.alphabet_size r = 1 /\
  QuantumAuthTool.combinations (QuantumAuthTool.classical r) = 1 /\
  (libm_log2 float_one = S754_zero false ->
   QuantumAuthTool.security_classification r = lit "Very Weak").
Proof.
  intros Hhigh.
  assert (Hnone : forall set,
            forallb (fun c => (c <? 128)%N) set = true ->
            any (fun c => char_in c set) password = false).
  { intros set Hset. unfold any.
    induction Hhigh as [|c p Hc _ IH]; [reflexivity|].
    cbn [existsb]. rewrite IH, orb_false_r.
    unfold char_in. rewrite forallb_forall in Hset.
    destruct (existsb (N.eqb c) set) eqn:Hex; [|reflexivity].
    apply existsb_exists in Hex as (x & Hin & Heq).
    apply N.eqb_eq in Heq. subst x.
    pose proof (Hset c Hin) as Hlt. apply N.ltb_lt in Hlt. lia. }
  intros H. apply analyze_inv in H. cbv zeta in H.
  destruct H as (_ & HA & _ & HN & (l & e & Hl & He & _ & Hcls & _) & _).
  assert (Hsize : snd (QuantumAuthTool.detect_charsets password) = 1).
  { unfold QuantumAuthTool.detect_charsets.
    cbn [snd QuantumAuthTool.has_lowercase QuantumAuthTool.has_uppercase
         QuantumAuthTool.has_digits QuantumAuthTool.has_symbols
         QuantumAuthTool.has_whitespace].
    rewrite !Hnone by reflexivity. reflexivity. }
  rewrite Hsize in *.
  split; [exact HA|]. split; [rewrite HN; apply Z.pow_1_l; lia|].
  intros Hlog. rewrite Hcls.
  rewrite (math_log2_alphabet libm_log2 1 ltac:(lia)) in Hl.
  change (round_Z 1) with float_one in Hl. rewrite Hlog in Hl.
  assert (Hzero : l = S754_zero false) by congruence.
  rewrite Hzero in He.
  rewrite mul_int_float in He.
  destruct (is_finite (round_Z (Z.of_nat (List.length password)))) eqn:Hfin;
    [|discriminate He].
  injection He as <-.
  pose proof (round_Z_nonneg_finite _ (Nat2Z.is_nonneg _) Hfin) as Hnn.
  destruct (round_Z (Z.of_nat (List.length password))) as [s|s| |[|] m ex];
    try discriminate Hnn; reflexivity.
Qed.

End ReportB.

Lemma analyze_arithmetic_witness :
  exists r,
    QuantumAuthTool.analyze sample_log2 sample_isdigit sample_key_bits
      sample_drawn (lit "abcdef") = Ok r /\
    QuantumAuthTool.combinations (QuantumAuthTool.classical r)
    = QuantumAuthTool.alphabet_size r ^ QuantumAuthTool.length r.
Proof.
  eexists. split; [vm_compute; reflexivity|].
  apply (analyze_arithmetic sample_log2 sample_isdigit sample_key_bits
           sample_drawn (lit "abcdef")).
  vm_compute; reflexivity.
Defined.

Lemma analyze_password_suggestions_witness :
  exists r enc,
    QuantumAuthTool.analyze sample_log2 sample_isdigit sample_key_bits
      sample_drawn (lit "abcdef") = Ok r /\
    QuantumAuthTool.password_suggestions r
    = [QuantumAuthTool.passphrase (lit "Correct-Horse-Battery-Staple");
       QuantumAuthTool.random
         (QuantumAuthTool.generate_random_password sample_drawn 16);
       QuantumAuthTool.quantum_encrypted enc] /\
    QuantumAuthTool.simulate_qkd_and_encrypt sample_key_bits
      (QuantumAuthTool.generate_random_password sample_drawn 16) = Ok enc /\
    spec_decrypt enc
    = Ok (QuantumAuthTool.generate_random_password sample_drawn 16) /\
    List.length (QuantumAuthTool.ciphertext enc) = 24%nat.
Proof.
  eexists.
  assert (H : QuantumAuthTool.analyze sample_log2 sample_isdigit
                sample_key_bits sample_drawn (lit "abcdef") = Ok _)
    by (vm_compute; reflexivity).
  destruct (analyze_password_suggestions sample_log2 sample_isdigit
              sample_key_bits sample_drawn (lit "abcdef") _ H)
    as (enc & Hsug).
  exists enc. split; [exact H | exact Hsug].
Defined.

Lemma analyze_low_entropy_advice_witness :
  exists r,
    QuantumAuthTool.analyze sample_log2 sample_isdigit sample_key_bits
      sample_drawn (lit "abcdef") = Ok r /\
    (In (lit "Current entropy is low; use a passphrase of 4+ random words.")
        (QuantumAuthTool.suggestions r)
     <-> QuantumAuthTool.security_classification r = lit "Very Weak" \/
         QuantumAuthTool.security_classification r = lit "Weak").
Proof.
  eexists. split; [vm_compute; reflexivity|].
  apply (analyze_low_entropy_advice sample_log2 sample_isdigit
           sample_key_bits sample_drawn (lit "abcdef")).
  vm_compute; reflexivity.
Defined.

Lemma analyze_unclassified_witness :
  exists r,
    QuantumAuthTool.analyze sample_log2 sample_isdigit sample_key_bits
      sample_drawn [0x43F; 0x430; 0x440; 0x43E; 0x43B; 0x44C]%N = Ok r /\
    QuantumAuthTool.alphabet_size r = 1 /\
    QuantumAuthTool.combinations (QuantumAuthTool.classical r) = 1 /\
    (sample_log2 float_one = S754_zero false ->
     QuantumAuthTool.security_classification r = lit "Very Weak").
Proof.
  eexists. split; [vm_compute; reflexivity|].
  apply (analyze_unclassified sample_log2 sample_isdigit sample_key_bits
           sample_drawn [0x43F; 0x430; 0x440; 0x43E; 0x43B; 0x44C]%N);
    [repeat constructor; discriminate | vm_compute; reflexivity].
Defined.

(** ** The durations printed by variant B *)

Lemma xle_or_xlt_fin a e b e' :
  xle (XFin a e) (XFin b e') \/ xlt (XFin b e') (XFin a e).
Proof.
  destruct (Z.le_gt_cases (a * 2 ^ (e - Z.min e e'))
                          (b * 2 ^ (e' - Z.min e e'))) as [H|H].
  - left. apply (xle_fin _ _ _ _ (Z.min e e')); [lia | lia | exact H].
  - right. apply (xlt_fin _ _ _ _ (Z.min e e')); [lia | lia | exact H].
Qed.

(** The integer part of a positive float against an integer bound. *)
Lemma truncation_bounds (m : positive) (e T : Z) :
  let n := if 0 <=? e then Z.pos m * 2 ^ e else Z.pos m / 2 ^ (- e) in
  (T <= n <-> xle (XFin T 0) (XFin (Z.pos m) e)) /\
  (xle (XFin (Z.pos m) e) (XFin T 0) -> n <= T).
Proof.
  cbv zeta. destruct (Z.leb_spec 0 e) as [He|He].
  - rewrite (xle_fin T 0 (Z.pos m) e 0), (xle_fin (Z.pos m) e T 0 0) by lia.
    rewrite !Z.sub_0_r. change (2 ^ 0) with 1. rewrite !Z.mul_1_r.
    split; [reflexivity | auto].
  - rewrite (xle_fin T 0 (Z.pos m) e e), (xle_fin (Z.pos m) e T 0 e) by lia.
    rewrite !Z.sub_diag. change (2 ^ 0) with 1. rewrite !Z.mul_1_r.
    replace (0 - e) with (- e) by lia.
    pose proof (pow2_pos (- e) ltac:(lia)) as Hd.
    set (d := 2 ^ (- e)) in *.
    pose proof (Z.div_mod (Z.pos m) d ltac:(lia)) as Hdm.
    pose proof (Z.mod_pos_bound (Z.pos m) d Hd) as Hmod.
    split; [split|]; intros H; nia.
Qed.

Section FormatTimeB.

Variable format_2e : float -> str.

(** X19. [format_time] of variant B on a float that is neither below 1
    nor above 10^15: from 86400 * 10^9 seconds on, where the days no
    longer fit a [timedelta], and on not-a-number, the handler of the
    [try] block answers with the seconds in scientific notation; below,
    the answer is the clock form of the integer part of the seconds. *)
Theorem format_time_fallback (x : float) :
  lt (PyFloat x) (PyInt 1) = false ->
  gt (PyFloat x) (PyInt (10 ^ 15)) = false ->
  (is_nan x = true \/ le (PyInt (86400 * 10 ^ 9)) (PyFloat x) = true ->
   QuantumAuthTool.format_time format_2e (PyFloat x)
   = Ok (format_2e x ++ lit " seconds")) /\
  (is_nan x = false -> le (PyInt (86400 * 10 ^ 9)) (PyFloat x) = false ->
   exists n,
     float_to_int x = Ok n /\ 1 <= n < 86400 * 10 ^ 9 /\
     QuantumAuthTool.format_time format_2e (PyFloat x)
     = Ok (timedelta_str (n / 86400, n mod 86400))).
Proof.
  intros H1 H2. unfold QuantumAuthTool.format_time. rewrite H1, H2.
  unfold QuantumAuthTool.clock, to_int.
  destruct x as [s|[|]| |[|] m e]; try discriminate H1; try discriminate H2.
  - (* not a number *)
    split; [reflexivity | discriminate].
  - (* negative *)
    exfalso. assert (Hlt : lt (PyFloat (S754_finite true m e)) (PyInt 1) = true).
    { apply lt_xlt. cbn [num_val float_val cond_Zopp].
      apply (xlt_fin _ _ _ _ (Z.min e 0)); [lia|lia|].
      assert (0 < 2 ^ (e - Z.min e 0)) by (apply pow2_pos; lia).
      assert (0 < 2 ^ (0 - Z.min e 0)) by (apply pow2_pos; lia).
      nia. }
    rewrite Hlt in H1. discriminate H1.
  - (* positive *)
    cbn [float_to_int cond_Zopp bind].
    set (n := if 0 <=? e then Z.pos m * 2 ^ e else Z.pos m / 2 ^ (- e)).
    assert (Hlow : 1 <= n).
    { apply (truncation_bounds m e 1).
      destruct (xle_or_xlt_fin 1 0 (Z.pos m) e) as [H|H]; [exact H|].
      apply (lt_xlt (PyFloat (S754_finite false m e)) (PyInt 1)) in H.
      rewrite H in H1. discriminate H1. }
    assert (Hhigh : n <= 10 ^ 15).
    { apply (truncation_bounds m e (10 ^ 15)).
      destruct (xle_or_xlt_fin (Z.pos m) e (10 ^ 15) 0) as [H|H]; [exact H|].
      apply (lt_xlt (PyInt (10 ^ 15)) (PyFloat (S754_finite false m e))) in H.
      unfold gt in H2. rewrite H in H2. discriminate H2. }
    assert (Hbound : le (PyInt (86400 * 10 ^ 9))
                        (PyFloat (S754_finite false m e)) = true
                     <-> 86400 * 10 ^ 9 <= n).
    { rewrite le_xle. cbn [num_val float_val cond_Zopp].
      symmetry. apply (truncation_bounds m e (86400 * 10 ^ 9)). }
    unfold timedelta. cbv zeta. rewrite Z.gtb_ltb.
    split.
    + intros [Hnan|Hle]; [discriminate Hnan|].
      apply Hbound in Hle.
      destruct (Z.ltb_spec 999999999 (Z.abs (n / 86400))) as [_|Hd];
        [reflexivity|].
      exfalso. revert Hd Hle. clear. intros.
      rewrite Z.abs_eq in Hd by (apply Z.div_pos; lia).
      Z.to_euclidean_division_equations; lia.
    + intros _ Hle. exists n. split; [reflexivity|].
      assert (Hn : n < 86400 * 10 ^ 9).
      { destruct (Z.lt_ge_cases n (86400 * 10 ^ 9)) as [H|H]; [exact H|].
        apply Hbound in H. rewrite H in Hle. discriminate Hle. }
      split; [lia|].
      destruct (Z.ltb_spec 999999999 (Z.abs (n / 86400))) as [Hd|_];
        [|reflexivity].
      exfalso. revert Hd Hn Hlow. clear. intros.
      rewrite Z.abs_eq in Hd by (apply Z.div_pos; lia).
      Z.to_euclidean_division_equations; lia.
Qed.

End FormatTimeB.

Lemma format_time_fallback_witness :
  QuantumAuthTool.format_time sample_format (PyFloat (round_Z (10 ^ 14)))
  = Ok (sample_format (round_Z (10 ^ 14)) ++ lit " seconds") /\
  exists n,
    float_to_int (round_Z 90061) = Ok n /\ 1 <= n < 86400 * 10 ^ 9 /\
    QuantumAuthTool.format_time sample_format (PyFloat (round_Z 90061))
    = Ok (timedelta_str (n / 86400, n mod 86400)).
Proof.
  split.
  - apply (proj1 (format_time_fallback sample_format (round_Z (10 ^ 14))
                    eq_refl eq_refl)).
    right. reflexivity.
  - apply (proj2 (format_time_fallback sample_format (round_Z 90061)
                    eq_refl eq_refl)); reflexivity.
Defined.

Section PrintableB.

Variable libm_log2 : float -> float.
Variable unicode_isdigit : N -> bool.
Variable key_bits : str.
Variable drawn : nat -> nat.
Variable format_2e : float -> str.

Lemma format_time_float_ok (x : float) :
  exists s, QuantumAuthTool.format_time format_2e (PyFloat x) = Ok s.
Proof.
  unfold QuantumAuthTool.format_time.
  destruct (lt (PyFloat x) (PyInt 1)); [eauto|].
  destruct (gt (PyFloat x) (PyInt (10 ^ 15))); [eauto|].
  destruct (QuantumAuthTool.clock (PyFloat x)); [eauto|].
  eexists. reflexivity.
Qed.

(** X20. What [print_summary] formats of a report of [analyze] can be
    formatted: the number of combinations is an integer that a float can
    hold, and both crack times are floats, on which [format_time] does not
    raise. *)
Theorem analyze_report_printable
    (password : str) (r : QuantumAuthTool.report) :
  QuantumAuthTool.analyze libm_log2 unicode_isdigit key_bits drawn password
  = Ok r ->
  format_num format_2e
    (PyInt (QuantumAuthTool.combinations (QuantumAuthTool.classical r)))
  = Ok (format_2e
          (round_Z (QuantumAuthTool.combinations
                      (QuantumAuthTool.classical r)))) /\
  (exists s,
     QuantumAuthTool.format_time format_2e
       (QuantumAuthTool.crack_time_seconds (QuantumAuthTool.classical r))
     = Ok s) /\
  (exists s,
     QuantumAuthTool.format_time format_2e
       (QuantumAuthTool.quantum_crack_time_seconds (QuantumAuthTool.quantum r))
     = Ok s).
Proof.
  intros H. apply analyze_inv in H. cbv zeta in H.
  destruct H as (_ & _ & _ & HN & _ & Ht & (q & Hq & Hqt) & _).
  rewrite HN, Hqt.
  pose proof (detect_charsets_range password) as HA.
  set (A := snd (QuantumAuthTool.detect_charsets password)) in *.
  set (L := Z.of_nat (List.length password)) in *.
  assert (HN0 : 0 < A ^ L) by (apply Z.pow_pos_nonneg; subst L; lia).
  unfold QuantumAuthTool.simulate_quantum_threat in Hq.
  rewrite math_sqrt_int in Hq by lia.
  destruct (is_finite (round_Z (A ^ L))) eqn:Hfin; [|discriminate Hq].
  cbn [bind] in Hq.
  rewrite (truediv_float_int _ (10 ^ 8) _ eq_refl eq_refl) in Hq.
  cbn [bind] in Hq.
  split; [|split].
  - unfold format_num, to_float, int_to_float. cbv zeta.
    rewrite Hfin. reflexivity.
  - rewrite truediv_int in Ht by reflexivity.
    destruct (is_finite (fdiv (exact_Z (A ^ L)) (exact_Z (10 ^ 8))));
      [|discriminate Ht].
    assert (Hc : QuantumAuthTool.crack_time_seconds (QuantumAuthTool.classical r)
                 = PyFloat (fdiv (exact_Z (A ^ L)) (exact_Z (10 ^ 8))))
      by congruence.
    rewrite Hc. apply format_time_float_ok.
  - destruct (gt (PyInt (A ^ L)) (PyInt 0)); cbn [bind] in Hq;
      assert (Hc : q = PyFloat (fdiv (fsqrt (round_Z (A ^ L)))
                                     (round_Z (10 ^ 8))))
        by congruence;
      rewrite Hc; apply format_time_float_ok.
Qed.

End PrintableB.

Lemma analyze_report_printable_witness :
  exists r,
    QuantumAuthTool.analyze sample_log2 sample_isdigit sample_key_bits
      sample_drawn (lit "abcdef") = Ok r /\
    exists s,
      QuantumAuthTool.format_time sample_format
        (QuantumAuthTool.crack_time_seconds (QuantumAuthTool.classical r))
      = Ok s.
Proof.
  eexists. split; [vm_compute; reflexivity|].
  apply (analyze_report_printable sample_log2 sample_isdigit sample_key_bits
           sample_drawn sample_format (lit "abcdef")).
  vm_compute; reflexivity.
Defined.

(** ** What a report of variant A holds *)

Section ReportA.

Variable libm_log2 : float -> float.
Variable float_pow : float -> float -> result float.
Variables format_2e format_2f : float -> str.
Variable run_circuit : Z -> result str.
Variable hash : str -> Z.

Let analyze_password :=
  QuantumPasswordAnalyzer.analyze_password
    libm_log2 float_pow format_2e format_2f run_circuit hash.

Lemma analyze_password_inv
    (length : Z) (l u d s show : bool) (r : QuantumPasswordAnalyzer.report) :
  analyze_password length l u d s show = Ok r -> 0 <= length ->
  let k := fst (QuantumPasswordAnalyzer.calculate_charset_size l u d s) in
  8 <= k <= 70 /\
  is_finite (round_Z (k ^ length)) = true /\
  QuantumPasswordAnalyzer.length r = length /\
  QuantumPasswordAnalyzer.charset_size r = k /\
  QuantumPasswordAnalyzer.classical_combinations r = PyInt (k ^ length) /\
  QuantumPasswordAnalyzer.calculate_entropy libm_log2 k length
  = Ok (QuantumPasswordAnalyzer.entropy r) /\
  QuantumPasswordAnalyzer.classical_strength r
  = fst (QuantumPasswordAnalyzer.classify_strength
           (QuantumPasswordAnalyzer.entropy r)) /\
  QuantumPasswordAnalyzer.quantum_attempts r = fsqrt (round_Z (k ^ length)) /\
  QuantumPasswordAnalyzer.format_time format_2e format_2f
    (PyFloat (quantum_seconds (k ^ length)))
  = Ok (QuantumPasswordAnalyzer.quantum_time r) /\
  QuantumPasswordAnalyzer.quantum_vulnerability r
  = QuantumPasswordAnalyzer.assess_quantum_vulnerability
      (QuantumPasswordAnalyzer.classical_time r)
      (QuantumPasswordAnalyzer.quantum_time r).
Proof.
  intros H Hlen. cbv zeta.
  unfold analyze_password, QuantumPasswordAnalyzer.analyze_password in H.
  pose proof (calculate_charset_size_value l u d s) as Hk.
  destruct (QuantumPasswordAnalyzer.calculate_charset_size l u d s)
    as [k details].
  cbn [fst] in Hk |- *.
  unfold QuantumPasswordAnalyzer.calculate_classical_combinations, pow in H.
  destruct (Z.leb_spec 0 length) as [_|]; [|lia]. cbn [bind] in H.
  apply bind_ok in H as (fmt & Hfmt & H).
  apply bind_ok in H as (entropy & Hent & H).
  apply bind_ok in H as (fmt2 & _ & H).
  apply bind_ok in H as (lg & Hlg & H).
  apply bind_ok in H as (ctime & _ & H).
  destruct (QuantumPasswordAnalyzer.classify_strength entropy)
    as [strength emoji] eqn:Hcls.
  apply bind_ok in H as ([qa speedup] & Hgrover & H).
  apply bind_ok in H as (fmt3 & _ & H).
  apply bind_ok in H as (qtime & Hqtime & H).
  apply bind_ok in H as ([[qhash qkey] circuit] & _ & H).
  apply bind_ok in H as (u0 & _ & H).
  assert (Hr : r = {| QuantumPasswordAnalyzer.length := length;
                      QuantumPasswordAnalyzer.charset_size := k;
                      QuantumPasswordAnalyzer.classical_combinations :=
                        PyInt (k ^ length);
                      QuantumPasswordAnalyzer.entropy := entropy;
                      QuantumPasswordAnalyzer.classical_time := ctime;
                      QuantumPasswordAnalyzer.quantum_attempts := qa;
                      QuantumPasswordAnalyzer.quantum_time := qtime;
                      QuantumPasswordAnalyzer.classical_strength := strength;
                      QuantumPasswordAnalyzer.quantum_vulnerability :=
                        QuantumPasswordAnalyzer.assess_quantum_vulnerability
                          ctime qtime;
                      QuantumPasswordAnalyzer.quantum_hash := qhash;
                      QuantumPasswordAnalyzer.quantum_key := qkey |})
    by congruence.
  clear H. subst r.
  cbn [QuantumPasswordAnalyzer.length QuantumPasswordAnalyzer.charset_size
       QuantumPasswordAnalyzer.classical_combinations
       QuantumPasswordAnalyzer.entropy QuantumPasswordAnalyzer.classical_time
       QuantumPasswordAnalyzer.quantum_attempts
       QuantumPasswordAnalyzer.quantum_time
       QuantumPasswordAnalyzer.classical_strength
       QuantumPasswordAnalyzer.quantum_vulnerability].
  assert (Hk8 : 8 <= k <= 70).
  { unfold math_log2 in Hlg.
    destruct (Z.leb_spec k 0) as [Hk0|Hk0]; [discriminate Hlg|].
    destruct l, u, d, s; cbn in Hk; lia. }
  assert (Hfin : is_finite (round_Z (k ^ length)) = true).
  { unfold format_num, to_float, int_to_float in Hfmt. cbv zeta in Hfmt.
    destruct (is_finite (round_Z (k ^ length))); [reflexivity|].
    discriminate Hfmt. }
  assert (HN : 0 < k ^ length) by (apply Z.pow_pos_nonneg; lia).
  rewrite (apply_grovers_speedup_pos (k ^ length) HN Hfin) in Hgrover.
  assert (Hqa : qa = fsqrt (round_Z (k ^ length))) by congruence.
  subst qa.
  unfold QuantumPasswordAnalyzer.calculate_quantum_crack_time in Hqtime.
  change QuantumPasswordAnalyzer.quantum_speed with (10 ^ 12) in Hqtime.
  rewrite (truediv_float_int _ (10 ^ 12) _ eq_refl eq_refl) in Hqtime.
  cbn [bind] in Hqtime.
  rewrite Hcls.
  repeat split; try assumption; try reflexivity; lia.
Qed.

Hypothesis format_2e_number : forall x, is_number (format_2e x) = true.
Hypothesis format_2f_number : forall x, is_number (format_2f x) = true.

Lemma quantum_seconds_mono (a b : Z) :
  0 <= a <= b ->
  is_finite (round_Z a) = true -> is_finite (round_Z b) = true ->
  le (PyFloat (quantum_seconds a)) (PyFloat (quantum_seconds b)) = true.
Proof.
  intros Hab Ha Hb.
  apply (quantum_time_at_mono (10 ^ 12) a b); [reflexivity | exact Hab | |];
    unfold quantum_time_at; rewrite math_sqrt_int by lia;
    [rewrite Ha | rewrite Hb]; cbn [bind];
    apply (truediv_float_int _ (10 ^ 12) _ eq_refl eq_refl).
Qed.

(** X21. When the float formatter writes numbers only, the vulnerability
    level of a report is CRITICAL when the square root of the combinations
    over 10^12 is below one hour, HIGH from there to below one year of 365
    days, and MODERATE from there on. It is CRITICAL for every length up
    to 16, whatever classes are selected. *)
Theorem analyze_password_vulnerability
    (length : Z) (l u d s show : bool) (r : QuantumPasswordAnalyzer.report) :
  analyze_password length l u d s show = Ok r -> 0 <= length ->
  let seconds :=
    PyFloat (quantum_seconds (QuantumPasswordAnalyzer.charset_size r ^ length))
  in
  QuantumPasswordAnalyzer.quantum_vulnerability r
  = (if lt seconds (PyInt 3600) then lit "CRITICAL"
     else if lt seconds (PyInt 31536000) then lit "HIGH"
     else lit "MODERATE") /\
  (length <= 16 ->
   QuantumPasswordAnalyzer.quantum_vulnerability r = lit "CRITICAL").
Proof.
  intros H Hlen. cbv zeta.
  apply analyze_password_inv in H; [|exact Hlen]. cbv zeta in H.
  destruct H as (Hk & Hfin & _ & -> & _ & _ & _ & _ & Hfmt & ->).
  set (k := fst (QuantumPasswordAnalyzer.calculate_charset_size l u d s)) in *.
  destruct (assess_format_time format_2e format_2f
              format_2e_number format_2f_number
              (quantum_seconds (k ^ length))
              (QuantumPasswordAnalyzer.classical_time r))
    as (s0 & Hs0 & Hassess).
  rewrite Hfmt in Hs0. injection Hs0 as <-.
  split; [exact Hassess|].
  intros H16. rewrite Hassess.
  assert (HN : 0 <= k ^ length <= 70 ^ 16).
  { split; [apply Z.pow_nonneg; lia|]. apply Z.pow_le_mono; lia. }
  pose proof (quantum_seconds_mono (k ^ length) (70 ^ 16) HN Hfin eq_refl)
    as Hle.
  rewrite (le_lt_trans _ _ (PyInt 3600) Hle); [reflexivity|].
  vm_compute. reflexivity.
Qed.

(** X22. With the same classes selected, the longer of two analysed
    lengths has at least as many combinations, and, when the float
    formatter writes numbers only, its vulnerability level is the same or
    a milder one. *)
Theorem analyze_password_monotone_in_length
    (n1 n2 : Z) (l u d s show1 show2 : bool)
    (r1 r2 : QuantumPasswordAnalyzer.report) (c1 c2 : Z) (i j : nat) :
  0 <= n1 <= n2 ->
  analyze_password n1 l u d s show1 = Ok r1 ->
  analyze_password n2 l u d s show2 = Ok r2 ->
  QuantumPasswordAnalyzer.classical_combinations r1 = PyInt c1 ->
  QuantumPasswordAnalyzer.classical_combinations r2 = PyInt c2 ->
  rank vulnerability_levels (QuantumPasswordAnalyzer.quantum_vulnerability r1)
  = Some i ->
  rank vulnerability_levels (QuantumPasswordAnalyzer.quantum_vulnerability r2)
  = Some j ->
  c1 <= c2 /\ (i <= j)%nat.
Proof.
  intros Hn H1 H2.
  pose proof H1 as V1. pose proof H2 as V2.
  apply analyze_password_vulnerability in V1; [|lia].
  apply analyze_password_vulnerability in V2; [|lia].
  cbv zeta in V1, V2. destruct V1 as [V1 _]. destruct V2 as [V2 _].
  apply analyze_password_inv in H1; [|lia].
  apply analyze_password_inv in H2; [|lia].
  cbv zeta in H1, H2.
  destruct H1 as (Hk & Hfin1 & _ & Hk1 & Hc1 & _).
  destruct H2 as (_ & Hfin2 & _ & Hk2 & Hc2 & _).
  rewrite Hk1 in V1. rewrite Hk2 in V2.
  set (k := fst (QuantumPasswordAnalyzer.calculate_charset_size l u d s)) in *.
  assert (HN : 0 <= k ^ n1 <= k ^ n2).
  { split; [apply Z.pow_nonneg; lia|]. apply Z.pow_le_mono_r; lia. }
  rewrite Hc1, Hc2. intros E1 E2. injection E1 as <-. injection E2 as <-.
  intros Hi Hj. split; [lia|].
  pose proof (quantum_seconds_mono (k ^ n1) (k ^ n2) HN Hfin1 Hfin2) as Hle.
  rewrite V1 in Hi. rewrite V2 in Hj. revert Hi Hj.
  destruct (lt (PyFloat (quantum_seconds (k ^ n2))) (PyInt 3600)) eqn:L2.
  { rewrite (le_lt_trans _ _ _ Hle L2).
    intros Hi Hj. injection Hi as <-. injection Hj as <-. lia. }
  destruct (lt (PyFloat (quantum_seconds (k ^ n2))) (PyInt 31536000)) eqn:Y2.
  { rewrite (le_lt_trans _ _ _ Hle Y2).
    destruct (lt (PyFloat (quantum_seconds (k ^ n1))) (PyInt 3600));
      intros Hi Hj; injection Hi as <-; injection Hj as <-; lia. }
  destruct (lt (PyFloat (quantum_seconds (k ^ n1))) (PyInt 3600));
    [|destruct (lt (PyFloat (quantum_seconds (k ^ n1))) (PyInt 31536000))];
    intros Hi Hj; injection Hi as <-; injection Hj as <-; lia.
Qed.

(** X23. When the C library's logarithm of the alphabet size is a
    non-negative finite float, the longer of two analysed lengths with the
    same classes selected has at least the entropy of the shorter one, and
    its strength is at least as high. *)
Theorem analyze_password_entropy_monotone
    (n1 n2 : Z) (l u d s show1 show2 : bool)
    (r1 r2 : QuantumPasswordAnalyzer.report) (i j : nat) :
  0 <= n1 <= n2 ->
  nonneg_finite
    (libm_log2
       (round_Z (fst (QuantumPasswordAnalyzer.calculate_charset_size
                        l u d s)))) = true ->
  analyze_password n1 l u d s show1 = Ok r1 ->
  analyze_password n2 l u d s show2 = Ok r2 ->
  rank tiers_A (QuantumPasswordAnalyzer.classical_strength r1) = Some i ->
  rank tiers_A (QuantumPasswordAnalyzer.classical_strength r2) = Some j ->
  le (QuantumPasswordAnalyzer.entropy r1) (QuantumPasswordAnalyzer.entropy r2)
  = true /\
  (i <= j)%nat.
Proof.
  intros Hn Hlog H1 H2.
  apply analyze_password_inv in H1; [|lia].
  apply analyze_password_inv in H2; [|lia].
  cbv zeta in H1, H2.
  destruct H1 as (Hk & _ & _ & _ & _ & He1 & -> & _).
  destruct H2 as (_ & _ & _ & _ & _ & He2 & -> & _).
  set (k := fst (QuantumPasswordAnalyzer.calculate_charset_size l u d s)) in *.
  unfold QuantumPasswordAnalyzer.calculate_entropy in He1, He2.
  destruct (Z.leb_spec k 0) as [|_]; [lia|].
  rewrite (math_log2_alphabet libm_log2 k ltac:(lia)) in He1, He2.
  cbn [bind] in He1, He2.
  pose proof (mul_int_float_mono n1 n2 _ _ _ Hn Hlog He1 He2) as Hle.
  rewrite !classify_strength_rank.
  intros Hi Hj. injection Hi as <-. injection Hj as <-.
  split; [exact Hle|].
  exact (tier_of_mono [40; 60; 80] _ _ Hle).
Qed.

End ReportA.

Lemma analyze_password_vulnerability_witness :
  exists r,
    QuantumPasswordAnalyzer.analyze_password
      sample_log2 sample_pow sample_format sample_format sample_circuit
      sample_hash 12 true true true true false = Ok r /\
    QuantumPasswordAnalyzer.quantum_vulnerability r = lit "CRITICAL".
Proof.
  eexists. split; [vm_compute; reflexivity|].
  apply (analyze_password_vulnerability
           sample_log2 sample_pow sample_format sample_format
           sample_circuit sample_hash (fun x => eq_refl) (fun x => eq_refl)
           12 true true true true false);
    [vm_compute; reflexivity | lia | lia].
Defined.

Lemma analyze_password_monotone_in_length_witness :
  exists r1 r2 c1 c2 i j,
    QuantumPasswordAnalyzer.analyze_password
      sample_log2 sample_pow sample_format sample_format sample_circuit
      sample_hash 8 true true true true false = Ok r1 /\
    QuantumPasswordAnalyzer.analyze_password
      sample_log2 sample_pow sample_format sample_format sample_circuit
      sample_hash 20 true true true true false = Ok r2 /\
    QuantumPasswordAnalyzer.classical_combinations r1 = PyInt c1 /\
    QuantumPasswordAnalyzer.classical_combinations r2 = PyInt c2 /\
    rank vulnerability_levels
      (QuantumPasswordAnalyzer.quantum_vulnerability r1) = Some i /\
    rank vulnerability_levels
      (QuantumPasswordAnalyzer.quantum_vulnerability r2) = Some j /\
    c1 <= c2 /\ (i <= j)%nat.
Proof.
  do 6 eexists.
  split; [vm_compute; reflexivity|].
  split; [vm_compute; reflexivity|].
  split; [vm_compute; reflexivity|].
  split; [vm_compute; reflexivity|].
  split; [vm_compute; reflexivity|].
  split; [vm_compute; reflexivity|].
  eapply (analyze_password_monotone_in_length
            sample_log2 sample_pow sample_format sample_format
           sample_circuit sample_hash (fun x => eq_refl) (fun x => eq_refl)
           8 20 true true true true false false);
    [lia | vm_compute; reflexivity | vm_compute; reflexivity
     | vm_compute; reflexivity | vm_compute; reflexivity
     | vm_compute; reflexivity | vm_compute; reflexivity].
Defined.

Lemma analyze_password_entropy_monotone_witness :
  exists r1 r2 i j,
    QuantumPasswordAnalyzer.analyze_password
      sample_log2 sample_pow sample_format sample_format sample_circuit
      sample_hash 6 true false false false false = Ok r1 /\
    QuantumPasswordAnalyzer.analyze_password
      sample_log2 sample_pow sample_format sample_format sample_circuit
      sample_hash 12 true false false false false = Ok r2 /\
    rank tiers_A (QuantumPasswordAnalyzer.classical_strength r1) = Some i /\
    rank tiers_A (QuantumPasswordAnalyzer.classical_strength r2) = Some j /\
    le (QuantumPasswordAnalyzer.entropy r1)
       (QuantumPasswordAnalyzer.entropy r2) = true /\
    (i <= j)%nat.
Proof.
  do 4 eexists.
  split; [vm_compute; reflexivity|].
  split; [vm_compute; reflexivity|].
  split; [vm_compute; reflexivity|].
  split; [vm_compute; reflexivity|].
  eapply (analyze_password_entropy_monotone
            sample_log2 sample_pow sample_format sample_format
            sample_circuit sample_hash
            6 12 true false false false false false);
    [lia | vm_compute; reflexivity | vm_compute; reflexivity
     | vm_compute; reflexivity | vm_compute; reflexivity
     | vm_compute; reflexivity].
Defined.

(** * The remaining statements of the specification *)

(** ** The speedup factor in the two variants *)






(** ** Combinations and entropy *)




Section Entropy.

Variable libm_log2 : float -> float.
Variable float_pow : float -> float -> result float.
Variable unicode_isdigit : N -> bool.
Variable key_bits : str.
Variable drawn : nat -> nat.


End Entropy.


(** ** Longer lengths *)



Section Monotone.

Variable libm_log2 : float -> float.
Variable float_pow : float -> float -> result float.
Variable unicode_isdigit : N -> bool.
Variable key_bits : str.
Variable drawn : nat -> nat.


End Monotone.


(** ** Lengths that are not analysed *)



Section Lengths.

Variable libm_log2 : float -> float.
Variable float_pow : float -> float -> result float.
Variables format_2e format_2f : float -> str.
Variable run_circuit : Z -> result str.
Variable hash : str -> Z.
Variable unicode_isdigit : N -> bool.
Variable key_bits : str.
Variable drawn : nat -> nat.

Let analyze := QuantumAuthTool.analyze libm_log2 unicode_isdigit key_bits drawn.
Let analyze_password :=
  QuantumPasswordAnalyzer.analyze_password
    libm_log2 float_pow format_2e format_2f run_circuit hash.


End Lengths.

